(** * rl-quadcopter: the DDPG and DQN agents of [quad_controller_rl]

    A shallow embedding of [agents/ddpg_agent.py] and [agents/dqn_agent.py]
    and the properties of their replay memory, exploration noise, learning
    targets and step cycle.

    Conventions of the embedding.
    - Numbers.  Python and numpy floats are exact rationals ([Q]); equality of
      computed numbers is [Qeq] ([==]).  Rounding, infinities and NaN are
      outside the model: every number of the model is finite, and the casts
      [astype(np.float32)] are the identity.  The [uint8] array of done flags
      keeps its 8-bit wrap-around.
    - Vectors and batches are lists.  Where the agents combine arrays that
      the task or the caller provides, the elementwise numpy operation is
      [broadcast], which raises as numpy does; inside the noise process and
      the soft update, whose operands have one shape, it is a [zip_with], and
      where a property needs that shape, it says so ([same_shape],
      [well_formed]).
    - Exceptions.  A function that can raise returns a [result]; [ValueError]
      and [IndexError] are the two exceptions the modelled code can raise.
    - Randomness.  The generators of [random] and [numpy.random] are input
      tapes with a cursor ([rng]): the model fixes how draws are consumed, not
      how they are distributed.
    - Loops that need not end.  The rejection loop of [random.sample] runs
      until the generator draws a fresh index.  The model follows it for
      [patience] draws, a number that comes with the generator, and answers
      [Unfinished] beyond.
    - The neural networks are Keras models, outside the repository: a model is
      its weights and the optimizer's slots, and the forward and training
      functions are the fields of an interface ([Networks], [Network]).
    - Calls that leave the agent (network training, console, stats file) are
      recorded, in call order, in the agent's [trace]. *)

From Stdlib Require Import QArith Qround Lqa ZArith Lia.
From stdpp Require Import base option list.

Set Default Proof Using "Type".
Set Warnings "-abstract-large-number".

(** ** Exceptions *)

Inductive exn := ValueError | IndexError.

(** The outcome of a call: a value, an exception, or [Unfinished] when the
    model stopped following a loop of the code. *)
Inductive result (A : Type) :=
| Ok (a : A)
| Raise (e : exn)
| Unfinished.

Arguments Ok {A} a.
Arguments Raise {A} e.
Arguments Unfinished {A}.

Definition bind {A B : Type} (c : result A) (k : A -> result B) : result B :=
  match c with
  | Ok a => k a
  | Raise e => Raise e
  | Unfinished => Unfinished
  end.

Notation "x <- c ;; k" := (bind c (fun x => k))
  (at level 20, c at level 99, k at level 200, only parsing).
Notation "' p <- c ;; k" := (bind c (fun x => let 'p := x in k))
  (at level 20, p pattern, c at level 99, k at level 200, only parsing).

(** [l[i]] for a non-negative index. *)
Definition index {A : Type} (l : list A) (i : nat) : result A :=
  match l !! i with
  | Some x => Ok x
  | None => Raise IndexError
  end.

(** [l[i] = x], in place. *)
Definition setitem {A : Type} (l : list A) (i : nat) (x : A)
  : result (list A) :=
  if decide (i < length l) then Ok (<[i := x]> l) else Raise IndexError.

(** ** Numbers and vectors *)

Abbreviation vec := (list Q) (only parsing).

Definition zeros (n : nat) : vec := replicate n 0%Q.
Definition ones (n : nat) : vec := replicate n 1%Q.
Definition vadd (x y : vec) : vec := zip_with Qplus x y.
Definition vsub (x y : vec) : vec := zip_with Qminus x y.
Definition vmul (x y : vec) : vec := zip_with Qmult x y.
Definition vscale (c : Q) (x : vec) : vec := Qmult c <$> x.

(** An elementwise numpy operation on two one-dimensional arrays: they have
    one length, or one of them has a single entry, which numpy uses for every
    entry of the other; numpy raises [ValueError] otherwise.
    [broadcast_with] is the array numpy computes when it does not raise. *)
Definition broadcast_with (f : Q -> Q -> Q) (x y : vec) : vec :=
  if decide (length x = length y) then zip_with f x y
  else
    match x, y with
    | [c], _ => f c <$> y
    | _, [c] => (fun xi => f xi c) <$> x
    | _, _ => zip_with f x y
    end.

Definition broadcast (f : Q -> Q -> Q) (x y : vec) : result vec :=
  if decide (length x = length y \/ length x = 1 \/ length y = 1) then
    Ok (broadcast_with f x y)
  else Raise ValueError.

(** [np.reshape(x, [-1, n])]: the rows of [n] entries that [x] fills;
    [ValueError] when [x] does not fill rows of [n]. *)
Definition reshape_rows (x : vec) (n : nat) : result (list vec) :=
  if decide (n <> 0 /\ length x mod n = 0) then
    Ok ((fun i => take n (drop (i * n) x)) <$> seq 0 (length x / n))
  else Raise ValueError.

(** The sum of a two-dimensional array, given by its rows of [w] entries,
    and a one-dimensional array: numpy adds the latter to every row. *)
Definition add_rows (rows : list vec) (w : nat) (x : vec)
  : result (list vec) :=
  if decide (w = length x \/ w = 1 \/ length x = 1) then
    Ok ((fun row => broadcast_with Qplus row x) <$> rows)
  else Raise ValueError.

(** A parameter tensor, flattened, and the list [get_weights()] returns. *)
Abbreviation tensor := (list Q) (only parsing).
Abbreviation weights := (list (list Q)) (only parsing).

(** [astype(np.uint8)] of a boolean, and subtraction of [uint8] values. *)
Definition uint8_of_bool (b : bool) : Z := if b then 1%Z else 0%Z.
Definition uint8_sub (a b : Z) : Z := ((a - b) mod 256)%Z.

(** [np.amax] and [np.argmax] of a vector; both raise on an empty one.
    [np.argmax] returns the first index of the maximum. *)
Definition amax (v : vec) : result Q :=
  match v with
  | [] => Raise ValueError
  | x :: v' => Ok (foldl (fun m y => if Qle_bool m y then y else m) x v')
  end.

Fixpoint argmax_from (v : vec) (i best : nat) (m : Q) : nat :=
  match v with
  | [] => best
  | y :: v' =>
      if Qle_bool y m then argmax_from v' (S i) best m
      else argmax_from v' (S i) i y
  end.

Definition argmax (v : vec) : result nat :=
  match v with
  | [] => Raise ValueError
  | x :: v' => Ok (argmax_from v' 1 0 x)
  end.

(** [np.arange(start, stop, step)]: [ceil((stop - start) / step)] values. *)
Definition arange (start stop step : Q) : vec :=
  let n := Z.to_nat (Qceiling ((stop - start) / step)) in
  (fun i : nat => (start + inject_Z (Z.of_nat i) * step)%Q) <$> seq 0 n.

(** ** [collections.deque] with a [maxlen] *)

Record deque (A : Type) := Deque {
  maxlen : nat;
  items : list A
}.

Arguments Deque {A} maxlen items.
Arguments maxlen {A} d.
Arguments items {A} d.

Definition deque_new {A : Type} (maxlen : nat) : deque A := Deque maxlen [].

(** [d.append(x)]: the item is added on the right and, when the deque is then
    longer than [maxlen], one item is dropped on the left. *)
Definition append {A : Type} (d : deque A) (x : A) : deque A :=
  let l := items d ++ [x] in
  Deque (maxlen d) (if decide (maxlen d < length l) then drop 1 l else l).

Definition len {A : Type} (d : deque A) : nat := length (items d).

(** ** Random generators *)

(** The state of the generators: what [random] will return next (raw
    non-negative integers), what [np.random.rand] will return (numbers of
    [[0, 1)]) and what [np.random.randn] will return; and the number of draws
    the model follows a rejection loop for. *)
Record rng := Rng {
  ints : nat -> nat;
  ints_pos : nat;
  uniforms : nat -> Q;
  uniforms_pos : nat;
  normals : nat -> Q;
  normals_pos : nat;
  patience : nat
}.

(** [random._randbelow(n)]: a draw below [n]; 0 when [n] is 0. *)
Definition randbelow (n : nat) (g : rng) : nat * rng :=
  (if decide (n = 0) then 0 else ints g (ints_pos g) mod n,
   Rng (ints g) (S (ints_pos g)) (uniforms g) (uniforms_pos g)
       (normals g) (normals_pos g) (patience g)).

(** [random.randrange(n)]. *)
Definition randrange (n : nat) (g : rng) : result (nat * rng) :=
  if decide (n = 0) then Raise ValueError else Ok (randbelow n g).

(** [np.random.rand()]. *)
Definition rand (g : rng) : Q * rng :=
  (uniforms g (uniforms_pos g),
   Rng (ints g) (ints_pos g) (uniforms g) (S (uniforms_pos g))
       (normals g) (normals_pos g) (patience g)).

(** [np.random.randn(k)]. *)
Definition randn (k : nat) (g : rng) : vec * rng :=
  (normals g <$> seq (normals_pos g) k,
   Rng (ints g) (ints_pos g) (uniforms g) (uniforms_pos g)
       (normals g) (normals_pos g + k) (patience g)).

(** The selection loop of [random.sample] on a small population: [m] items
    of [pool] are not yet selected and stand at [pool[0:m]]; every round draws
    [j] below [m], selects [pool[j]] and moves [pool[m-1]] into the vacancy.
    [select] runs it on given draws, [sample_loop] on the generator. *)
Fixpoint select {A : Type} (pool : list A) (m : nat) (js : list nat)
  : result (list A) :=
  match js with
  | [] => Ok []
  | j :: js' =>
      x <- index pool j ;;
      y <- index pool (m - 1) ;;
      xs <- select (<[j := y]> pool) (m - 1) js' ;;
      Ok (x :: xs)
  end.

Fixpoint sample_loop {A : Type} (pool : list A) (m k : nat) (g : rng)
  : result (list A * rng) :=
  match k with
  | 0 => Ok ([], g)
  | S k' =>
      let '(j, g1) := randbelow m g in
      x <- index pool j ;;
      y <- index pool (m - 1) ;;
      '(xs, g2) <- sample_loop (<[j := y]> pool) (m - 1) k' g1 ;;
      Ok (x :: xs, g2)
  end.

(** The selection loop of [random.sample] on a large population: every
    round draws [j] below [n] until [j] is not in the set [selected], adds it
    to the set and selects [population[j]].  [fresh] is the inner loop,
    [j = randbelow(n)] and [while j in selected: j = randbelow(n)], followed
    for [fuel] draws. *)
Fixpoint fresh (fuel n : nat) (selected : list nat) (g : rng)
  : result (nat * rng) :=
  match fuel with
  | 0 => Unfinished
  | S fuel' =>
      let '(j, g1) := randbelow n g in
      if decide (j ∈ selected) then fresh fuel' n selected g1 else Ok (j, g1)
  end.

Fixpoint sample_set {A : Type} (population : list A) (n k : nat)
    (selected : list nat) (g : rng) : result (list A * rng) :=
  match k with
  | 0 => Ok ([], g)
  | S k' =>
      '(j, g1) <- fresh (patience g) n selected g ;;
      x <- index population j ;;
      '(xs, g2) <- sample_set population n k' (j :: selected) g1 ;;
      Ok (x :: xs, g2)
  end.

(** [4 ** _ceil(_log(n, 4))]: the least power of 4 that is at least [n],
    reached from the power [p].  ([n] is three times a sample size and so no
    power of 4: the logarithm is not a whole number, and its rounding does
    not reach the sizes a memory can have.) *)
Fixpoint pow4_ceil (fuel n p : nat) : nat :=
  match fuel with
  | 0 => p
  | S fuel' => if decide (n <= p) then p else pow4_ceil fuel' n (4 * p)
  end.

(** The population size up to which [random.sample] copies the population
    into a pool: [setsize = 21], and [setsize += 4 ** _ceil(_log(k * 3, 4))]
    if [k > 5]. *)
Definition setsize (k : nat) : nat :=
  if decide (5 < k) then 21 + pow4_ceil (3 * k) (3 * k) 1 else 21.

(** [random.sample(population, k)]: [ValueError] when [k] exceeds the
    population; else [k] rounds of the selection loop, on a copy of the
    population when it has at most [setsize] items, and with a set of
    selected indices when it has more. *)
Definition random_sample {A : Type} (population : list A) (k : nat) (g : rng)
  : result (list A * rng) :=
  let n := length population in
  if decide (k <= n) then
    if decide (n <= setsize k) then sample_loop population n k g
    else sample_set population n k [] g
  else Raise ValueError.

(** The generator after [k] draws of [random], and the generator with
    another patience. *)
Definition after_ints (k : nat) (g : rng) : rng :=
  Rng (ints g) (ints_pos g + k) (uniforms g) (uniforms_pos g)
      (normals g) (normals_pos g) (patience g).

Definition with_patience (f : nat) (g : rng) : rng :=
  Rng (ints g) (ints_pos g) (uniforms g) (uniforms_pos g)
      (normals g) (normals_pos g) f.

(** The positions the selection loop selects in a population of [n], on the
    draws [js]. *)
Definition selected_positions (n : nat) (js : list nat) : result (list nat) :=
  select (seq 0 n) n js.

(** The draws [sample_loop] makes: the next [k] raw integers, the [i]-th
    reduced below [m - i]. *)
Fixpoint draws (m k : nat) (g : rng) : list nat :=
  match k with
  | 0 => []
  | S k' => let '(j, g1) := randbelow m g in j :: draws (m - 1) k' g1
  end.

(** Draws [random.sample] can make on a small population of [m]: the
    [i]-th is below [m - i]. *)
Fixpoint valid_draws (m : nat) (js : list nat) : Prop :=
  match js with
  | [] => True
  | j :: js' => j < m /\ valid_draws (m - 1) js'
  end.

(** The next [d] draws below [n], as the loop on a large population makes
    them, and those of them it keeps: every draw that is not in [selected]
    and was not drawn before. *)
Definition next_draws (n d : nat) (g : rng) : list nat :=
  (fun i => (randbelow n (after_ints i g)).1) <$> seq 0 d.

Fixpoint kept (selected : list nat) (js : list nat) : list nat :=
  match js with
  | [] => []
  | j :: js' =>
      if decide (j ∈ selected) then kept selected js'
      else j :: kept (j :: selected) js'
  end.

(** ** The environment and the Keras models *)

(** The task an agent is built for: the bounds of its action and observation
    spaces.  [action_space.shape] is the number of action components. *)
Record Task := {
  action_space_low : vec;
  action_space_high : vec;
  observation_space_low : vec;
  observation_space_high : vec
}.

Definition action_space_shape (t : Task) : nat := length (action_space_high t).

(** What the environment passes to [step] at every tick. *)
Record observation := {
  obs_state : vec;
  obs_reward : Q;
  obs_done : bool
}.

(** A Keras model: its weights, and the slots of its optimizer. *)
Record model (O : Type) := Model {
  get_weights : weights;
  slots : O
}.

Arguments Model {O} get_weights slots.
Arguments get_weights {O} m.
Arguments slots {O} m.

Definition set_weights {O : Type} (m : model O) (w : weights) : model O :=
  Model w (slots m).

(** The episode variables both agents keep and [reset_episode_vars] resets;
    [A] is the type of a stored action. *)
Record episode_vars (A : Type) := {
  last_state : option vec;
  last_action : option A;
  total_reward : Q;
  count : nat
}.

Arguments last_state {A} e.
Arguments last_action {A} e.
Arguments total_reward {A} e.
Arguments count {A} e.

(** The episode an observation belongs to: the number of [done] flags seen
    before it.  The observation that carries [done] closes its episode. *)
Definition episode_of (obs : list observation) (i : nat) : nat :=
  length (filter (fun o => obs_done o = true) (take i obs)).

(** A transition [(state, reward, next_state, done)] joins two consecutive
    observations of one episode of [obs]; [pre] is the agent's
    [preprocess_state]. *)
Definition within_episode (obs : list observation) (pre : vec -> vec)
    (state : vec) (reward : Q) (next_state : vec) (done : bool) : Prop :=
  exists i o1 o2,
    obs !! i = Some o1 /\ obs !! S i = Some o2 /\
    obs_done o1 = false /\ episode_of obs i = episode_of obs (S i) /\
    state = pre (obs_state o1) /\ next_state = pre (obs_state o2) /\
    reward = obs_reward o2 /\ done = obs_done o2.

(** Two weight lists of one architecture, and their equality as numbers. *)
Definition same_shape (v w : weights) : Prop :=
  Forall2 (fun x y : tensor => length x = length y) v w.

Definition weights_eq (v w : weights) : Prop := Forall2 (Forall2 Qeq) v w.

(** The rewards of [obs], added up episode by episode from the total [acc]
    of the episode under way: the totals of the episodes [obs] closes, and
    the total of the episode it leaves open. *)
Fixpoint episode_totals (acc : Q) (obs : list observation) : list Q * Q :=
  match obs with
  | [] => ([], acc)
  | o :: obs' =>
      let acc' := (acc + obs_reward o)%Q in
      if obs_done o then
        let '(totals, open) := episode_totals 0 obs' in (acc' :: totals, open)
      else episode_totals acc' obs'
  end.

(** The transitions [(state, reward, next_state, done)] of [obs]: one for
    each observation that does not close an episode and has a successor. *)
Fixpoint transitions_of (pre : vec -> vec) (obs : list observation)
  : list (list Q * Q * list Q * bool) :=
  match obs with
  | [] => []
  | o1 :: obs' =>
      match obs' with
      | [] => []
      | o2 :: _ =>
          (if obs_done o1 then []
           else [(pre (obs_state o1), obs_reward o2, pre (obs_state o2),
                  obs_done o2)])
          ++ transitions_of pre obs'
      end
  end.

(** * [ddpg_agent.py] *)

Module DDPG.

Record Experience := {
  state : vec;
  action : vec;
  reward : Q;
  next_state : vec;
  done : bool
}.

(** *** [class ReplayBuffer] *)

Record ReplayBuffer := {
  rb_size : nat;
  rb_memory : deque Experience
}.

Definition ReplayBuffer_init (size : nat) : ReplayBuffer :=
  {| rb_size := size; rb_memory := deque_new size |}.

Definition ReplayBuffer_add (b : ReplayBuffer)
    (state action : vec) (reward : Q) (next_state : vec) (done : bool)
  : ReplayBuffer :=
  let e := Build_Experience state action reward next_state done in
  {| rb_size := rb_size b; rb_memory := append (rb_memory b) e |}.

Definition ReplayBuffer_sample (b : ReplayBuffer) (batch_size : nat) (g : rng)
  : result (list Experience * rng) :=
  random_sample (items (rb_memory b)) batch_size g.

Definition ReplayBuffer_len (b : ReplayBuffer) : nat := len (rb_memory b).

(** A sequence of [add] calls, one for each experience of [es]. *)
Definition add_all (b : ReplayBuffer) (es : list Experience) : ReplayBuffer :=
  foldl
    (fun b e =>
       ReplayBuffer_add b (state e) (action e) (reward e) (next_state e)
         (done e))
    b es.

(** *** [class OUNoise] *)

Record OUNoise := {
  ou_size : nat;
  ou_mu : vec;
  ou_theta : Q;
  ou_sigma : Q;
  ou_state : vec
}.

Definition OUNoise_init (size : nat) (mu : option vec) (theta sigma : Q)
  : result OUNoise :=
  let mu' := default (zeros size) mu in
  state <- broadcast Qmult (ones size) mu' ;;
  Ok {| ou_size := size; ou_mu := mu'; ou_theta := theta; ou_sigma := sigma;
        ou_state := state |}.

Definition OUNoise_reset (n : OUNoise) : OUNoise :=
  {| ou_size := ou_size n; ou_mu := ou_mu n; ou_theta := ou_theta n;
     ou_sigma := ou_sigma n; ou_state := ou_mu n |}.

(** The step of one call, from the standard-normal draws [z]. *)
Definition OUNoise_dx (n : OUNoise) (z : vec) : vec :=
  let x := ou_state n in
  vadd (vscale (ou_theta n) (vsub (ou_mu n) x)) (vscale (ou_sigma n) z).

Definition OUNoise_sample (n : OUNoise) (g : rng) : vec * OUNoise * rng :=
  let x := ou_state n in
  let '(z, g') := randn (length x) g in
  let dx := OUNoise_dx n z in
  let s := vadd x dx in
  (s,
   {| ou_size := ou_size n; ou_mu := ou_mu n; ou_theta := ou_theta n;
      ou_sigma := ou_sigma n; ou_state := s |},
   g').

(** *** [Actor.__init__]

    What the constructor of the actor does with the bounds it is given: it
    computes [action_range], and the scaling layer it adds to the network,
    [Lambda(lambda x: ((x+1) * self.action_range/2) + self.action_low)],
    multiplies the [action_size] raw actions by [action_range] and adds
    [action_low], which Keras checks when it builds the layer. *)
Definition Actor_init (action_size : nat) (action_low action_high : vec)
  : result vec :=
  action_range <- broadcast Qminus action_high action_low ;;
  scaled <- broadcast Qmult (ones action_size) action_range ;;
  _ <- broadcast Qplus scaled action_low ;;
  Ok action_range.

(** *** [class Actor], [class Critic]

    The two Keras networks, as far as the agent uses them.  The actor's
    output layer has one unit per action component; the critic's has one
    unit. *)
Class Networks := {
  optimizer : Type;
  (** unit [i] of [Actor.model] on one state *)
  actor_unit : weights -> vec -> nat -> Q;
  (** [Actor.train_fn([states, action_gradients, 1])] *)
  actor_train_fn :
    model optimizer -> list vec -> list vec -> model optimizer;
  (** [Critic.model] on one state and one action *)
  critic_forward : weights -> vec -> vec -> Q;
  (** [Critic.model.train_on_batch(x=[states, actions], y=q_targets)] *)
  critic_train_on_batch :
    model optimizer -> list vec -> list vec -> list Q -> model optimizer;
  (** [Critic.get_action_gradients([states, actions, 0])], one row a sample *)
  critic_get_action_gradients :
    weights -> list vec -> list vec -> list vec
}.

(** What the agent does outside itself. *)
Inductive event :=
| PrintSavingStats
| TrainOnBatch (states actions : list vec) (q_targets : list Q)
| TrainFn (states action_gradients : list vec)
| PrintScore (total_reward : Q)
| WriteStats (episode_num : nat) (total_reward : Q).

Definition is_training (e : event) : bool :=
  match e with
  | TrainOnBatch _ _ _ | TrainFn _ _ => true
  | _ => false
  end.

(** The rows [write_stats] appended to the stats file. *)
Definition stats_rows (tr : list event) : list (nat * Q) :=
  omap (fun e => match e with
                 | WriteStats n r => Some (n, r)
                 | _ => None
                 end) tr.

Section Agent.
Context {N : Networks}.

Record networks := {
  actor_local : model optimizer;
  actor_target : model optimizer;
  critic_local : model optimizer;
  critic_target : model optimizer
}.

(** *** [class DDPGAgent]

    The attributes of the agent; [nets] groups the four networks and [vars]
    the episode variables.  An action is an array of one row for each row of
    states; [step] returns only when it is a single row, and the copy it
    keeps as [last_action] is the entries of the array in order: that
    row. *)

Record Agent := {
  task : Task;
  state_size : nat;
  state_range : vec;
  action_size : nat;
  action_range : vec;
  action_low : vec;
  action_high : vec;
  buffer_size : nat;
  batch_size : nat;
  gamma : Q;
  tau : Q;
  nets : networks;
  noise : OUNoise;
  memory : ReplayBuffer;
  vars : episode_vars vec;
  episode_num : nat;
  random : rng;
  trace : list event
}.

Definition set_nets (a : Agent) (x : networks) : Agent :=
  Build_Agent (task a) (state_size a) (state_range a) (action_size a)
    (action_range a) (action_low a) (action_high a) (buffer_size a)
    (batch_size a) (gamma a) (tau a) x (noise a) (memory a) (vars a)
    (episode_num a) (random a) (trace a).

Definition set_noise (a : Agent) (x : OUNoise) : Agent :=
  Build_Agent (task a) (state_size a) (state_range a) (action_size a)
    (action_range a) (action_low a) (action_high a) (buffer_size a)
    (batch_size a) (gamma a) (tau a) (nets a) x (memory a) (vars a)
    (episode_num a) (random a) (trace a).

Definition set_memory (a : Agent) (x : ReplayBuffer) : Agent :=
  Build_Agent (task a) (state_size a) (state_range a) (action_size a)
    (action_range a) (action_low a) (action_high a) (buffer_size a)
    (batch_size a) (gamma a) (tau a) (nets a) (noise a) x (vars a)
    (episode_num a) (random a) (trace a).

Definition set_vars (a : Agent) (x : episode_vars vec) : Agent :=
  Build_Agent (task a) (state_size a) (state_range a) (action_size a)
    (action_range a) (action_low a) (action_high a) (buffer_size a)
    (batch_size a) (gamma a) (tau a) (nets a) (noise a) (memory a) x
    (episode_num a) (random a) (trace a).

Definition set_episode_num (a : Agent) (x : nat) : Agent :=
  Build_Agent (task a) (state_size a) (state_range a) (action_size a)
    (action_range a) (action_low a) (action_high a) (buffer_size a)
    (batch_size a) (gamma a) (tau a) (nets a) (noise a) (memory a) (vars a)
    x (random a) (trace a).

Definition set_random (a : Agent) (x : rng) : Agent :=
  Build_Agent (task a) (state_size a) (state_range a) (action_size a)
    (action_range a) (action_low a) (action_high a) (buffer_size a)
    (batch_size a) (gamma a) (tau a) (nets a) (noise a) (memory a) (vars a)
    (episode_num a) x (trace a).

(** One more call recorded. *)
Definition log (a : Agent) (e : event) : Agent :=
  Build_Agent (task a) (state_size a) (state_range a) (action_size a)
    (action_range a) (action_low a) (action_high a) (buffer_size a)
    (batch_size a) (gamma a) (tau a) (nets a) (noise a) (memory a) (vars a)
    (episode_num a) (random a) (trace a ++ [e]).

Definition reset_episode_vars (a : Agent) : Agent :=
  set_vars a
    {| last_state := None; last_action := None;
       total_reward := 0; count := 0 |}.

(** [__init__].  [built] holds the four Keras networks as the constructors
    of [Actor] and [Critic] leave them when they return; the stats file
    name, which the clock decides, is left out. *)
Definition init (task : Task) (built : networks) (g : rng) : result Agent :=
  let state_size := 3 in
  state_range <-
    broadcast Qminus (observation_space_high task)
      (observation_space_low task) ;;
  let action_size := 3 in
  action_diff <-
    broadcast Qminus (action_space_high task) (action_space_low task) ;;
  let action_range := take action_size action_diff in
  let action_low := take action_size (action_space_low task) in
  let action_high := take action_size (action_space_high task) in
  _ <- Actor_init action_size action_low action_high ;;
  _ <- Actor_init action_size action_low action_high ;;
  let built :=
    {| actor_local := actor_local built;
       actor_target :=
         set_weights (actor_target built) (get_weights (actor_local built));
       critic_local := critic_local built;
       critic_target :=
         set_weights (critic_target built) (get_weights (critic_local built))
    |} in
  noise <- OUNoise_init action_size None 0.15 0.3 ;;
  let buffer_size := 100000 in
  let a :=
    {| task := task; state_size := state_size; state_range := state_range;
       action_size := action_size; action_range := action_range;
       action_low := action_low; action_high := action_high;
       buffer_size := buffer_size; batch_size := 64;
       gamma := 0.0; tau := 0.001;
       nets := built;
       noise := noise;
       memory := ReplayBuffer_init buffer_size;
       vars := {| last_state := None; last_action := None;
                  total_reward := 0; count := 0 |};
       episode_num := 1; random := g; trace := [] |} in
  Ok (log (set_episode_num (reset_episode_vars a) 1) PrintSavingStats).

Definition preprocess_state (state : vec) : vec := take 3 state.

(** [complete_action[0:3] = action]: the slice has [min 3 n] places, and
    numpy accepts an array of one row that holds as many values, or one
    value for all of them. *)
Definition postprocess_action (a : Agent) (action : list vec) : result vec :=
  let n := action_space_shape (task a) in
  match action with
  | [row] =>
      if decide (length row = 3 `min` n) then Ok (row ++ zeros (n - 3))
      else
        match row with
        | [x] => Ok (replicate (3 `min` n) x ++ zeros (n - 3))
        | _ => Raise ValueError
        end
  | _ => Raise ValueError
  end.

Definition predict_actor (a : Agent) (m : model optimizer) (state : vec)
  : vec :=
  actor_unit (get_weights m) state <$> seq 0 (action_size a).

Definition act (a : Agent) (states : vec) : result (list vec * Agent) :=
  states <- reshape_rows states (state_size a) ;;
  let actions := predict_actor a (actor_local (nets a)) <$> states in
  let '(x, n, g) := OUNoise_sample (noise a) (random a) in
  noisy <- add_rows actions (action_size a) x ;;
  Ok (noisy, set_random (set_noise a n) g).

Definition tensors_scale (c : Q) (w : weights) : weights := vscale c <$> w.
Definition tensors_add (v w : weights) : weights := zip_with vadd v w.

Definition soft_update (a : Agent) (local_model target_model : model optimizer)
  : model optimizer :=
  let local_weights := get_weights local_model in
  let target_weights := get_weights target_model in
  let new_weights :=
    tensors_add (tensors_scale (tau a) local_weights)
                (tensors_scale (1 - tau a) target_weights) in
  set_weights target_model new_weights.

(** [rewards + self.gamma * q_target_nexts * (1 - dones)], columns of one
    entry a transition. *)
Definition q_targets_of (gamma : Q) (rewards q_target_nexts : list Q)
    (dones : list Z) : list Q :=
  zip_with Qplus rewards
    (zip_with Qmult (Qmult gamma <$> q_target_nexts)
       ((fun d => inject_Z (uint8_sub 1 d)) <$> dones)).

(** The targets [learn] computes for a batch. *)
Definition q_targets (a : Agent) (experiences : list Experience) : list Q :=
  let rewards := reward <$> experiences in
  let dones := (fun e => uint8_of_bool (done e)) <$> experiences in
  let next_states := next_state <$> experiences in
  let action_nexts :=
    predict_actor a (actor_target (nets a)) <$> next_states in
  let q_target_nexts :=
    zip_with (critic_forward (get_weights (critic_target (nets a))))
      next_states action_nexts in
  q_targets_of (gamma a) rewards q_target_nexts dones.

(** [learn].  No sampled experience is [None], so the comprehensions keep
    all of them. *)
Definition learn (a : Agent) (experiences : list Experience) : Agent :=
  let states := state <$> experiences in
  let actions := action <$> experiences in
  let y := q_targets a experiences in
  let critic_local' :=
    critic_train_on_batch (critic_local (nets a)) states actions y in
  let a1 := log a (TrainOnBatch states actions y) in
  let action_gradients :=
    critic_get_action_gradients (get_weights critic_local') states actions in
  let actor_local' :=
    actor_train_fn (actor_local (nets a)) states action_gradients in
  let a2 := log a1 (TrainFn states action_gradients) in
  let critic_target' := soft_update a critic_local' (critic_target (nets a)) in
  let actor_target' := soft_update a actor_local' (actor_target (nets a)) in
  set_nets a2
    {| actor_local := actor_local'; actor_target := actor_target';
       critic_local := critic_local'; critic_target := critic_target' |}.

(** The learning phase of [step]. *)
Definition learn_if_enough (a : Agent) : result Agent :=
  if decide (batch_size a < ReplayBuffer_len (memory a)) then
    '(experiences, g) <-
      ReplayBuffer_sample (memory a) (batch_size a) (random a) ;;
    Ok (learn (set_random a g) experiences)
  else Ok a.

Definition step (a : Agent) (o : observation) : result (vec * Agent) :=
  let state := preprocess_state (obs_state o) in
  '(action, a1) <- act a state ;;
  let a2 :=
    match last_state (vars a1), last_action (vars a1) with
    | Some ls, Some la =>
        set_memory a1
          (ReplayBuffer_add (memory a1) ls la (obs_reward o) state (obs_done o))
    | _, _ => a1
    end in
  a3 <- learn_if_enough a2 ;;
  let a4 :=
    set_vars a3
      {| last_state := Some state; last_action := Some (concat action);
         total_reward := total_reward (vars a3) + obs_reward o;
         count := count (vars a3) |} in
  let a5 :=
    if obs_done o then
      let b1 := log a4 (PrintScore (total_reward (vars a4))) in
      let b2 := log b1 (WriteStats (episode_num b1) (total_reward (vars b1))) in
      let b3 := set_episode_num b2 (episode_num b2 + 1) in
      reset_episode_vars b3
    else a4 in
  completed <- postprocess_action a5 action ;;
  Ok (completed, a5).

(** The agent driven over a sequence of observations; the actions it
    returned come with the final agent. *)
Fixpoint run (a : Agent) (obs : list observation)
  : result (list vec * Agent) :=
  match obs with
  | [] => Ok ([], a)
  | o :: obs' =>
      '(action, a1) <- step a o ;;
      '(actions, a2) <- run a1 obs' ;;
      Ok (action :: actions, a2)
  end.

(** *** Vocabulary of the properties *)

(** The agent can take a step: the task has the three force components
    [postprocess_action] fills, states and actions have three components,
    and the noise has the size of an action. *)
Definition well_formed (a : Agent) : Prop :=
  3 <= action_space_shape (task a) /\
  state_size a = 3 /\
  action_size a = 3 /\
  length (ou_state (noise a)) = 3 /\
  length (ou_mu (noise a)) = 3.

(** The agent after the storing phase of [step], from the agent [a1] that
    [act] left, and the agent at the end of [step], from the agent [a3] that
    the learning phase left. *)
Definition after_storing (a1 : Agent) (o : observation) : Agent :=
  match last_state (vars a1), last_action (vars a1) with
  | Some ls, Some la =>
      set_memory a1
        (ReplayBuffer_add (memory a1) ls la (obs_reward o)
           (preprocess_state (obs_state o)) (obs_done o))
  | _, _ => a1
  end.

Definition step_end (a3 : Agent) (o : observation) (action : list vec)
  : Agent :=
  let a4 :=
    set_vars a3
      {| last_state := Some (preprocess_state (obs_state o));
         last_action := Some (concat action);
         total_reward := total_reward (vars a3) + obs_reward o;
         count := count (vars a3) |} in
  if obs_done o then
    let b1 := log a4 (PrintScore (total_reward (vars a4))) in
    let b2 := log b1 (WriteStats (episode_num b1) (total_reward (vars b1))) in
    let b3 := set_episode_num b2 (episode_num b2 + 1) in
    reset_episode_vars b3
  else a4.

(** The memory after the storing phase of [step]. *)
Definition stored (a : Agent) (o : observation) : ReplayBuffer :=
  match last_state (vars a), last_action (vars a) with
  | Some ls, Some la =>
      ReplayBuffer_add (memory a) ls la (obs_reward o)
        (preprocess_state (obs_state o)) (obs_done o)
  | _, _ => memory a
  end.

(** The target critic's prediction for the state an experience leads to, on
    the action the target actor predicts there. *)
Definition q_target_next (a : Agent) (e : Experience) : Q :=
  critic_forward (get_weights (critic_target (nets a))) (next_state e)
    (predict_actor a (actor_target (nets a)) (next_state e)).

Definition experience_within (obs : list observation) (e : Experience)
  : Prop :=
  within_episode obs preprocess_state
    (state e) (reward e) (next_state e) (done e).

(** What holds of the agent after the observations [seen]. *)
Definition episode_invariant (seen : list observation) (a : Agent) : Prop :=
  Forall (experience_within seen) (items (rb_memory (memory a))) /\
  forall s, last_state (vars a) = Some s ->
    exists o, last seen = Some o /\ obs_done o = false /\
              s = preprocess_state (obs_state o).

(** An experience without its action. *)
Definition experience_reading (e : Experience) : list Q * Q * list Q * bool :=
  (state e, reward e, next_state e, done e).

(** What the memory and the previous state are after the observations
    [seen]. *)
Definition memory_invariant (seen : list observation) (a : Agent) : Prop :=
  let history := transitions_of preprocess_state seen in
  experience_reading <$> items (rb_memory (memory a)) =
    drop (length history - maxlen (rb_memory (memory a))) history /\
  last_state (vars a) =
    match last seen with
    | Some o =>
        if obs_done o then None else Some (preprocess_state (obs_state o))
    | None => None
    end /\
  (is_Some (last_state (vars a)) -> is_Some (last_action (vars a))).

(** The experiences the memory may hold once the next step has stored
    its own. *)
Definition memory_bound (a : Agent) : nat :=
  ReplayBuffer_len (memory a) +
  match last_state (vars a) with Some _ => 1 | None => 0 end.

End Agent.

End DDPG.

(** * [dqn_agent.py] *)

Module DQN.

Definition FORCE_Z : nat := 2.
Definition ACTION_SPLIT : nat := 50.

Definition GAMMA : Q := 0.9.
Definition EPSILON_MIN : Q := 0.01.
Definition EPSILON_DECAY : Q := 0.996.
Definition LEARNING_RATE : Q := 0.001.

Definition MEMORY_SIZE : nat := 10000.
Definition BATCH_SIZE : nat := 64.

(** A stored transition: the tuple
    [(state, action, reward, next_state, done)]; the action is an index into
    [action_map]. *)
Abbreviation transition :=
  (list Q * nat * Q * list Q * bool)%type (only parsing).

(** The Keras network of [_build_model], as far as the agent uses it; its
    output layer has one unit per action of [action_map]. *)
Class Network := {
  optimizer : Type;
  (** unit [i] of [model.predict] on one state *)
  q_unit : weights -> vec -> nat -> Q;
  (** [model.fit(state, target_f, epochs=1, verbose=0)] *)
  fit : model optimizer -> vec -> vec -> model optimizer
}.

(** What the agent does outside itself. *)
Inductive event :=
| PrintSavingStats
| Fit (state target_f : vec)
| PrintScore (total_reward epsilon : Q)
| WriteStats (episode_num : nat) (total_reward epsilon : Q)
| SaveWeights.

Definition is_training (e : event) : bool :=
  match e with
  | Fit _ _ => true
  | _ => false
  end.

Definition is_save (e : event) : bool :=
  match e with
  | SaveWeights => true
  | _ => false
  end.

(** The rows [write_stats] appended to the stats file, without the rate. *)
Definition stats_rows (tr : list event) : list (nat * Q) :=
  omap (fun e => match e with
                 | WriteStats n r _ => Some (n, r)
                 | _ => None
                 end) tr.

Section Agent.
Context {N : Network}.

(** *** [class DQNAgent] *)

Record Agent := {
  task : Task;
  state_size : nat;
  action_range : Q;
  action_low : Q;
  action_high : Q;
  action_map : vec;
  action_size : nat;
  memory : deque transition;
  network : model optimizer;
  epsilon : Q;
  vars : episode_vars nat;
  episode_num : nat;
  random : rng;
  trace : list event
}.

Definition set_memory (a : Agent) (x : deque transition) : Agent :=
  Build_Agent (task a) (state_size a) (action_range a) (action_low a)
    (action_high a) (action_map a) (action_size a) x (network a) (epsilon a)
    (vars a) (episode_num a) (random a) (trace a).

Definition set_network (a : Agent) (x : model optimizer) : Agent :=
  Build_Agent (task a) (state_size a) (action_range a) (action_low a)
    (action_high a) (action_map a) (action_size a) (memory a) x (epsilon a)
    (vars a) (episode_num a) (random a) (trace a).

Definition set_epsilon (a : Agent) (x : Q) : Agent :=
  Build_Agent (task a) (state_size a) (action_range a) (action_low a)
    (action_high a) (action_map a) (action_size a) (memory a) (network a) x
    (vars a) (episode_num a) (random a) (trace a).

Definition set_vars (a : Agent) (x : episode_vars nat) : Agent :=
  Build_Agent (task a) (state_size a) (action_range a) (action_low a)
    (action_high a) (action_map a) (action_size a) (memory a) (network a)
    (epsilon a) x (episode_num a) (random a) (trace a).

Definition set_episode_num (a : Agent) (x : nat) : Agent :=
  Build_Agent (task a) (state_size a) (action_range a) (action_low a)
    (action_high a) (action_map a) (action_size a) (memory a) (network a)
    (epsilon a) (vars a) x (random a) (trace a).

Definition set_random (a : Agent) (x : rng) : Agent :=
  Build_Agent (task a) (state_size a) (action_range a) (action_low a)
    (action_high a) (action_map a) (action_size a) (memory a) (network a)
    (epsilon a) (vars a) (episode_num a) x (trace a).

(** One more call recorded. *)
Definition log (a : Agent) (e : event) : Agent :=
  Build_Agent (task a) (state_size a) (action_range a) (action_low a)
    (action_high a) (action_map a) (action_size a) (memory a) (network a)
    (epsilon a) (vars a) (episode_num a) (random a) (trace a ++ [e]).

Definition reset_episode_vars (a : Agent) : Agent :=
  set_vars a
    {| last_state := None; last_action := None;
       total_reward := 0; count := 0 |}.

(** [__init__].  The network arrives as [_build_model] built it; the stats
    file name, which the clock decides, is left out. *)
Definition init (task : Task) (built : model optimizer) (g : rng)
  : result Agent :=
  action_diff <-
    broadcast Qminus (action_space_high task) (action_space_low task) ;;
  action_range <- index action_diff FORCE_Z ;;
  action_low <- index (action_space_low task) FORCE_Z ;;
  action_high <- index (action_space_high task) FORCE_Z ;;
  let action_map := reverse (arange action_high 15.0 (-4.0)) in
  let a :=
    {| task := task; state_size := 3;
       action_range := action_range; action_low := action_low;
       action_high := action_high;
       action_map := action_map; action_size := length action_map;
       memory := deque_new MEMORY_SIZE;
       network := built;
       epsilon := 3.0;
       vars := {| last_state := None; last_action := None;
                  total_reward := 0; count := 0 |};
       episode_num := 1; random := g; trace := [] |} in
  Ok (log (set_episode_num (reset_episode_vars a) 1) PrintSavingStats).

Definition add_memory (a : Agent)
    (state : vec) (action : nat) (reward : Q) (next_state : vec) (done : bool)
  : Agent :=
  set_memory a (append (memory a) (state, action, reward, next_state, done)).

(** [self.model.predict(np.vstack([state]))[0]]. *)
Definition predict (a : Agent) (state : vec) : vec :=
  q_unit (get_weights (network a)) state <$> seq 0 (action_size a).

Definition act (a : Agent) (state : vec) : result (nat * Agent) :=
  let '(u, g) := rand (random a) in
  if Qle_bool u (epsilon a) then
    '(i, g') <- randrange (action_size a) g ;;
    Ok (i, set_random a g')
  else
    i <- argmax (predict a state) ;;
    Ok (i, set_random a g).

(** The scalar target of one transition. *)
Definition target_of (a : Agent) (reward : Q) (next_state : vec) (done : bool)
  : result Q :=
  if done then Ok reward
  else
    m <- amax (predict a next_state) ;;
    Ok (reward + GAMMA * m)%Q.

(** The body of the loop of [replay], for one transition. *)
Definition replay_one (a : Agent) (t : transition) : result Agent :=
  let '(state, action, reward, next_state, done) := t in
  target <- target_of a reward next_state done ;;
  let target_f := predict a state in
  target_f' <- setitem target_f action target ;;
  Ok (log (set_network a (fit (network a) state target_f'))
          (Fit state target_f')).

Fixpoint replay_loop (a : Agent) (mini_batch : list transition)
  : result Agent :=
  match mini_batch with
  | [] => Ok a
  | t :: rest =>
      a1 <- replay_one a t ;;
      replay_loop a1 rest
  end.

(** The end of [replay]: the exploration rate decreases. *)
Definition decay (epsilon : Q) : Q :=
  if Qlt_le_dec EPSILON_MIN epsilon then (epsilon * EPSILON_DECAY)%Q
  else epsilon.

Definition replay (a : Agent) (batch_size : nat) : result Agent :=
  '(mini_batch, g) <- random_sample (items (memory a)) batch_size (random a) ;;
  a1 <- replay_loop (set_random a g) mini_batch ;;
  Ok (set_epsilon a1 (decay (epsilon a1))).

Definition preprocess_state (state : vec) : vec := take 3 state.

Definition postprocess_action (a : Agent) (action : nat) : result vec :=
  let complete_action := zeros (action_space_shape (task a)) in
  x <- index (action_map a) action ;;
  setitem complete_action FORCE_Z x.

(** The learning phase of [step]. *)
Definition replay_if_enough (a : Agent) : result Agent :=
  if decide (BATCH_SIZE < len (memory a)) then replay a BATCH_SIZE else Ok a.

Definition step (a : Agent) (o : observation) : result (vec * Agent) :=
  let state := preprocess_state (obs_state o) in
  '(action, a1) <- act a state ;;
  let a2 :=
    match last_state (vars a1), last_action (vars a1) with
    | Some ls, Some la =>
        add_memory a1 ls la (obs_reward o) state (obs_done o)
    | _, _ => a1
    end in
  a3 <- replay_if_enough a2 ;;
  let a4 :=
    set_vars a3
      {| last_state := Some state; last_action := Some action;
         total_reward := total_reward (vars a3) + obs_reward o;
         count := count (vars a3) |} in
  let a5 :=
    if obs_done o then
      let b1 := log a4 (PrintScore (total_reward (vars a4)) (epsilon a4)) in
      let b2 :=
        log b1 (WriteStats (episode_num b1) (total_reward (vars b1))
                  (epsilon b1)) in
      let b3 := set_episode_num b2 (episode_num b2 + 1) in
      let b4 :=
        if decide (episode_num b3 mod 250 = 0) then log b3 SaveWeights
        else b3 in
      reset_episode_vars b4
    else a4 in
  completed <- postprocess_action a5 action ;;
  Ok (completed, a5).

(** The agent driven over a sequence of observations; the actions it
    returned come with the final agent. *)
Fixpoint run (a : Agent) (obs : list observation)
  : result (list vec * Agent) :=
  match obs with
  | [] => Ok ([], a)
  | o :: obs' =>
      '(action, a1) <- step a o ;;
      '(actions, a2) <- run a1 obs' ;;
      Ok (action :: actions, a2)
  end.

(** [replay(BATCH_SIZE)], [k] times in a row. *)
Fixpoint replays (a : Agent) (k : nat) : result Agent :=
  match k with
  | 0 => Ok a
  | S k' => a1 <- replay a BATCH_SIZE ;; replays a1 k'
  end.

(** A sequence of [add_memory] calls, one for each transition of [ts]. *)
Definition add_all (a : Agent) (ts : list transition) : Agent :=
  foldl (fun a '(s, i, r, ns, d) => add_memory a s i r ns d) a ts.

(** *** Vocabulary of the properties *)

Definition transition_action (t : transition) : nat := t.1.1.1.2.

(** The agent can take a step: there is an action to choose, the task has
    the component [FORCE_Z], and the actions the agent remembers are indices
    of [action_map]. *)
Definition well_formed (a : Agent) : Prop :=
  0 < action_size a /\
  action_size a = length (action_map a) /\
  FORCE_Z < action_space_shape (task a) /\
  Forall (fun t => transition_action t < action_size a) (items (memory a)) /\
  (forall la, last_action (vars a) = Some la -> la < action_size a).

(** The memory after the storing phase of [step]. *)
Definition stored (a : Agent) (o : observation) : deque transition :=
  match last_state (vars a), last_action (vars a) with
  | Some ls, Some la =>
      append (memory a)
        (ls, la, obs_reward o, preprocess_state (obs_state o), obs_done o)
  | _, _ => memory a
  end.

(** The network after the fits of [evs]. *)
Definition apply_fits (m : model optimizer) (evs : list event)
  : model optimizer :=
  foldl (fun m e => match e with Fit s y => fit m s y | _ => m end) m evs.

(** What a function leaves alone in the agent. *)
Definition same_setup (a a' : Agent) : Prop :=
  task a' = task a /\ action_map a' = action_map a /\
  action_size a' = action_size a /\ memory a' = memory a /\
  vars a' = vars a /\ episode_num a' = episode_num a.

(** [e] is the fit of the transition [t] when the network is [m]: the
    target vector is the prediction of [m] on the state of [t], with the
    entry of the action of [t] overwritten by the scalar target. *)
Definition fit_of (a : Agent) (m : model optimizer) (t : transition)
    (e : event) : Prop :=
  let '(s, i, r, ns, d) := t in
  let a_i := set_network a m in
  exists y,
    target_of a_i r ns d = Ok y /\ i < length (predict a_i s) /\
    e = Fit s (<[i := y]> (predict a_i s)).

Definition transition_within (obs : list observation) (t : transition)
  : Prop :=
  let '(s, _, r, ns, d) := t in
  within_episode obs preprocess_state s r ns d.

(** What holds of the agent after the observations [seen]. *)
Definition episode_invariant (seen : list observation) (a : Agent) : Prop :=
  Forall (transition_within seen) (items (memory a)) /\
  forall s, last_state (vars a) = Some s ->
    exists o, last seen = Some o /\ obs_done o = false /\
              s = preprocess_state (obs_state o).

(** A transition without its action. *)
Definition transition_reading (t : transition)
  : list Q * Q * list Q * bool :=
  let '(s, _, r, ns, d) := t in (s, r, ns, d).

(** What the memory and the previous state are after the observations
    [seen]. *)
Definition memory_invariant (seen : list observation) (a : Agent) : Prop :=
  let history := transitions_of preprocess_state seen in
  transition_reading <$> items (memory a) =
    drop (length history - maxlen (memory a)) history /\
  last_state (vars a) =
    match last seen with
    | Some o =>
        if obs_done o then None else Some (preprocess_state (obs_state o))
    | None => None
    end /\
  (is_Some (last_state (vars a)) -> is_Some (last_action (vars a))).

(** The transitions the memory may hold once the next step has stored
    its own. *)
Definition memory_bound (a : Agent) : nat :=
  len (memory a) + match last_state (vars a) with Some _ => 1 | None => 0 end.

(** The calls of [model.fit] among the events. *)
Definition fits (tr : list event) : list event :=
  filter (fun e => is_training e = true) tr.

(** The calls of [save_weights] among the events. *)
Definition saves (tr : list event) : list event :=
  filter (fun e => is_save e = true) tr.

End Agent.

End DQN.

(** * A concrete setting

    A task, a generator and networks to run the agents on: the examples and
    witnesses of the properties below evaluate the agents here. *)

Module Example.

(** A task as the simulator defines them: a pose of seven components, and a
    wrench of three forces and three torques within 25 of zero. *)
Definition task : Task :=
  {| action_space_low := replicate 6 (-25)%Q;
     action_space_high := replicate 6 25%Q;
     observation_space_low := replicate 7 (-150)%Q;
     observation_space_high := replicate 7 150%Q |}.

Definition generator : rng :=
  {| ints := fun i => 7 * i + 3; ints_pos := 0;
     uniforms := fun i => if Nat.even i then 0.25%Q else 0.75%Q;
     uniforms_pos := 0;
     normals := fun i => if Nat.even i then 1%Q else (-0.5)%Q;
     normals_pos := 0;
     patience := 1000 |}.

(** Four observations: two ticks of an episode, its last tick, and the first
    tick of the next episode. *)
Definition observations : list observation :=
  [ {| obs_state := [0; 0; 10; 0; 0; 0; 1]%Q; obs_reward := (-10)%Q;
       obs_done := false |};
    {| obs_state := [0; 0; 11; 0; 0; 0; 1]%Q; obs_reward := (-9)%Q;
       obs_done := false |};
    {| obs_state := [0; 0; 12; 0; 0; 0; 1]%Q; obs_reward := (-8)%Q;
       obs_done := true |};
    {| obs_state := [0; 0; 1; 0; 0; 0; 1]%Q; obs_reward := (-20)%Q;
       obs_done := false |} ].

(** Networks for the DDPG agent: the actor echoes the state, the critic adds
    up the action, and training moves the first weight. *)
Definition ddpg_networks : DDPG.Networks :=
  {| DDPG.optimizer := nat;
     DDPG.actor_unit := fun _ s i => default 0%Q (s !! i);
     DDPG.actor_train_fn := fun m _ _ => Model (get_weights m) (S (slots m));
     DDPG.critic_forward := fun _ _ a => foldr Qplus 0%Q a;
     DDPG.critic_train_on_batch :=
       fun m _ _ y => Model (y :: drop 1 (get_weights m)) (S (slots m));
     DDPG.critic_get_action_gradients := fun _ _ actions => actions |}.

Definition ddpg_built : @DDPG.networks ddpg_networks :=
  @DDPG.Build_networks ddpg_networks
    (Model [[1; 2]; [3]]%Q 0%nat) (Model [[0; 0]; [0]]%Q 0%nat)
    (Model [[4; 5]; [6]]%Q 0%nat) (Model [[0; 0]; [0]]%Q 0%nat).

(** The DDPG agent that [__init__] builds on the task. *)
Definition ddpg_agent : @DDPG.Agent ddpg_networks :=
  {| DDPG.task := task;
     DDPG.state_size := 3;
     DDPG.state_range := replicate 7 (150 - -150)%Q;
     DDPG.action_size := 3;
     DDPG.action_range := replicate 3 (25 - -25)%Q;
     DDPG.action_low := replicate 3 (-25)%Q;
     DDPG.action_high := replicate 3 25%Q;
     DDPG.buffer_size := 100000;
     DDPG.batch_size := 64;
     DDPG.gamma := 0.0;
     DDPG.tau := 0.001;
     DDPG.nets :=
       @DDPG.Build_networks ddpg_networks
         (Model [[1; 2]; [3]]%Q 0%nat) (Model [[1; 2]; [3]]%Q 0%nat)
         (Model [[4; 5]; [6]]%Q 0%nat) (Model [[4; 5]; [6]]%Q 0%nat);
     DDPG.noise :=
       {| DDPG.ou_size := 3; DDPG.ou_mu := [0; 0; 0]%Q;
          DDPG.ou_theta := 0.15; DDPG.ou_sigma := 0.3;
          DDPG.ou_state := [1 * 0; 1 * 0; 1 * 0]%Q |};
     DDPG.memory := DDPG.ReplayBuffer_init 100000;
     DDPG.vars := {| last_state := None; last_action := None;
                     total_reward := 0; count := 0 |};
     DDPG.episode_num := 1;
     DDPG.random := generator;
     DDPG.trace := [DDPG.PrintSavingStats] |}.

(** The agent with another rate of the soft update. *)
Definition ddpg_agent_with_tau (t : Q) : @DDPG.Agent ddpg_networks :=
  let a := ddpg_agent in
  DDPG.Build_Agent (DDPG.task a) (DDPG.state_size a) (DDPG.state_range a)
    (DDPG.action_size a) (DDPG.action_range a) (DDPG.action_low a)
    (DDPG.action_high a) (DDPG.buffer_size a) (DDPG.batch_size a)
    (DDPG.gamma a) t (DDPG.nets a) (DDPG.noise a) (DDPG.memory a)
    (DDPG.vars a) (DDPG.episode_num a) (DDPG.random a) (DDPG.trace a).

Definition experience (x : Z) (d : bool) : DDPG.Experience :=
  {| DDPG.state := [inject_Z x; 0; 0]%Q;
     DDPG.action := [1; 0; 0]%Q;
     DDPG.reward := inject_Z x;
     DDPG.next_state := [inject_Z (x + 1); 0; 0]%Q;
     DDPG.done := d |}.

(** Networks for the DQN agent: unit [i] of the network answers [i] more than
    the first weight, and a fit stores its target vector as the weights. *)
Definition dqn_network : DQN.Network :=
  {| DQN.optimizer := nat;
     DQN.q_unit :=
       fun w _ i =>
         (default 0 (head (default [] (head w))) + inject_Z (Z.of_nat i))%Q;
     DQN.fit := fun m _ y => Model [y] (S (slots m)) |}.

Definition dqn_built : model (@DQN.optimizer dqn_network) :=
  @Model nat [[0; 0]]%Q 0.

Definition dqn_transition (x : Z) (i : nat) (d : bool) : DQN.transition :=
  ([inject_Z x; 0; 0]%Q, i, inject_Z x, [inject_Z (x + 1); 0; 0]%Q, d).

End Example.
(** * Properties *)

(** ** Exceptions and containers *)

Lemma bind_Ok_inv {A B} (c : result A) (k : A -> result B) b :
  bind c k = Ok b -> exists a, c = Ok a /\ k a = Ok b.
Proof. destruct c as [a|e|]; simpl; [eauto|discriminate|discriminate]. Qed.

Lemma bind_Ok_with {A B} (c : result A) (b b' : B) y :
  (x <- c ;; Ok (x, b)) = Ok (y, b') -> c = Ok y /\ b = b'.
Proof.
  destruct c; simpl; [intros [= -> ->]|discriminate|discriminate]; done.
Qed.

Lemma bind_Raise_inv {A B} (c : result A) (k : A -> result B) e :
  bind c k = Raise e -> c = Raise e \/ exists a, c = Ok a /\ k a = Raise e.
Proof.
  destruct c as [a|e'|]; simpl; [eauto| |discriminate].
  intros [= ->]. by left.
Qed.

Lemma bind_Unfinished_inv {A B} (c : result A) (k : A -> result B) :
  bind c k = Unfinished ->
  c = Unfinished \/ exists a, c = Ok a /\ k a = Unfinished.
Proof. destruct c as [a|e'|]; simpl; [eauto|discriminate|by left]. Qed.

Lemma index_Ok {A} (l : list A) i x : index l i = Ok x <-> l !! i = Some x.
Proof. unfold index. destruct (l !! i); split; congruence. Qed.

Lemma index_not_Unfinished {A} (l : list A) i : index l i <> Unfinished.
Proof. unfold index. by destruct (l !! i). Qed.

Lemma index_lt {A} (l : list A) i :
  i < length l -> exists x, index l i = Ok x /\ l !! i = Some x.
Proof.
  intros H. destruct (lookup_lt_is_Some_2 l i H) as [x Hx].
  exists x. split; [by apply index_Ok|done].
Qed.

Lemma setitem_Ok {A} (l : list A) i x :
  i < length l -> setitem l i x = Ok (<[i := x]> l).
Proof. intros H. unfold setitem. case_decide; [done|lia]. Qed.

Lemma setitem_inv {A} (l l' : list A) i x :
  setitem l i x = Ok l' -> i < length l /\ l' = <[i := x]> l.
Proof. unfold setitem. case_decide; [|discriminate]. by intros [= <-]. Qed.

(** *** Broadcasting and rows *)

Lemma broadcast_same_length f (x y : vec) :
  length x = length y -> broadcast f x y = Ok (zip_with f x y).
Proof.
  intros H. unfold broadcast, broadcast_with.
  rewrite decide_True by (by left). by rewrite decide_True.
Qed.

Lemma broadcast_Ok_iff f (x y : vec) :
  (exists z, broadcast f x y = Ok z) <->
  length x = length y \/ length x = 1 \/ length y = 1.
Proof.
  unfold broadcast. case_decide as H; split; try done; [eauto|].
  by intros [z ?].
Qed.

Lemma broadcast_outcome f (x y : vec) :
  (exists z, broadcast f x y = Ok z) \/ broadcast f x y = Raise ValueError.
Proof. unfold broadcast. case_decide; eauto. Qed.

Lemma broadcast_ValueError_iff f (x y : vec) :
  broadcast f x y = Raise ValueError <->
  length x <> length y /\ length x <> 1 /\ length y <> 1.
Proof.
  unfold broadcast. case_decide as H; split; try done.
  - intros (? & ? & ?). destruct H as [?|[?|?]]; done.
  - intros _. split; [|split]; intros ?; apply H; auto.
Qed.

Lemma length_broadcast f (x y z : vec) :
  broadcast f x y = Ok z ->
  length z = if decide (length x = 1) then length y else length x.
Proof.
  unfold broadcast, broadcast_with. case_decide as H; [|discriminate].
  intros [= <-]. case_decide as He.
  - rewrite length_zip_with. case_decide; lia.
  - destruct x as [|c [|c' x]], y as [|d [|d' y]]; simpl in *;
      rewrite ?length_fmap; simpl; try done; destruct H as [?|[?|?]]; lia.
Qed.

Lemma reshape_rows_one (x : vec) n :
  n <> 0 -> length x = n -> reshape_rows x n = Ok [x].
Proof.
  intros Hn Hx. unfold reshape_rows.
  rewrite decide_True by (by rewrite Hx, Nat.Div0.mod_same).
  rewrite Hx, Nat.div_same by done. simpl.
  by rewrite drop_0, <- Hx, firstn_all.
Qed.

Lemma reshape_rows_outcome (x : vec) n :
  (exists rows, reshape_rows x n = Ok rows) \/
  reshape_rows x n = Raise ValueError.
Proof. unfold reshape_rows. case_decide; eauto. Qed.

Lemma reshape_rows_Ok_iff (x : vec) n :
  (exists rows, reshape_rows x n = Ok rows) <->
  n <> 0 /\ length x mod n = 0.
Proof.
  unfold reshape_rows. case_decide as H; split; try done; [eauto|].
  by intros [z ?].
Qed.

Lemma add_rows_same_length (rows : list vec) w (x : vec) :
  w = length x -> Forall (fun row => length row = w) rows ->
  add_rows rows w x = Ok ((fun row => zip_with Qplus row x) <$> rows).
Proof.
  intros Hw Hrows. unfold add_rows. rewrite decide_True by (by left).
  f_equal. apply Forall_fmap_ext. eapply Forall_impl; [exact Hrows|].
  intros row Hrow. unfold broadcast_with. by rewrite decide_True by congruence.
Qed.

Lemma add_rows_outcome (rows : list vec) w (x : vec) :
  (exists r, add_rows rows w x = Ok r /\ length r = length rows) \/
  add_rows rows w x = Raise ValueError.
Proof.
  unfold add_rows. case_decide; [left|by right].
  eexists. split; [done|]. by rewrite length_fmap.
Qed.

Lemma existsb_of_forallb {A} (p : A -> bool) (l : list A) :
  0 < length l -> forallb p l = true -> existsb p l = true.
Proof.
  destruct l as [|x l]; simpl; [lia|]. intros _ H.
  apply andb_true_iff in H as [-> _]. done.
Qed.

Lemma Forall_subseteq {A} (P : A -> Prop) (l k : list A) :
  l ⊆ k -> Forall P k -> Forall P l.
Proof. rewrite !Forall_forall. intros Hs Hk x Hx. by apply Hk, Hs. Qed.

Lemma items_append_subseteq {A} (d : deque A) (x : A) :
  items (append d x) ⊆ items d ++ [x].
Proof.
  unfold append; simpl. case_decide; [|done]. apply subseteq_drop.
Qed.


(** ** The deque keeps the last [maxlen] items, in order *)

Section Deque_facts.
Context {A : Type}.
Implicit Types (d : deque A) (x : A) (xs : list A).

Lemma maxlen_append d x : maxlen (append d x) = maxlen d.
Proof. reflexivity. Qed.

Lemma len_append d x :
  len d <= maxlen d -> len (append d x) <= maxlen d.
Proof.
  unfold len, append; simpl. intros H.
  case_decide as Hlt; rewrite ?length_drop, length_app in *; simpl in *; lia.
Qed.

Lemma items_append d x :
  len d <= maxlen d ->
  items (append d x) =
    drop (length (items d ++ [x]) - maxlen d) (items d ++ [x]).
Proof.
  unfold len, append; simpl. intros H. rewrite length_app; simpl.
  case_decide as Hlt.
  - replace (length (items d) + 1 - maxlen d) with 1 by lia. reflexivity.
  - replace (length (items d) + 1 - maxlen d) with 0 by lia. reflexivity.
Qed.

Lemma len_append_le d x : len (append d x) <= len d + 1.
Proof.
  unfold len, append. simpl. case_decide.
  - rewrite length_drop, length_app. simpl. lia.
  - rewrite length_app. simpl. lia.
Qed.

Lemma maxlen_foldl_append xs d : maxlen (foldl append d xs) = maxlen d.
Proof.
  revert d. induction xs as [|x xs IH]; intros d; simpl; [done|].
  by rewrite IH.
Qed.

Lemma items_foldl_append xs d :
  len d <= maxlen d ->
  items (foldl append d xs) =
    drop (length (items d ++ xs) - maxlen d) (items d ++ xs).
Proof.
  revert d. induction xs as [|x xs IH]; intros d H; simpl.
  - rewrite app_nil_r. unfold len in H.
    replace (length (items d) - maxlen d) with 0 by lia. reflexivity.
  - rewrite IH by (rewrite maxlen_append; by apply len_append).
    rewrite maxlen_append, items_append by done.
    replace (items d ++ x :: xs) with ((items d ++ [x]) ++ xs)
      by (by rewrite <- app_assoc).
    set (l := items d ++ [x]).
    assert (Hl : length l - maxlen d <= length l) by lia.
    rewrite <- (drop_app_le l xs _ Hl), drop_drop.
    f_equal. unfold len in H. subst l.
    repeat (rewrite ?length_app, ?length_drop); simpl. lia.
Qed.
End Deque_facts.


(** ** The selection loop of [random.sample] *)

Section Select.
Context {A : Type}.
Implicit Types (pool : list A) (js : list nat).

(** One round of the selection loop keeps the non-selected items. *)
Lemma select_round_perm pool m j x y :
  m <= length pool -> j < m ->
  pool !! j = Some x -> pool !! (m - 1) = Some y ->
  take m pool ≡ₚ x :: take (m - 1) (<[j := y]> pool).
Proof.
  intros Hm Hj Hx Hy.
  assert (Htake : take m pool = take (m - 1) pool ++ [y]).
  { replace m with (S (m - 1)) at 1 by lia. by apply take_S_r. }
  rewrite Htake.
  destruct (decide (j = m - 1)) as [->|Hne].
  - assert (x = y) as -> by congruence.
    rewrite list_insert_id by done.
    by rewrite Permutation_app_comm.
  - rewrite take_insert_lt by lia.
    assert (Hx' : take (m - 1) pool !! j = Some x).
    { rewrite lookup_take_lt by lia. done. }
    rewrite <- (take_drop_middle _ _ _ Hx') at 1.
    rewrite insert_take_drop by (rewrite length_take; lia).
    rewrite <- app_assoc. simpl.
    rewrite <- Permutation_middle.
    apply Permutation_skip. apply Permutation_app_head.
    rewrite (Permutation_app_comm _ [y]). done.
Qed.

Lemma select_length pool m js xs :
  select pool m js = Ok xs -> length xs = length js.
Proof.
  revert pool m xs. induction js as [|j js IH]; intros pool m xs; simpl.
  - by intros [= <-].
  - intros H.
    apply bind_Ok_inv in H as (x & _ & H).
    apply bind_Ok_inv in H as (y & _ & H).
    apply bind_Ok_inv in H as (xs' & Hrec & H).
    injection H as <-. simpl. f_equal. eauto.
Qed.

(** With valid draws the loop never fails. *)
Lemma select_Ok pool m js :
  m <= length pool -> length js <= m -> valid_draws m js ->
  exists xs, select pool m js = Ok xs.
Proof.
  revert pool m. induction js as [|j js IH]; intros pool m Hm Hk Hv; simpl in *.
  - eauto.
  - destruct Hv as [Hj Hv].
    destruct (index_lt pool j) as (x & -> & Hx); [lia|].
    destruct (index_lt pool (m - 1)) as (y & -> & Hy); [lia|]. simpl.
    destruct (IH (<[j := y]> pool) (m - 1)) as (xs & ->);
      [rewrite length_insert; lia|lia|done|].
    simpl. eauto.
Qed.

(** What the loop selects are non-selected items, each once. *)
Lemma select_perm pool m js xs :
  m <= length pool -> valid_draws m js -> select pool m js = Ok xs ->
  exists rest, take m pool ≡ₚ xs ++ rest.
Proof.
  revert pool m xs. induction js as [|j js IH]; intros pool m xs Hm Hv; simpl.
  - intros [= <-]. by exists (take m pool).
  - intros H. destruct Hv as [Hj Hv].
    apply bind_Ok_inv in H as (x & Hx & H). apply index_Ok in Hx.
    apply bind_Ok_inv in H as (y & Hy & H). apply index_Ok in Hy.
    apply bind_Ok_inv in H as (xs' & Hrec & H).
    injection H as <-.
    apply IH in Hrec as [rest Hrest]; [|rewrite length_insert; lia|done].
    exists rest. rewrite (select_round_perm pool m j x y) by (done || lia).
    simpl. by rewrite Hrest.
Qed.

(** Different draws select different items. *)
Lemma select_inj pool m js js' xs :
  m <= length pool -> NoDup (take m pool) ->
  valid_draws m js -> valid_draws m js' ->
  select pool m js = Ok xs -> select pool m js' = Ok xs -> js = js'.
Proof.
  revert pool m js' xs.
  induction js as [|j js IH]; intros pool m js' xs Hm Hnd Hv Hv'; simpl.
  - intros [= <-] H. destruct js' as [|j' js']; [done|]. simpl in H.
    apply bind_Ok_inv in H as (x & _ & H).
    apply bind_Ok_inv in H as (y & _ & H).
    apply bind_Ok_inv in H as (xs' & _ & H). discriminate.
  - intros H H'. destruct Hv as [Hj Hv].
    apply bind_Ok_inv in H as (x & Hx & H). apply index_Ok in Hx.
    apply bind_Ok_inv in H as (y & Hy & H). apply index_Ok in Hy.
    apply bind_Ok_inv in H as (xs1 & Hrec & H).
    injection H as <-.
    destruct js' as [|j' js']; [discriminate|]. simpl in H'.
    destruct Hv' as [Hj' Hv'].
    apply bind_Ok_inv in H' as (x' & Hx' & H'). apply index_Ok in Hx'.
    apply bind_Ok_inv in H' as (y' & Hy' & H'). apply index_Ok in Hy'.
    apply bind_Ok_inv in H' as (xs2 & Hrec' & H').
    injection H' as -> ->.
    assert (y' = y) as -> by congruence.
    assert (j' = j) as ->.
    { eapply NoDup_lookup; [exact Hnd| |];
        rewrite lookup_take_lt by done; eassumption. }
    f_equal. eapply (IH (<[j := y]> pool) (m - 1)); try eassumption.
    + rewrite length_insert; lia.
    + pose proof (select_round_perm pool m j x y Hm Hj Hx Hy) as Hp.
      rewrite Hp in Hnd. by apply NoDup_cons_1_2 in Hnd.
Qed.

(** Every arrangement of distinct non-selected items is selected by some
    draws. *)
Lemma select_surj pool m xs :
  m <= length pool -> NoDup (take m pool) ->
  NoDup xs -> xs ⊆ take m pool ->
  exists js, valid_draws m js /\ select pool m js = Ok xs.
Proof.
  revert pool m. induction xs as [|x xs IH]; intros pool m Hm Hnd Hxs Hsub.
  - exists []. simpl. eauto.
  - apply NoDup_cons in Hxs as [Hx Hxs].
    assert (Hin : x ∈ take m pool) by (apply Hsub; left).
    apply list_elem_of_lookup in Hin as [j Hj].
    assert (Hjm : j < m).
    { apply lookup_lt_Some in Hj. rewrite length_take in Hj. lia. }
    rewrite lookup_take_lt in Hj by done.
    destruct (index_lt pool (m - 1)) as (y & Hiy & Hy); [lia|].
    pose proof (select_round_perm pool m j x y Hm Hjm Hj Hy) as Hp.
    destruct (IH (<[j := y]> pool) (m - 1)) as (js & Hv & Hsel).
    + rewrite length_insert; lia.
    + rewrite Hp in Hnd. by apply NoDup_cons_1_2 in Hnd.
    + done.
    + intros z Hz.
      assert (Hz' : z ∈ take m pool) by (apply Hsub; by right).
      rewrite Hp in Hz'. apply elem_of_cons in Hz' as [->|Hz']; [done|done].
    + exists (j :: js). simpl. split; [done|].
      apply index_Ok in Hj. rewrite Hj, Hiy. simpl. rewrite Hsel. done.
Qed.

End Select.

Lemma randbelow_lt n g : 0 < n -> (randbelow n g).1 < n.
Proof.
  intros Hn. unfold randbelow; simpl. case_decide; [lia|].
  apply Nat.mod_upper_bound. lia.
Qed.

Lemma randbelow_rng n g : (randbelow n g).2 = after_ints 1 g.
Proof. unfold randbelow, after_ints; simpl. f_equal. lia. Qed.

Lemma after_ints_0 g : after_ints 0 g = g.
Proof. destruct g. unfold after_ints; simpl. f_equal. lia. Qed.

Lemma after_ints_S k g : after_ints k (after_ints 1 g) = after_ints (S k) g.
Proof. unfold after_ints; simpl. f_equal. lia. Qed.

Lemma after_ints_add j k g :
  after_ints k (after_ints j g) = after_ints (j + k) g.
Proof. unfold after_ints; simpl. f_equal. lia. Qed.

Lemma valid_draws_draws m k g : k <= m -> valid_draws m (draws m k g).
Proof.
  revert m g. induction k as [|k IH]; intros m g Hk; simpl; [done|].
  split; [apply (randbelow_lt m g); lia|]. apply IH. lia.
Qed.

Lemma length_draws m k g : length (draws m k g) = k.
Proof.
  revert m g. induction k as [|k IH]; intros; simpl; [done|]. by rewrite IH.
Qed.

Lemma sample_loop_select {A} (pool : list A) m k g :
  sample_loop pool m k g =
    (xs <- select pool m (draws m k g) ;; Ok (xs, after_ints k g)).
Proof.
  revert pool m g. induction k as [|k IH]; intros pool m g.
  - simpl. by rewrite after_ints_0.
  - cbn [sample_loop draws].
    pose proof (randbelow_rng m g) as Hg.
    destruct (randbelow m g) as [j g1]; simpl in Hg. subst g1.
    cbn [select].
    destruct (index pool j) as [x|e|]; simpl; [|done|done].
    destruct (index pool (m - 1)) as [y|e|]; simpl; [|done|done].
    rewrite IH.
    destruct (select _ _ _) as [xs|e|]; simpl; [|done|done].
    by rewrite after_ints_S.
Qed.

(** The loop treats related pools alike. *)
Lemma select_Forall2 {A B} (R : A -> B -> Prop) pool1 pool2 m js xs1 :
  Forall2 R pool1 pool2 -> select pool1 m js = Ok xs1 ->
  exists xs2, select pool2 m js = Ok xs2 /\ Forall2 R xs1 xs2.
Proof.
  revert pool1 pool2 m xs1.
  induction js as [|j js IH]; intros pool1 pool2 m xs1 HR; simpl.
  - intros [= <-]. eauto.
  - intros H.
    apply bind_Ok_inv in H as (x & Hx & H). apply index_Ok in Hx.
    apply bind_Ok_inv in H as (y & Hy & H). apply index_Ok in Hy.
    apply bind_Ok_inv in H as (xs' & Hrec & H).
    injection H as <-.
    destruct (Forall2_lookup_l _ _ _ _ _ HR Hx) as (x2 & Hx2 & Rx).
    destruct (Forall2_lookup_l _ _ _ _ _ HR Hy) as (y2 & Hy2 & Ry).
    apply index_Ok in Hx2, Hy2. rewrite Hx2, Hy2. simpl.
    destruct (IH (<[j := y]> pool1) (<[j := y2]> pool2) (m - 1) xs')
      as (xs2 & -> & HR'); [by apply Forall2_insert|done|].
    simpl. eauto.
Qed.

Lemma Forall2_seq_lookup {A} (es : list A) :
  Forall2 (fun p x => es !! p = Some x) (seq 0 (length es)) es.
Proof.
  apply Forall2_same_length_lookup_2; [by rewrite length_seq|].
  intros i p x Hp Hx. apply lookup_seq in Hp as [-> _]. done.
Qed.

(** ** The loop of [random.sample] on a large population *)

Lemma length_next_draws n d g : length (next_draws n d g) = d.
Proof. unfold next_draws. by rewrite length_fmap, length_seq. Qed.

Lemma next_draws_0 n g : next_draws n 0 g = [].
Proof. reflexivity. Qed.

Lemma next_draws_S n d g :
  next_draws n (S d) g = (randbelow n g).1 :: next_draws n d (after_ints 1 g).
Proof.
  unfold next_draws. cbn [seq fmap list_fmap]. f_equal.
  - by rewrite after_ints_0.
  - rewrite <- fmap_S_seq, <- list_fmap_compose. apply list_fmap_ext.
    intros _ i _. unfold compose. rewrite after_ints_add.
    by replace (1 + i) with (S i) by lia.
Qed.

Lemma next_draws_app n d1 d2 g :
  next_draws n (d1 + d2) g =
    next_draws n d1 g ++ next_draws n d2 (after_ints d1 g).
Proof.
  revert g. induction d1 as [|d1 IH]; intros g.
  - simpl. by rewrite after_ints_0.
  - cbn [Nat.add]. rewrite !next_draws_S, IH, after_ints_add. done.
Qed.

Lemma next_draws_lt n d g :
  0 < n -> Forall (fun j => j < n) (next_draws n d g).
Proof.
  intros Hn. unfold next_draws. apply Forall_fmap, Forall_forall.
  intros i _. by apply randbelow_lt.
Qed.

Lemma next_draws_last_lt n d g js j :
  0 < n -> next_draws n d g = js ++ [j] -> j < n.
Proof.
  intros Hn Hd. pose proof (next_draws_lt n d g Hn) as Hall.
  rewrite Hd, Forall_app, Forall_singleton in Hall. by destruct Hall.
Qed.

Lemma kept_rejected sel js1 js2 :
  Forall (fun j => j ∈ sel) js1 -> kept sel (js1 ++ js2) = kept sel js2.
Proof.
  induction 1 as [|j js1 Hj _ IH]; [done|]. simpl. by rewrite decide_True.
Qed.

Lemma kept_fresh sel js :
  NoDup (kept sel js) /\ Forall (fun j => j ∉ sel) (kept sel js).
Proof.
  revert sel. induction js as [|j js IH]; intros sel; simpl.
  - split; [apply NoDup_nil_2|done].
  - case_decide as Hj; [apply IH|].
    destruct (IH (j :: sel)) as [Hnd Hall]. split.
    + apply NoDup_cons. split; [|done].
      intros Hin. rewrite Forall_forall in Hall.
      apply (Hall j Hin). by left.
    + constructor; [done|]. eapply Forall_impl; [exact Hall|].
      intros i Hi Hin. apply Hi. by right.
Qed.

Lemma kept_subseteq sel js : kept sel js ⊆ js.
Proof.
  revert sel. induction js as [|j js IH]; intros sel; simpl; [done|].
  case_decide.
  - intros i Hi. right. by apply (IH sel).
  - intros i Hi. apply elem_of_cons in Hi as [->|Hi]; [by left|].
    right. by apply (IH (j :: sel)).
Qed.

Lemma kept_cons_inv sel js j ps :
  kept sel js = j :: ps ->
  exists js1 js2,
    js = js1 ++ j :: js2 /\ Forall (fun i => i ∈ sel) js1 /\ (j ∉ sel) /\
    ps = kept (j :: sel) js2.
Proof.
  induction js as [|i js IH]; simpl; [done|]. case_decide as Hi.
  - intros H. destruct (IH H) as (js1 & js2 & -> & Hall & Hj & ->).
    exists (i :: js1), js2. split; [done|]. split; [by constructor|done].
  - intros [= -> <-]. exists [], js. by repeat split.
Qed.

Lemma kept_distinct sel js :
  NoDup js -> Forall (fun j => j ∉ sel) js -> kept sel js = js.
Proof.
  revert sel. induction js as [|j js IH]; intros sel Hnd Hall; simpl; [done|].
  apply NoDup_cons in Hnd as [Hj Hnd]. apply Forall_cons in Hall as [Hjs Hall].
  rewrite decide_False by done. f_equal. apply IH; [done|].
  rewrite Forall_forall in Hall |- *. intros i Hi Hin.
  apply elem_of_cons in Hin as [->|Hin]; [done|by apply (Hall i)].
Qed.

Lemma kept_fmap_inj (f : nat -> nat) sel js :
  Inj (=) (=) f -> kept (f <$> sel) (f <$> js) = f <$> kept sel js.
Proof.
  intros Hf. revert sel. induction js as [|j js IH]; intros sel; [done|].
  cbn [kept fmap list_fmap].
  destruct (decide (j ∈ sel)) as [Hj|Hj].
  - rewrite decide_True by (by apply list_elem_of_fmap_2). apply IH.
  - rewrite decide_False.
    + cbn [fmap list_fmap]. f_equal. apply (IH (j :: sel)).
    + intros Hin. apply Hj. by apply (list_elem_of_fmap_inj_2 f).
Qed.
Lemma fresh_not_Raise fuel n sel g e : fresh fuel n sel g <> Raise e.
Proof.
  revert g. induction fuel as [|fuel IH]; intros g; cbn [fresh]; [done|].
  destruct (randbelow n g) as [j g1]. case_decide; [apply IH|done].
Qed.

(** The inner loop returns the first draw that is not selected. *)
Lemma fresh_Ok_inv fuel n sel g j g1 :
  fresh fuel n sel g = Ok (j, g1) ->
  exists r,
    r < fuel /\ g1 = after_ints (S r) g /\
    next_draws n (S r) g = next_draws n r g ++ [j] /\
    Forall (fun i => i ∈ sel) (next_draws n r g) /\ j ∉ sel.
Proof.
  revert g. induction fuel as [|fuel IH]; intros g; cbn [fresh]; [done|].
  pose proof (randbelow_rng n g) as Hg.
  destruct (randbelow n g) as [i g2] eqn:Hr. cbn [snd] in Hg. subst g2.
  case_decide as Hi.
  - intros H. destruct (IH _ H) as (r & Hlt & -> & Hd & Hall & Hj).
    exists (S r). split; [lia|]. split; [by rewrite after_ints_S|].
    rewrite (next_draws_S n (S r) g), Hd, (next_draws_S n r g), Hr.
    cbn [fst app]. split; [done|]. split; [by constructor|done].
  - intros [= <- <-]. exists 0. split; [lia|]. split; [done|].
    rewrite next_draws_S, Hr, !next_draws_0. cbn [fst]. by repeat split.
Qed.

Lemma fresh_Ok fuel n sel g r j :
  r < fuel -> Forall (fun i => i ∈ sel) (next_draws n r g) ->
  next_draws n (S r) g = next_draws n r g ++ [j] -> j ∉ sel ->
  fresh fuel n sel g = Ok (j, after_ints (S r) g).
Proof.
  revert g r. induction fuel as [|fuel IH]; intros g r Hlt Hall Hd Hj; [lia|].
  cbn [fresh]. pose proof (randbelow_rng n g) as Hg.
  destruct (randbelow n g) as [i g2] eqn:Hr. cbn [snd] in Hg. subst g2.
  destruct r as [|r].
  - rewrite next_draws_S, Hr, !next_draws_0 in Hd. cbn [fst app] in Hd.
    assert (i = j) as -> by congruence.
    by rewrite decide_False.
  - rewrite (next_draws_S n r), Hr in Hall. cbn [fst] in Hall.
    apply Forall_cons in Hall as [Hi Hall]. rewrite decide_True by done.
    rewrite (IH _ r); [by rewrite after_ints_S|lia|done| |done].
    rewrite (next_draws_S n (S r) g), (next_draws_S n r g), Hr in Hd.
    cbn [fst app] in Hd. congruence.
Qed.

Section Sample_set.
Context {A : Type}.
Implicit Types (es : list A).

Lemma sample_set_not_Raise es n k sel g e :
  0 < n -> n <= length es -> sample_set es n k sel g <> Raise e.
Proof.
  intros Hn Hes. revert sel g. induction k as [|k IH]; intros sel g; [done|].
  cbn [sample_set]. intros H.
  apply bind_Raise_inv in H as [H|([j g1] & Hf & H)];
    [by apply fresh_not_Raise in H|].
  apply fresh_Ok_inv in Hf as (r & _ & _ & Hd & _).
  assert (Hj : j < n) by (by eapply next_draws_last_lt).
  destruct (index_lt es j) as (x & Hx & _); [lia|]. rewrite Hx in H.
  simpl in H. apply bind_Raise_inv in H as [H|([xs g2] & _ & H)];
    [by apply IH in H|done].
Qed.

(** What the loop returns: the items at the draws it kept, in the order of
    the draws. *)
Lemma sample_set_inv es n k sel g xs g' :
  sample_set es n k sel g = Ok (xs, g') ->
  exists d,
    k <= d /\ g' = after_ints d g /\
    length (kept sel (next_draws n d g)) = k /\
    Forall2 (fun p x => es !! p = Some x) (kept sel (next_draws n d g)) xs.
Proof.
  revert sel g xs. induction k as [|k IH]; intros sel g xs.
  - intros [= <- <-]. exists 0. rewrite after_ints_0. by repeat split.
  - cbn [sample_set]. intros H.
    apply bind_Ok_inv in H as ([j g1] & Hf & H).
    apply bind_Ok_inv in H as (x & Hx & H). apply index_Ok in Hx.
    apply bind_Ok_inv in H as ([xs' g2] & Hrec & H). injection H as <- <-.
    apply fresh_Ok_inv in Hf as (r & _ & -> & Hd & Hall & Hj).
    apply IH in Hrec as (d & Hk & -> & Hlen & HR).
    exists (S r + d). split; [lia|]. split; [by rewrite after_ints_add|].
    rewrite next_draws_app, Hd, <- app_assoc, kept_rejected by done.
    simpl. rewrite decide_False by done. simpl.
    split; [by rewrite Hlen|by constructor].
Qed.

(** The loop returns when the generator makes [k] distinct draws within
    the patience of the model. *)
Lemma sample_set_Ok es n k sel g d :
  0 < n -> n <= length es ->
  k <= length (kept sel (next_draws n d g)) -> d <= patience g ->
  exists xs g', sample_set es n k sel g = Ok (xs, g').
Proof.
  intros Hn Hes. revert sel g d.
  induction k as [|k IH]; intros sel g d Hk Hp; [simpl; eauto|].
  destruct (kept sel (next_draws n d g)) as [|j ps] eqn:Hkept;
    [simpl in Hk; lia|].
  apply kept_cons_inv in Hkept as (js1 & js2 & Hjs & Hall & Hj & ->).
  set (r := length js1).
  assert (Hd : d = r + S (length js2)).
  { rewrite <- (length_next_draws n d g), Hjs, length_app. done. }
  assert (Hsplit : next_draws n r g = js1 /\
                   next_draws n (S (length js2)) (after_ints r g)
                   = j :: js2).
  { rewrite Hd, next_draws_app in Hjs.
    apply app_inj_1 in Hjs; [done|]. by rewrite length_next_draws. }
  destruct Hsplit as [H1 H2]. rewrite next_draws_S in H2.
  assert (Hhead : (randbelow n (after_ints r g)).1 = j) by congruence.
  assert (Htail : next_draws n (length js2) (after_ints (S r) g) = js2).
  { rewrite after_ints_add in H2. replace (r + 1) with (S r) in H2 by lia.
    congruence. }
  assert (Hj' : next_draws n (S r) g = next_draws n r g ++ [j]).
  { replace (S r) with (r + 1) by lia. rewrite next_draws_app. f_equal.
    by rewrite next_draws_S, next_draws_0, Hhead. }
  cbn [sample_set].
  rewrite (fresh_Ok _ n sel g r j); [|lia|by rewrite H1|done|done].
  simpl.
  assert (Hjn : j < n) by (by eapply next_draws_last_lt).
  destruct (index_lt es j) as (x & -> & _); [lia|]. simpl.
  destruct (IH (j :: sel) (after_ints (S r) g) (length js2))
    as (xs & g' & ->).
  - rewrite Htail. simpl in Hk. lia.
  - simpl. lia.
  - simpl. eauto.
Qed.

(** It does not return when the generator never makes [k] distinct
    draws. *)
Lemma sample_set_Unfinished es n k sel g :
  0 < n -> n <= length es ->
  (forall d, length (kept sel (next_draws n d g)) < k) ->
  sample_set es n k sel g = Unfinished.
Proof.
  intros Hn Hes Hnever.
  destruct (sample_set es n k sel g) as [[xs g']|e|] eqn:H; [| |done].
  - apply sample_set_inv in H as (d & _ & _ & Hlen & _).
    specialize (Hnever d). lia.
  - by apply sample_set_not_Raise in H.
Qed.

(** On distinct draws it selects the positions drawn, in order. *)
Lemma sample_set_distinct es n k sel g :
  0 < n -> n <= length es -> 0 < patience g ->
  NoDup (next_draws n k g) ->
  Forall (fun j => j ∉ sel) (next_draws n k g) ->
  exists xs,
    sample_set es n k sel g = Ok (xs, after_ints k g) /\
    Forall2 (fun p x => es !! p = Some x) (next_draws n k g) xs.
Proof.
  intros Hn Hes. revert sel g.
  induction k as [|k IH]; intros sel g Hp Hnd Hsel.
  - exists []. rewrite after_ints_0. split; [done|]. constructor.
  - rewrite next_draws_S in Hnd, Hsel |- *.
    apply NoDup_cons in Hnd as [Hj Hnd].
    apply Forall_cons in Hsel as [Hjs Hsel].
    set (j := (randbelow n g).1) in *.
    assert (Hjn : j < n) by (by apply randbelow_lt).
    cbn [sample_set].
    rewrite (fresh_Ok _ n sel g 0 j); [|lia|by rewrite next_draws_0| |done];
      [|by rewrite next_draws_S, !next_draws_0].
    cbn [bind].
    destruct (index_lt es j) as (x & Hx & Hlook); [lia|]. rewrite Hx.
    cbn [bind].
    destruct (IH (j :: sel) (after_ints 1 g)) as (xs & Hxs & HR);
      [done|done| |].
    { rewrite Forall_forall in Hsel |- *. intros i Hi Hin.
      apply elem_of_cons in Hin as [->|Hin]; [done|by apply (Hsel i)]. }
    rewrite Hxs. cbn [bind]. rewrite after_ints_S.
    exists (x :: xs). split; [done|]. by constructor.
Qed.

End Sample_set.

Section Sample.
Context {A : Type}.
Implicit Types (es : list A).

Lemma random_sample_too_few es k g :
  length es < k -> random_sample es k g = Raise ValueError.
Proof. intros H. unfold random_sample. case_decide; [lia|done]. Qed.

Lemma setsize_pos k : 21 <= setsize k.
Proof. unfold setsize. case_decide; lia. Qed.

(** On a small population. *)
Lemma random_sample_positions es k g :
  k <= length es -> length es <= setsize k ->
  exists ps xs,
    selected_positions (length es) (draws (length es) k g) = Ok ps /\
    random_sample es k g = Ok (xs, after_ints k g) /\
    length xs = k /\ NoDup ps /\
    Forall2 (fun p x => es !! p = Some x) ps xs.
Proof.
  intros Hk Hsmall. unfold random_sample, selected_positions.
  case_decide; [|lia]. case_decide; [|lia]. rewrite sample_loop_select.
  set (n := length es). set (js := draws n k g).
  assert (Hv : valid_draws n js) by (by apply valid_draws_draws).
  assert (Hlen : length js = k) by apply length_draws.
  destruct (select_Ok (seq 0 n) n js) as (ps & Hps);
    [by rewrite length_seq|lia|done|].
  destruct (select_Forall2 _ _ _ _ _ _ (Forall2_seq_lookup es) Hps)
    as (xs & Hxs & HR).
  exists ps, xs. rewrite Hxs. simpl. repeat split; try done.
  - apply select_length in Hxs. lia.
  - destruct (select_perm (seq 0 n) n js ps) as (rest & Hp);
      [by rewrite length_seq|done|done|].
    rewrite take_ge in Hp by (by rewrite length_seq).
    pose proof (NoDup_seq 0 n) as Hnd. rewrite Hp in Hnd.
    by apply NoDup_app in Hnd as [? _].
Qed.

(** On a large population. *)
Lemma random_sample_large es k g :
  k <= length es -> setsize k < length es ->
  random_sample es k g = sample_set es (length es) k [] g.
Proof.
  intros Hk Hlarge. unfold random_sample.
  case_decide; [|lia]. case_decide; [lia|done].
Qed.

(** On any population: the sample holds the items at [k] distinct
    positions, and the generator has made [k] draws or more. *)
Lemma random_sample_Ok_inv es k g xs g' :
  random_sample es k g = Ok (xs, g') ->
  k <= length es /\ length xs = k /\
  exists ps d,
    NoDup ps /\ Forall2 (fun p x => es !! p = Some x) ps xs /\
    k <= d /\ g' = after_ints d g.
Proof.
  intros H.
  destruct (decide (k <= length es)) as [Hk|Hk];
    [|rewrite random_sample_too_few in H by lia; discriminate].
  split; [done|].
  destruct (decide (length es <= setsize k)) as [Hs|Hs].
  - destruct (random_sample_positions es k g Hk Hs)
      as (ps & ys & _ & Hy & Hlen & Hnd & HR).
    rewrite Hy in H. injection H as <- <-. split; [done|].
    exists ps, k. by repeat split.
  - rewrite random_sample_large in H by lia.
    apply sample_set_inv in H as (d & Hd & -> & Hlen & HR).
    split; [by rewrite <- (Forall2_length _ _ _ HR)|].
    exists (kept [] (next_draws (length es) d g)), d.
    split; [apply kept_fresh|done].
Qed.

Lemma random_sample_not_Raise es k g e :
  k <= length es -> random_sample es k g <> Raise e.
Proof.
  intros Hk. destruct (decide (length es <= setsize k)) as [Hs|Hs].
  - destruct (random_sample_positions es k g Hk Hs)
      as (ps & ys & _ & -> & _). done.
  - rewrite random_sample_large by lia. apply sample_set_not_Raise; [|done].
    pose proof (setsize_pos k). lia.
Qed.

End Sample.

Lemma selected_positions_uniform n ps :
  NoDup ps -> Forall (fun p => p < n) ps ->
  exists js,
    valid_draws n js /\ selected_positions n js = Ok ps /\
    forall js', valid_draws n js' -> selected_positions n js' = Ok ps ->
                js' = js.
Proof.
  intros Hnd Hlt. unfold selected_positions.
  assert (Htake : take n (seq 0 n) = seq 0 n)
    by (rewrite take_ge; [done|by rewrite length_seq]).
  destruct (select_surj (seq 0 n) n ps) as (js & Hv & Hsel).
  - by rewrite length_seq.
  - rewrite Htake. apply NoDup_seq.
  - done.
  - rewrite Htake. intros p Hp. apply elem_of_seq.
    rewrite Forall_forall in Hlt. specialize (Hlt p Hp). lia.
  - exists js. repeat split; try done.
    intros js' Hv' Hsel'.
    eapply (select_inj (seq 0 n) n); try eassumption.
    + by rewrite length_seq.
    + rewrite Htake. apply NoDup_seq.
Qed.

Lemma random_sample_inv {A} (es : list A) k g xs g' :
  random_sample es k g = Ok (xs, g') ->
  k <= length es /\ length xs = k /\ xs ⊆ es.
Proof.
  intros H. apply random_sample_Ok_inv in H
    as (Hk & Hlen & ps & d & _ & HR & _).
  repeat split; try done.
  intros x Hx. apply list_elem_of_lookup in Hx as [i Hi].
  destruct (Forall2_lookup_r _ _ _ _ _ HR Hi) as (p & _ & Hp).
  by eapply list_elem_of_lookup_2.
Qed.


(** ** Vectors *)

Lemma length_vadd (x y : vec) : length (vadd x y) = length x `min` length y.
Proof. apply length_zip_with. Qed.
Lemma length_vsub (x y : vec) : length (vsub x y) = length x `min` length y.
Proof. apply length_zip_with. Qed.
Lemma length_vscale c (x : vec) : length (vscale c x) = length x.
Proof. apply length_fmap. Qed.

Lemma length_randn k g : length (randn k g).1 = k.
Proof. unfold randn; simpl. by rewrite length_fmap, length_seq. Qed.

Lemma argmax_from_lt v i best m :
  best < i -> argmax_from v i best m < i + length v.
Proof.
  revert i best m. induction v as [|y v IH]; intros i best m Hb; simpl.
  - lia.
  - destruct (Qle_bool y m).
    + specialize (IH (S i) best m). lia.
    + specialize (IH (S i) i y). lia.
Qed.

Lemma argmax_lt v i : argmax v = Ok i -> i < length v.
Proof.
  destruct v as [|x v]; simpl; [discriminate|]. intros [= <-].
  pose proof (argmax_from_lt v 1 0 x). lia.
Qed.

Lemma argmax_Ok v : 0 < length v -> exists i, argmax v = Ok i.
Proof. destruct v; simpl; [lia|eauto]. Qed.

Lemma amax_Ok v : 0 < length v -> exists m, amax v = Ok m.
Proof. destruct v; simpl; [lia|eauto]. Qed.


(** ** Episodes *)




(** ** The DDPG agent *)

Module DDPG_facts.
Import DDPG.

Section Agent_facts.
Context {N : Networks}.

Lemma OUNoise_sample_length n g :
  length (ou_mu n) = length (ou_state n) ->
  let '(s, n', _) := OUNoise_sample n g in
  length s = length (ou_state n) /\ ou_state n' = s /\ ou_mu n' = ou_mu n.
Proof.
  intros Hmu. unfold OUNoise_sample, OUNoise_dx.
  pose proof (length_randn (length (ou_state n)) g) as Hz.
  destruct (randn _ g) as [z g']; simpl in *.
  rewrite !length_vadd, !length_vscale, length_vsub. split; [lia|done].
Qed.

(** *** [act] *)

Lemma length_predict_actor a m s : length (predict_actor a m s) = action_size a.
Proof. unfold predict_actor. by rewrite length_fmap, length_seq. Qed.

Lemma ddpg_act_inv a s action a1 :
  act a s = Ok (action, a1) ->
  exists rows,
    reshape_rows s (state_size a) = Ok rows /\
    add_rows (predict_actor a (actor_local (nets a)) <$> rows) (action_size a)
      (OUNoise_sample (noise a) (random a)).1.1 = Ok action /\
    a1 = set_random (set_noise a (OUNoise_sample (noise a) (random a)).1.2)
           (OUNoise_sample (noise a) (random a)).2.
Proof.
  unfold act. intros H. apply bind_Ok_inv in H as (rows & Hrows & H).
  destruct (OUNoise_sample (noise a) (random a)) as [[x n] g].
  apply bind_Ok_inv in H as (noisy & Hadd & H).
  assert (noisy = action /\ set_random (set_noise a n) g = a1) as [<- <-]
    by (split; congruence).
  by exists rows.
Qed.

(** [act] returns, or raises [ValueError]. *)
Lemma act_outcome a s :
  (exists r, act a s = Ok r) \/ act a s = Raise ValueError.
Proof.
  unfold act.
  destruct (reshape_rows_outcome s (state_size a)) as [[rows ->]| ->];
    [|by right].
  cbn [bind]. destruct (OUNoise_sample (noise a) (random a)) as [[x n] g].
  destruct (add_rows_outcome
              (predict_actor a (actor_local (nets a)) <$> rows)
              (action_size a) x) as [(r & -> & _)| ->]; [|by right].
  left. simpl. eauto.
Qed.

(** On a state of three components, for an agent whose states, actions and
    noise have three components, the action is one row. *)
Lemma act_one_row a s :
  state_size a = 3 -> action_size a = 3 ->
  length (ou_mu (noise a)) = 3 -> length (ou_state (noise a)) = 3 ->
  length s = 3 ->
  act a s =
    Ok ([vadd (predict_actor a (actor_local (nets a)) s)
           (OUNoise_sample (noise a) (random a)).1.1],
        set_random (set_noise a (OUNoise_sample (noise a) (random a)).1.2)
          (OUNoise_sample (noise a) (random a)).2).
Proof.
  intros Hss Has Hmu Hst Hs. unfold act.
  rewrite reshape_rows_one by lia. cbn [bind].
  pose proof (OUNoise_sample_length (noise a) (random a)) as Hn.
  destruct (OUNoise_sample (noise a) (random a)) as [[x n] g].
  destruct Hn as (Hx & _); [congruence|].
  rewrite add_rows_same_length.
  - reflexivity.
  - cbn [fst]. congruence.
  - repeat constructor. apply length_predict_actor.
Qed.

(** *** The learning phase *)

Lemma ddpg_learn_if_enough_cases a a' :
  learn_if_enough a = Ok a' ->
  (batch_size a < ReplayBuffer_len (memory a) /\
   exists experiences g,
     ReplayBuffer_sample (memory a) (batch_size a) (random a)
       = Ok (experiences, g) /\
     a' = learn (set_random a g) experiences) \/
  (ReplayBuffer_len (memory a) <= batch_size a /\ a' = a).
Proof.
  unfold learn_if_enough. case_decide as Hlt.
  - intros H. apply bind_Ok_inv in H as ([es g] & Hs & H).
    injection H as <-. left. split; [done|]. by exists es, g.
  - intros [= <-]. right. split; [lia|done].
Qed.

Lemma ddpg_learn_if_enough_inv a a' :
  learn_if_enough a = Ok a' ->
  memory a' = memory a /\ vars a' = vars a /\ gamma a' = gamma a /\
  tau a' = tau a /\ batch_size a' = batch_size a /\ task a' = task a /\
  action_size a' = action_size a /\ noise a' = noise a /\
  episode_num a' = episode_num a /\
  exists evs,
    trace a' = trace a ++ evs /\
    (existsb is_training evs = true <->
     batch_size a < ReplayBuffer_len (memory a)).
Proof.
  unfold learn_if_enough. case_decide as Hlt.
  - intros H. apply bind_Ok_inv in H as ([es g] & _ & H).
    injection H as <-. repeat split; try done.
    eexists. split; [simpl; by rewrite <- app_assoc|]. simpl. done.
  - intros [= <-]. repeat split; try done.
    exists []. rewrite app_nil_r. split; [done|]. simpl. split; [done|lia].
Qed.

Lemma ddpg_learn_if_enough_state_size a a' :
  learn_if_enough a = Ok a' -> state_size a' = state_size a.
Proof.
  intros H. by apply ddpg_learn_if_enough_cases in H
    as [(_ & es & g & _ & ->)|(_ & ->)].
Qed.

(** The learning phase never raises; it returns when it does not learn, and
    when it samples from a memory of at most [setsize] experiences. *)
Lemma ddpg_learn_if_enough_not_Raise a e : learn_if_enough a <> Raise e.
Proof.
  unfold learn_if_enough, ReplayBuffer_sample, ReplayBuffer_len, len.
  case_decide as Hlt; [|done]. intros H.
  apply bind_Raise_inv in H as [H|([es g] & _ & H)]; [|done].
  apply random_sample_not_Raise in H; [done|lia].
Qed.

Lemma ddpg_learn_if_enough_outcome a :
  (exists a', learn_if_enough a = Ok a') \/
  (learn_if_enough a = Unfinished /\
   batch_size a < ReplayBuffer_len (memory a) /\
   setsize (batch_size a) < ReplayBuffer_len (memory a)).
Proof.
  unfold learn_if_enough, ReplayBuffer_sample, ReplayBuffer_len, len.
  case_decide as Hlt; [|eauto].
  destruct (decide (length (items (rb_memory (memory a)))
                    <= setsize (batch_size a))) as [Hs|Hs].
  - destruct (random_sample_positions (items (rb_memory (memory a)))
                (batch_size a) (random a)) as (ps & xs & _ & -> & _);
      [lia|lia|].
    left. simpl. eauto.
  - destruct (random_sample _ _ _) as [[xs g]|e|] eqn:Hsample.
    + left. simpl. eauto.
    + apply random_sample_not_Raise in Hsample; [done|lia].
    + right. split; [done|lia].
Qed.

Lemma ddpg_learn_if_enough_Ok a :
  ReplayBuffer_len (memory a) <= batch_size a \/
  ReplayBuffer_len (memory a) <= setsize (batch_size a) ->
  exists a', learn_if_enough a = Ok a'.
Proof.
  intros Hs. destruct (ddpg_learn_if_enough_outcome a) as [?|(_ & ? & ?)];
    [done|lia].
Qed.

(** *** [step] *)

(** The memory after the storing phase holds at most one experience more. *)
Lemma ddpg_stored_bound a o : ReplayBuffer_len (stored a o) <= memory_bound a.
Proof.
  unfold stored, memory_bound, ReplayBuffer_len, ReplayBuffer_add.
  destruct (last_state (vars a)), (last_action (vars a)); simpl; try lia.
  apply len_append_le.
Qed.

(** The phases of [step]: the action and the agent [a1] of [act], the agent
    [a2] after the storing phase, the agent [a3] after the learning
    phase. *)
Lemma ddpg_step_phases a o completed a' :
  step a o = Ok (completed, a') ->
  exists action a1 a2 a3,
    act a (preprocess_state (obs_state o)) = Ok (action, a1) /\
    a2 = after_storing a1 o /\
    learn_if_enough a2 = Ok a3 /\
    postprocess_action a3 action = Ok completed /\
    a' = step_end a3 o action.
Proof.
  unfold step. intros H.
  apply bind_Ok_inv in H as ([action a1] & Hact & H).
  pose proof (ddpg_act_inv _ _ _ _ Hact) as (rows & _ & _ & Ha1).
  apply bind_Ok_inv in H as (a3 & Hlearn & H).
  apply bind_Ok_with in H as [Hpost Hend].
  exists action, a1, (after_storing a1 o), a3.
  split; [done|]. split; [reflexivity|].
  split; [exact Hlearn|]. split; [|by rewrite <- Hend].
  revert Hpost. unfold postprocess_action.
  destruct (obs_done o); exact id.
Qed.

Lemma after_storing_inv a o action a1 :
  act a (preprocess_state (obs_state o)) = Ok (action, a1) ->
  memory (after_storing a1 o) = stored a o /\
  vars (after_storing a1 o) = vars a /\
  episode_num (after_storing a1 o) = episode_num a /\
  trace (after_storing a1 o) = trace a /\
  nets (after_storing a1 o) = nets a /\
  batch_size (after_storing a1 o) = batch_size a /\
  gamma (after_storing a1 o) = gamma a /\ tau (after_storing a1 o) = tau a /\
  task (after_storing a1 o) = task a /\
  action_size (after_storing a1 o) = action_size a /\
  state_size (after_storing a1 o) = state_size a /\
  noise (after_storing a1 o) = (OUNoise_sample (noise a) (random a)).1.2 /\
  random (after_storing a1 o) = (OUNoise_sample (noise a) (random a)).2.
Proof.
  intros Hact. apply ddpg_act_inv in Hact as (rows & _ & _ & ->).
  unfold after_storing, stored. cbn [vars set_random set_noise memory].
  destruct (last_state (vars a)), (last_action (vars a)); by repeat split.
Qed.

Lemma step_end_inv a3 o action :
  let a' := step_end a3 o action in
  memory a' = memory a3 /\ nets a' = nets a3 /\ noise a' = noise a3 /\
  batch_size a' = batch_size a3 /\ gamma a' = gamma a3 /\ tau a' = tau a3 /\
  task a' = task a3 /\ action_size a' = action_size a3 /\
  state_size a' = state_size a3 /\ random a' = random a3 /\
  last_state (vars a') =
    (if obs_done o then None else Some (preprocess_state (obs_state o))) /\
  last_action (vars a') =
    (if obs_done o then None else Some (concat action)) /\
  episode_num a' =
    (if obs_done o then episode_num a3 + 1 else episode_num a3) /\
  total_reward (vars a') =
    (if obs_done o then 0 else total_reward (vars a3) + obs_reward o)%Q /\
  trace a' =
    trace a3 ++
    (if obs_done o then
       [PrintScore (total_reward (vars a3) + obs_reward o);
        WriteStats (episode_num a3)
          (total_reward (vars a3) + obs_reward o)]
     else []).
Proof.
  cbv zeta. unfold step_end. destruct (obs_done o); cbn; repeat split.
  - by rewrite <- app_assoc.
  - by rewrite app_nil_r.
Qed.

Lemma ddpg_step_inv a o completed a' :
  step a o = Ok (completed, a') ->
  memory a' = stored a o /\
  gamma a' = gamma a /\ tau a' = tau a /\ batch_size a' = batch_size a /\
  task a' = task a /\ action_size a' = action_size a /\
  last_state (vars a') =
    (if obs_done o then None else Some (preprocess_state (obs_state o))) /\
  (obs_done o = true -> last_action (vars a') = None) /\
  (obs_done o = false -> is_Some (last_action (vars a'))) /\
  exists evs,
    trace a' = trace a ++ evs /\
    (existsb is_training evs = true <->
     batch_size a < ReplayBuffer_len (stored a o)).
Proof.
  intros H. apply ddpg_step_phases in H
    as (action & a1 & a2 & a3 & Hact & -> & Hlearn & _ & ->).
  apply (after_storing_inv a o) in Hact
    as (Hm2 & _ & _ & Htr2 & _ & Hb2 & Hg2 & Ht2 & Htask2 & Has2 & _).
  apply ddpg_learn_if_enough_inv in Hlearn
    as (Hm & Hv & Hg & Ht & Hb & Htask & Has & Hnoise & Hep & evs & Htr & Hev).
  pose proof (step_end_inv a3 o action)
    as (Hm5 & _ & _ & Hb5 & Hg5 & Ht5 & Htask5 & Has5 & _ & _ & Hls5 & Hla5
        & _ & _ & Htr5).
  rewrite Hm5, Hg5, Ht5, Hb5, Htask5, Has5, Hls5, Hla5, Htr5.
  rewrite Hm, Hg, Ht, Hb, Htask, Has, Htr, Hm2, Hg2, Ht2, Hb2, Htask2, Has2,
    Htr2. rewrite Hm2, Hb2 in Hev.
  do 7 (split; [done|]). split; [by intros ->|].
  split; [by intros ->|].
  eexists. split; [rewrite <- app_assoc; reflexivity|].
  rewrite existsb_app. destruct (obs_done o); simpl; by rewrite orb_false_r.
Qed.

Lemma ddpg_step_state_size a o completed a' :
  step a o = Ok (completed, a') -> state_size a' = state_size a.
Proof.
  intros H. apply ddpg_step_phases in H
    as (action & a1 & a2 & a3 & Hact & -> & Hlearn & _ & ->).
  apply (after_storing_inv a o) in Hact
    as (_ & _ & _ & _ & _ & _ & _ & _ & _ & _ & Hss2 & _).
  apply ddpg_learn_if_enough_state_size in Hlearn.
  pose proof (step_end_inv a3 o action)
    as (_ & _ & _ & _ & _ & _ & _ & _ & Hss5 & _). congruence.
Qed.

Lemma ddpg_postprocess_action_Ok a (action : vec) :
  3 <= action_space_shape (task a) -> length action = 3 ->
  postprocess_action a [action] =
    Ok (action ++ zeros (action_space_shape (task a) - 3)).
Proof.
  intros Hn Hl. unfold postprocess_action.
  case_decide as H; [done|]. lia.
Qed.

(** [step] raises nothing but [ValueError]. *)
Lemma ddpg_step_Raise a o e : step a o = Raise e -> e = ValueError.
Proof.
  unfold step. intros H.
  apply bind_Raise_inv in H as [H|([action a1] & _ & H)].
  { destruct (act_outcome a (preprocess_state (obs_state o)))
      as [[r Hr]|Hr]; congruence. }
  apply bind_Raise_inv in H as [H|(a3 & _ & H)];
    [by apply ddpg_learn_if_enough_not_Raise in H|].
  apply bind_Raise_inv in H as [H|(c & _ & H)]; [|done].
  unfold postprocess_action in H.
  destruct action as [|row [|row' action]]; try congruence.
  case_decide; [done|]. destruct row as [|x [|y row]]; congruence.
Qed.

(** A step of a well-formed agent on an observation of three components
    or more returns, unless the sampling of its learning phase does not
    end. *)
Lemma ddpg_step_outcome a o :
  well_formed a -> 3 <= length (obs_state o) ->
  (exists completed a', step a o = Ok (completed, a') /\ well_formed a') \/
  (step a o = Unfinished /\
   batch_size a < ReplayBuffer_len (stored a o) /\
   setsize (batch_size a) < ReplayBuffer_len (stored a o)).
Proof.
  intros (Hshape & Hss & Hsize & Hst & Hmu) Hobs.
  assert (Hs : length (preprocess_state (obs_state o)) = 3)
    by (unfold preprocess_state; rewrite length_take; lia).
  pose proof (act_one_row a _ Hss Hsize Hmu Hst Hs) as Hact.
  pose proof (after_storing_inv a o _ _ Hact)
    as (Hm2 & _ & _ & _ & _ & Hb2 & _ & _ & Htask2 & Has2 & Hss2 & Hn2 & _).
  pose proof (OUNoise_sample_length (noise a) (random a)) as Hn.
  destruct (OUNoise_sample (noise a) (random a)) as [[x n] g].
  destruct Hn as (Hx & Hn & Hmu'); [congruence|]. cbn [fst snd] in *.
  set (a1 := set_random (set_noise a n) g) in *.
  destruct (ddpg_learn_if_enough_outcome (after_storing a1 o))
    as [[a3 Hlearn]|(Hlearn & Hlt1 & Hlt2)].
  - left.
    pose proof (ddpg_learn_if_enough_state_size _ _ Hlearn) as Hss3.
    pose proof (ddpg_learn_if_enough_inv _ _ Hlearn)
      as (_ & _ & _ & _ & _ & Htask3 & Has3 & Hnoise3 & _).
    set (action := [vadd _ x]) in Hact.
    pose proof (step_end_inv a3 o action)
      as (_ & _ & Hn5 & _ & _ & _ & Htask5 & Has5 & Hss5 & _).
    eexists _, (step_end a3 o action). split.
    + unfold step. rewrite Hact. cbn [bind]. fold (after_storing a1 o).
      rewrite Hlearn. cbn [bind]. fold (step_end a3 o action).
      subst action. rewrite ddpg_postprocess_action_Ok; [reflexivity| |].
      * rewrite Htask5, Htask3, Htask2. done.
      * rewrite length_vadd, length_predict_actor. lia.
    + unfold well_formed.
      rewrite Htask5, Htask3, Htask2, Hss5, Hss3, Hss2, Has5, Has3, Has2, Hn5,
        Hnoise3, Hn2, Hn, Hmu'. repeat split; lia.
  - right. rewrite Hm2, Hb2 in Hlt1, Hlt2. split; [|done].
    unfold step. rewrite Hact. cbn [bind]. fold (after_storing a1 o).
    by rewrite Hlearn.
Qed.

Lemma ddpg_step_Ok a o :
  well_formed a -> 3 <= length (obs_state o) ->
  ReplayBuffer_len (stored a o) <= batch_size a \/
  ReplayBuffer_len (stored a o) <= setsize (batch_size a) ->
  exists completed a', step a o = Ok (completed, a') /\ well_formed a'.
Proof.
  intros Hwf Hobs Hs.
  destruct (ddpg_step_outcome a o Hwf Hobs) as [?|(_ & ? & ?)]; [done|lia].
Qed.



(** *** [__init__] *)

Lemma Actor_init_inv action_size (action_low action_high action_range : vec) :
  Actor_init action_size action_low action_high = Ok action_range ->
  broadcast Qminus action_high action_low = Ok action_range.
Proof.
  unfold Actor_init. intros H.
  apply bind_Ok_inv in H as (r & Hr & H).
  apply bind_Ok_inv in H as (sc & _ & H).
  apply bind_Ok_inv in H as (out & _ & H). congruence.
Qed.

(** The agent [__init__] returns. *)
Lemma ddpg_init_inv task built g a :
  init task built g = Ok a ->
  exists state_range action_diff,
    broadcast Qminus (observation_space_high task)
      (observation_space_low task) = Ok state_range /\
    broadcast Qminus (action_space_high task) (action_space_low task)
      = Ok action_diff /\
    a = {| task := task; state_size := 3; state_range := state_range;
           action_size := 3; action_range := take 3 action_diff;
           action_low := take 3 (action_space_low task);
           action_high := take 3 (action_space_high task);
           buffer_size := 100000; batch_size := 64;
           gamma := 0.0; tau := 0.001;
           nets :=
             {| actor_local := actor_local built;
                actor_target :=
                  set_weights (actor_target built)
                    (get_weights (actor_local built));
                critic_local := critic_local built;
                critic_target :=
                  set_weights (critic_target built)
                    (get_weights (critic_local built)) |};
           noise :=
             {| ou_size := 3; ou_mu := zeros 3; ou_theta := 0.15;
                ou_sigma := 0.3; ou_state := vmul (ones 3) (zeros 3) |};
           memory := ReplayBuffer_init 100000;
           vars := {| last_state := None; last_action := None;
                      total_reward := 0; count := 0 |};
           episode_num := 1; random := g; trace := [PrintSavingStats] |}.
Proof.
  unfold init. intros H.
  apply bind_Ok_inv in H as (sr & Hsr & H).
  apply bind_Ok_inv in H as (ad & Had & H).
  apply bind_Ok_inv in H as (r1 & _ & H).
  apply bind_Ok_inv in H as (r2 & _ & H).
  unfold OUNoise_init in H.
  rewrite broadcast_same_length in H by reflexivity.
  cbn [bind] in H. injection H as <-.
  by exists sr, ad.
Qed.


Lemma ddpg_init_well_formed task built g a :
  init task built g = Ok a -> 3 <= action_space_shape task -> well_formed a.
Proof.
  intros H Hn. apply ddpg_init_inv in H as (sr & ad & _ & _ & ->).
  by repeat split.
Qed.

(** A run returns, on observations of three components or more, while the
    memory stays within the size that [random.sample] copies. *)
Lemma ddpg_step_memory_bound a o completed a' :
  step a o = Ok (completed, a') ->
  memory_bound a' <= memory_bound a + 1 /\ batch_size a' = batch_size a.
Proof.
  intros H. pose proof (ddpg_stored_bound a o) as Hst.
  apply ddpg_step_inv in H as (Hm & _ & _ & Hb & _ & _ & Hls & _).
  split; [|done]. unfold memory_bound at 1. rewrite Hm, Hls.
  destruct (obs_done o); lia.
Qed.

Lemma ddpg_run_Ok obs a :
  well_formed a -> Forall (fun o => 3 <= length (obs_state o)) obs ->
  memory_bound a + length obs <= S (setsize (batch_size a)) ->
  exists actions a', run a obs = Ok (actions, a').
Proof.
  revert a. induction obs as [|o obs IH]; intros a Hwf Hobs Hb; simpl;
    [eauto|].
  apply Forall_cons in Hobs as [Ho Hobs].
  pose proof (ddpg_stored_bound a o) as Hst. simpl in Hb.
  destruct (ddpg_step_Ok a o Hwf Ho) as (c & a1 & Hstep & Hwf1); [right; lia|].
  rewrite Hstep. simpl.
  apply ddpg_step_memory_bound in Hstep as [Hmb Hbs].
  destruct (IH a1 Hwf1 Hobs) as (acts & a2 & ->); [rewrite Hbs; lia|].
  simpl. eauto.
Qed.

Lemma ddpg_run_gamma obs a actions a' :
  run a obs = Ok (actions, a') -> gamma a' = gamma a /\ tau a' = tau a.
Proof.
  revert a actions. induction obs as [|o obs IH]; intros a actions; simpl.
  - by intros [= <- <-].
  - intros H. apply bind_Ok_inv in H as ([c a1] & Hstep & H).
    apply bind_Ok_inv in H as ([acts a2] & Hrun & H). injection H as <- <-.
    apply ddpg_step_inv in Hstep as (_ & Hg & Ht & _).
    apply IH in Hrun as [-> ->]. done.
Qed.

Lemma q_targets_fmap a es :
  q_targets a es =
    (fun e => (reward e +
               gamma a * q_target_next a e *
               inject_Z (uint8_sub 1 (uint8_of_bool (done e))))%Q) <$> es.
Proof.
  unfold q_targets, q_targets_of, q_target_next.
  induction es as [|e es IH]; [done|].
  simpl. f_equal. exact IH.
Qed.

Lemma one_minus_done (d : bool) :
  inject_Z (uint8_sub 1 (uint8_of_bool d)) = (1 - (if d then 1 else 0))%Q.
Proof. destruct d; reflexivity. Qed.

Lemma q_targets_lookup a es i e :
  es !! i = Some e ->
  q_targets a es !! i =
    Some (reward e + gamma a * q_target_next a e *
                     (1 - (if done e then 1 else 0)))%Q.
Proof.
  intros H. rewrite q_targets_fmap, list_lookup_fmap, H. simpl.
  by rewrite one_minus_done.
Qed.

Lemma q_targets_gamma_0 a es :
  gamma a == 0 -> Forall2 Qeq (q_targets a es) (reward <$> es).
Proof.
  intros Hg. rewrite q_targets_fmap.
  apply Forall2_fmap, Forall_Forall2_diag, Forall_forall. intros e _.
  rewrite Hg. ring.
Qed.

Lemma soft_update_lookup a (local_model target_model : model optimizer)
    k j lk tk l t :
  get_weights local_model !! k = Some lk -> lk !! j = Some l ->
  get_weights target_model !! k = Some tk -> tk !! j = Some t ->
  exists nk,
    get_weights (soft_update a local_model target_model) !! k = Some nk /\
    nk !! j = Some (tau a * l + (1 - tau a) * t)%Q.
Proof.
  intros Hlk Hl Htk Ht.
  unfold soft_update, tensors_add, tensors_scale, set_weights.
  cbn [get_weights]. eexists. split.
  - rewrite lookup_zip_with, !list_lookup_fmap, Hlk, Htk. simpl. reflexivity.
  - unfold vadd, vscale.
    rewrite lookup_zip_with, !list_lookup_fmap, Hl, Ht. simpl. reflexivity.
Qed.

Lemma soft_update_tau_0 a (local_model target_model : model optimizer) :
  tau a == 0 ->
  same_shape (get_weights local_model) (get_weights target_model) ->
  weights_eq (get_weights (soft_update a local_model target_model))
             (get_weights target_model).
Proof.
  intros Ht Hs. unfold soft_update, tensors_add, tensors_scale. simpl.
  induction Hs as [|x y v w Hlen Hs IH]; simpl; constructor; [|done].
  clear IH Hs. unfold vadd, vscale.
  revert y Hlen. induction x as [|l x IH]; intros [|t y] Hlen;
    simpl in *; try done.
  constructor; [rewrite Ht; ring|]. apply IH. lia.
Qed.

Lemma soft_update_tau_1 a (local_model target_model : model optimizer) :
  tau a == 1 ->
  same_shape (get_weights local_model) (get_weights target_model) ->
  weights_eq (get_weights (soft_update a local_model target_model))
             (get_weights local_model).
Proof.
  intros Ht Hs. unfold soft_update, tensors_add, tensors_scale. simpl.
  induction Hs as [|x y v w Hlen Hs IH]; simpl; constructor; [|done].
  clear IH Hs. unfold vadd, vscale.
  revert y Hlen. induction x as [|l x IH]; intros [|t y] Hlen;
    simpl in *; try done.
  constructor; [rewrite Ht; ring|]. apply IH. lia.
Qed.

Lemma OUNoise_dx_lookup n z i x m g :
  ou_state n !! i = Some x -> ou_mu n !! i = Some m -> z !! i = Some g ->
  OUNoise_dx n z !! i = Some (ou_theta n * (m - x) + ou_sigma n * g)%Q.
Proof.
  intros Hx Hm Hg. unfold OUNoise_dx, vadd, vscale, vsub.
  rewrite lookup_zip_with, !list_lookup_fmap, lookup_zip_with, Hm, Hx, Hg.
  reflexivity.
Qed.

Lemma OUNoise_sample_eq n g :
  OUNoise_sample n g =
    (let z := (randn (length (ou_state n)) g).1 in
     let s := vadd (ou_state n) (OUNoise_dx n z) in
     (s,
      {| ou_size := ou_size n; ou_mu := ou_mu n; ou_theta := ou_theta n;
         ou_sigma := ou_sigma n; ou_state := s |},
      (randn (length (ou_state n)) g).2)).
Proof. reflexivity. Qed.

(** [add_all] appends to the deque of the buffer. *)
Lemma rb_memory_add_all es b :
  rb_memory (add_all b es) = foldl append (rb_memory b) es.
Proof.
  revert b. induction es as [|e es IH]; intros b; [done|].
  unfold add_all in *. simpl. rewrite IH. by destruct e.
Qed.






Lemma soft_update_shape a (local_model target_model : model optimizer) :
  same_shape (get_weights local_model) (get_weights target_model) ->
  same_shape (get_weights (soft_update a local_model target_model))
    (get_weights target_model).
Proof.
  intros Hs. unfold soft_update, tensors_add, tensors_scale. simpl.
  induction Hs as [|x y v w Hlen Hs IH]; simpl; constructor; [|done].
  unfold vadd, vscale. rewrite length_zip_with, !length_fmap. lia.
Qed.

End Agent_facts.

End DDPG_facts.
(** ** The DQN agent *)

Module DQN_facts.
Import DQN.

Lemma decay_above e : (EPSILON_MIN < e)%Q -> decay e = (e * EPSILON_DECAY)%Q.
Proof. intros H. unfold decay. destruct (Qlt_le_dec _ _); [done|lra]. Qed.

Lemma decay_below e : (e <= EPSILON_MIN)%Q -> decay e = e.
Proof. intros H. unfold decay. destruct (Qlt_le_dec _ _); [lra|done]. Qed.

Lemma decay_le e : (decay e <= e)%Q.
Proof.
  unfold decay. destruct (Qlt_le_dec _ _) as [H|H]; [|lra].
  unfold EPSILON_MIN, EPSILON_DECAY in *. lra.
Qed.

Lemma decay_lower e :
  (EPSILON_MIN * EPSILON_DECAY <= e)%Q ->
  (EPSILON_MIN * EPSILON_DECAY <= decay e)%Q.
Proof.
  unfold decay. destruct (Qlt_le_dec _ _) as [H|H]; [|done].
  unfold EPSILON_MIN, EPSILON_DECAY in *. lra.
Qed.

Lemma iter_decay_le k e : (Nat.iter k decay e <= e)%Q.
Proof.
  induction k as [|k IH]; simpl; [lra|].
  pose proof (decay_le (Nat.iter k decay e)). lra.
Qed.

Lemma iter_decay_lower k e :
  (EPSILON_MIN * EPSILON_DECAY <= e)%Q ->
  (EPSILON_MIN * EPSILON_DECAY <= Nat.iter k decay e)%Q.
Proof.
  intros H. induction k as [|k IH]; simpl; [done|]. by apply decay_lower.
Qed.

Section Agent_facts.
Context {N : Network}.

Lemma same_setup_refl a : same_setup a a.
Proof. by repeat split. Qed.

Lemma same_setup_trans a b c :
  same_setup a b -> same_setup b c -> same_setup a c.
Proof. unfold same_setup. intuition congruence. Qed.

Lemma length_predict a s : length (predict a s) = action_size a.
Proof. unfold predict. by rewrite length_fmap, length_seq. Qed.

Lemma act_inv a s i a1 :
  act a s = Ok (i, a1) ->
  i < action_size a /\ same_setup a a1 /\ epsilon a1 = epsilon a /\
  network a1 = network a /\ trace a1 = trace a.
Proof.
  unfold act. destruct (rand (random a)) as [u g].
  destruct (Qle_bool u (epsilon a)).
  - unfold randrange. case_decide as Hz; [discriminate|]. simpl.
    intros [= <- <-]. split; [|by repeat split].
    apply (randbelow_lt (action_size a) g). lia.
  - intros H. apply bind_Ok_inv in H as (j & Hj & H). injection H as <- <-.
    apply argmax_lt in Hj. rewrite length_predict in Hj.
    split; [done|by repeat split].
Qed.

Lemma act_Ok a s : 0 < action_size a -> exists i a1, act a s = Ok (i, a1).
Proof.
  intros Hn. unfold act. destruct (rand (random a)) as [u g].
  destruct (Qle_bool u (epsilon a)).
  - unfold randrange. case_decide; [lia|]. simpl. eauto.
  - destruct (argmax_Ok (predict a s)) as [i ->];
      [by rewrite length_predict|]. simpl. eauto.
Qed.

Lemma target_of_Ok a r ns d :
  0 < action_size a -> exists y, target_of a r ns d = Ok y.
Proof.
  intros Hn. unfold target_of. destruct d; [eauto|].
  destruct (amax_Ok (predict a ns)) as [m ->]; [by rewrite length_predict|].
  simpl. eauto.
Qed.

Lemma replay_one_inv a t a' :
  replay_one a t = Ok a' ->
  let '(s, i, r, ns, d) := t in
  exists y,
    target_of a r ns d = Ok y /\ i < length (predict a s) /\
    a' = log (set_network a (fit (network a) s (<[i := y]> (predict a s))))
             (Fit s (<[i := y]> (predict a s))).
Proof.
  destruct t as [[[[s i] r] ns] d]. unfold replay_one.
  intros H. apply bind_Ok_inv in H as (y & Hy & H).
  apply bind_Ok_inv in H as (tf & Htf & H). injection H as <-.
  apply setitem_inv in Htf as [Hi ->]. eauto.
Qed.

Lemma replay_one_Ok a t :
  0 < action_size a -> transition_action t < action_size a ->
  exists a', replay_one a t = Ok a'.
Proof.
  destruct t as [[[[s i] r] ns] d]. unfold replay_one, transition_action.
  simpl. intros Hn Hi.
  destruct (target_of_Ok a r ns d Hn) as [y ->]. simpl.
  rewrite setitem_Ok by (by rewrite length_predict). simpl. eauto.
Qed.

Lemma predict_ext a b s :
  network a = network b -> action_size a = action_size b ->
  predict a s = predict b s.
Proof. unfold predict. by intros -> ->. Qed.

Lemma target_of_ext a b r ns d :
  network a = network b -> action_size a = action_size b ->
  target_of a r ns d = target_of b r ns d.
Proof. intros Hn Hs. unfold target_of. by rewrite (predict_ext a b). Qed.

Lemma fit_of_ext a b m t e :
  action_size a = action_size b -> fit_of a m t e -> fit_of b m t e.
Proof.
  destruct t as [[[[s i] r] ns] d]. unfold fit_of. intros Hs (y & Hy & Hi & ->).
  exists y.
  rewrite <- (target_of_ext (set_network a m) (set_network b m)) by done.
  rewrite <- (predict_ext (set_network a m) (set_network b m)) by done.
  done.
Qed.

Lemma replay_loop_inv batch a a' :
  replay_loop a batch = Ok a' ->
  same_setup a a' /\ epsilon a' = epsilon a /\ random a' = random a /\
  exists evs,
    trace a' = trace a ++ evs /\
    network a' = apply_fits (network a) evs /\
    length evs = length batch /\
    forallb is_training evs = true /\
    forall i t, batch !! i = Some t ->
      exists e, evs !! i = Some e /\
                fit_of a (apply_fits (network a) (take i evs)) t e.
Proof.
  revert a. induction batch as [|t batch IH]; intros a; simpl.
  - intros [= <-]. split; [apply same_setup_refl|]. do 2 (split; [done|]).
    exists []. rewrite app_nil_r. repeat split; done.
  - intros H. apply bind_Ok_inv in H as (a1 & H1 & H).
    apply IH in H as (Hs & He & Hr & evs & Htr & Hnet & Hlen & Htrain & Hfit).
    pose proof (replay_one_inv a t a1 H1) as Hone.
    destruct t as [[[[s i] r] ns] d].
    destruct Hone as (y & Hy & Hi & ->).
    split; [eapply same_setup_trans; [|exact Hs]; by repeat split|].
    do 2 (split; [done|]).
    exists (Fit s (<[i := y]> (predict a s)) :: evs).
    split; [by rewrite Htr; simpl; rewrite <- app_assoc|].
    split; [done|]. split; [simpl; lia|]. split; [done|].
    intros [|k] t Hk; simpl in *.
    + injection Hk as <-. eexists. split; [done|]. exists y.
      rewrite (target_of_ext _ a), (predict_ext _ a) by done. done.
    + destruct (Hfit k t Hk) as (e & He' & Hf). exists e. split; [done|].
      eapply fit_of_ext; [|exact Hf]. done.
Qed.

Lemma replay_loop_Ok batch a :
  0 < action_size a ->
  Forall (fun t => transition_action t < action_size a) batch ->
  exists a', replay_loop a batch = Ok a'.
Proof.
  revert a. induction batch as [|t batch IH]; intros a Hn Hb; simpl; [eauto|].
  apply Forall_cons in Hb as [Ht Hb].
  destruct (replay_one_Ok a t Hn Ht) as [a1 H1]. rewrite H1. simpl.
  pose proof (replay_one_inv a t a1 H1) as Hone.
  destruct t as [[[[s i] r] ns] d]. destruct Hone as (y & _ & _ & ->).
  by apply IH.
Qed.

Lemma replay_inv a n a' :
  replay a n = Ok a' ->
  same_setup a a' /\ epsilon a' = decay (epsilon a) /\
  exists mini_batch g evs,
    random_sample (items (memory a)) n (random a) = Ok (mini_batch, g) /\
    trace a' = trace a ++ evs /\
    length evs = n /\ forallb is_training evs = true /\
    forall i t, mini_batch !! i = Some t ->
      exists e, evs !! i = Some e /\
                fit_of a (apply_fits (network a) (take i evs)) t e.
Proof.
  unfold replay. intros H.
  apply bind_Ok_inv in H as ([mb g] & Hs & H).
  apply bind_Ok_inv in H as (a1 & Hl & H). injection H as <-.
  apply replay_loop_inv in Hl
    as (Hss & He & Hr & evs & Htr & Hnet & Hlen & Htrain & Hfit).
  split; [destruct Hss as (?&?&?&?&?&?); by repeat split|].
  split; [simpl; by rewrite He|].
  exists mb, g, evs. split; [done|]. split; [done|].
  apply random_sample_inv in Hs as (_ & Hn & _).
  split; [lia|]. split; [done|].
  intros i t Hi. destruct (Hfit i t Hi) as (e & He' & Hf).
  exists e. split; [done|]. eapply fit_of_ext; [|exact Hf]. done.
Qed.


(** A replay returns, unless its sampling does not end. *)
Lemma replay_outcome a n :
  0 < action_size a ->
  Forall (fun t => transition_action t < action_size a) (items (memory a)) ->
  n <= len (memory a) ->
  (exists a', replay a n = Ok a') \/
  (replay a n = Unfinished /\ setsize n < len (memory a)).
Proof.
  intros Hn Hmem Hlen. unfold replay, len in *.
  destruct (random_sample (items (memory a)) n (random a))
    as [[xs g]|e|] eqn:Hs.
  - left. cbn [bind].
    apply random_sample_inv in Hs as (_ & _ & Hsub).
    destruct (replay_loop_Ok xs (set_random a g))
      as [a1 ->]; [done| |simpl; eauto].
    rewrite Forall_forall in Hmem |- *. intros t Ht. apply Hmem, Hsub, Ht.
  - by apply random_sample_not_Raise in Hs.
  - right. split; [done|].
    destruct (decide (length (items (memory a)) <= setsize n)) as [Hsmall|];
      [|lia].
    destruct (random_sample_positions (items (memory a)) n (random a))
      as (ps & xs & _ & Hs' & _); [done|done|]. congruence.
Qed.

Lemma replay_Ok a n :
  0 < action_size a ->
  Forall (fun t => transition_action t < action_size a) (items (memory a)) ->
  n <= len (memory a) -> len (memory a) <= setsize n ->
  exists a', replay a n = Ok a'.
Proof.
  intros Hn Hmem Hlen Hsmall.
  destruct (replay_outcome a n Hn Hmem Hlen) as [?|(_ & ?)]; [done|lia].
Qed.

Lemma replay_if_enough_inv a a' :
  replay_if_enough a = Ok a' ->
  same_setup a a' /\
  epsilon a' =
    (if decide (BATCH_SIZE < len (memory a)) then decay (epsilon a)
     else epsilon a) /\
  exists evs,
    trace a' = trace a ++ evs /\
    (existsb is_training evs = true <-> BATCH_SIZE < len (memory a)).
Proof.
  unfold replay_if_enough. case_decide as Hlt.
  - intros H. apply replay_inv in H
      as (Hs & He & mb & g & evs & _ & Htr & Hlen & Htrain & _).
    do 2 (split; [done|]). exists evs. split; [done|].
    split; [done|]. intros _. apply existsb_of_forallb; [|done].
    rewrite Hlen. unfold BATCH_SIZE. lia.
  - intros [= <-]. split; [apply same_setup_refl|]. split; [done|].
    exists []. rewrite app_nil_r. split; [done|]. simpl. split; [done|lia].
Qed.

Lemma replay_if_enough_outcome a :
  0 < action_size a ->
  Forall (fun t => transition_action t < action_size a) (items (memory a)) ->
  (exists a', replay_if_enough a = Ok a') \/
  (replay_if_enough a = Unfinished /\
   BATCH_SIZE < len (memory a) /\ setsize BATCH_SIZE < len (memory a)).
Proof.
  intros Hn Hmem. unfold replay_if_enough. case_decide as Hlt; [|eauto].
  destruct (replay_outcome a BATCH_SIZE Hn Hmem) as [?|(? & ?)];
    [lia|by left|by right].
Qed.

Lemma replay_if_enough_Ok a :
  0 < action_size a ->
  Forall (fun t => transition_action t < action_size a) (items (memory a)) ->
  len (memory a) <= BATCH_SIZE \/ len (memory a) <= setsize BATCH_SIZE ->
  exists a', replay_if_enough a = Ok a'.
Proof.
  intros Hn Hmem Hs.
  destruct (replay_if_enough_outcome a Hn Hmem) as [?|(_ & ? & ?)];
    [done|lia].
Qed.

Lemma dqn_stored_bound a o : len (stored a o) <= memory_bound a.
Proof.
  unfold stored, memory_bound.
  destruct (last_state (vars a)), (last_action (vars a)); simpl; try lia.
  apply len_append_le.
Qed.

(** The end of [step], from the agent [a3] the learning phase left. *)
Lemma dqn_step_end_inv (a3 : Agent) (o : observation) state (i : nat) a5 :
  a5 = (let a4 :=
    set_vars a3
      {| last_state := Some state; last_action := Some i;
         total_reward := total_reward (vars a3) + obs_reward o;
         count := count (vars a3) |} in
    if obs_done o then
      let b1 := log a4 (PrintScore (total_reward (vars a4)) (epsilon a4)) in
      let b2 :=
        log b1 (WriteStats (episode_num b1) (total_reward (vars b1))
                  (epsilon b1)) in
      let b3 := set_episode_num b2 (episode_num b2 + 1) in
      let b4 :=
        if decide (episode_num b3 mod 250 = 0) then log b3 SaveWeights
        else b3 in
      reset_episode_vars b4
    else a4) ->
  memory a5 = memory a3 /\ task a5 = task a3 /\
  action_map a5 = action_map a3 /\ action_size a5 = action_size a3 /\
  epsilon a5 = epsilon a3 /\
  last_state (vars a5) = (if obs_done o then None else Some state) /\
  last_action (vars a5) = (if obs_done o then None else Some i) /\
  exists evs,
    trace a5 = trace a3 ++ evs /\ existsb is_training evs = false.
Proof.
  intros ->. cbv zeta.
  destruct (obs_done o); [destruct (decide _)|];
    do 7 (split; [reflexivity|]).
  - eexists [_; _; _]. split.
    + cbn [trace log set_episode_num reset_episode_vars set_vars].
      by rewrite <- !app_assoc.
    + reflexivity.
  - eexists [_; _]. split.
    + cbn [trace log set_episode_num reset_episode_vars set_vars].
      by rewrite <- !app_assoc.
    + reflexivity.
  - exists []. by rewrite app_nil_r.
Qed.

Lemma dqn_step_inv a o completed a' :
  step a o = Ok (completed, a') ->
  memory a' = stored a o /\
  task a' = task a /\ action_map a' = action_map a /\
  action_size a' = action_size a /\
  epsilon a' =
    (if decide (BATCH_SIZE < len (stored a o)) then decay (epsilon a)
     else epsilon a) /\
  last_state (vars a') =
    (if obs_done o then None else Some (preprocess_state (obs_state o))) /\
  (exists i, i < action_size a /\
     last_action (vars a') = (if obs_done o then None else Some i)) /\
  exists evs,
    trace a' = trace a ++ evs /\
    (existsb is_training evs = true <-> BATCH_SIZE < len (stored a o)).
Proof.
  unfold step, stored. intros H.
  apply bind_Ok_inv in H as ([i a1] & Hact & H).
  apply act_inv in Hact
    as (Hi & (Ht1 & Hm1 & Hs1 & Hmem1 & Hv1 & Hep1) & He1 & Hn1 & Htr1).
  rewrite Hv1 in H.
  set (a2 := match last_state (vars a) with Some _ => _ | None => _ end) in H.
  apply bind_Ok_inv in H as (a3 & Hlearn & H).
  apply replay_if_enough_inv in Hlearn
    as ((Ht3 & Hm3 & Hs3 & Hmem3 & Hv3 & Hep3) & He3 & evs & Htr3 & Hev).
  apply bind_Ok_inv in H as (c & _ & H). injection H as <- H.
  symmetry in H. apply dqn_step_end_inv in H
    as (Hmem5 & Ht5 & Hm5 & Hs5 & He5 & Hls5 & Hla5 & evs5 & Htr5 & Hev5).
  assert (Hfr : memory a2 = match last_state (vars a), last_action (vars a) with
      | Some ls, Some la =>
          append (memory a)
            (ls, la, obs_reward o, preprocess_state (obs_state o), obs_done o)
      | _, _ => memory a end /\
      task a2 = task a /\ action_map a2 = action_map a /\
      action_size a2 = action_size a /\ epsilon a2 = epsilon a /\
      trace a2 = trace a).
  { subst a2. destruct (last_state (vars a)), (last_action (vars a));
      unfold add_memory; simpl; rewrite ?Hmem1; by repeat split. }
  destruct Hfr as (Hmem2 & Ht2 & Hm2 & Hs2 & He2 & Htr2).
  rewrite <- Hmem2.
  split; [congruence|]. split; [congruence|]. split; [congruence|].
  split; [congruence|]. split; [by rewrite He5, He3, He2|].
  split; [done|]. split; [exists i; split; [lia|done]|].
  exists (evs ++ evs5). split.
  - by rewrite Htr5, Htr3, Htr2, app_assoc.
  - rewrite existsb_app, Hev5, orb_false_r. done.
Qed.

Lemma dqn_postprocess_action_Ok a i :
  i < length (action_map a) -> FORCE_Z < action_space_shape (task a) ->
  exists c, postprocess_action a i = Ok c.
Proof.
  intros Hi Hz. unfold postprocess_action.
  destruct (index_lt (action_map a) i Hi) as (x & -> & _). simpl.
  rewrite setitem_Ok; [eauto|]. unfold zeros. by rewrite length_replicate.
Qed.

(** A step of a well-formed agent returns, unless the sampling of its
    replay does not end. *)
Lemma dqn_step_outcome a o :
  well_formed a ->
  (exists completed a', step a o = Ok (completed, a') /\ well_formed a') \/
  (step a o = Unfinished /\
   BATCH_SIZE < len (stored a o) /\ setsize BATCH_SIZE < len (stored a o)).
Proof.
  intros (Hn & Hmap & Hz & Hmem & Hla).
  assert (Hex : (exists r, step a o = Ok r) \/
                (step a o = Unfinished /\ BATCH_SIZE < len (stored a o) /\
                 setsize BATCH_SIZE < len (stored a o))).
  { unfold step, stored.
    destruct (act_Ok a (preprocess_state (obs_state o)) Hn) as (i & a1 & Hact).
    rewrite Hact. cbn [bind].
    apply act_inv in Hact
      as (Hi & (Ht1 & Hm1 & Hs1 & Hmem1 & Hv1 & Hep1) & He1 & Hn1 & Htr1).
    rewrite Hv1.
    set (a2 := match last_state (vars a) with Some _ => _ | None => _ end).
    assert (Hfr : task a2 = task a /\ action_map a2 = action_map a /\
                  action_size a2 = action_size a /\
                  Forall (fun t => transition_action t < action_size a)
                    (items (memory a2)) /\
                  memory a2 = match last_state (vars a), last_action (vars a)
                    with
                    | Some ls, Some la =>
                        append (memory a)
                          (ls, la, obs_reward o,
                           preprocess_state (obs_state o), obs_done o)
                    | _, _ => memory a end).
    { subst a2. destruct (last_state (vars a)) as [ls|],
        (last_action (vars a)) as [la|] eqn:Ela;
        unfold add_memory; simpl; rewrite ?Hmem1; repeat split; try done.
      eapply Forall_subseteq; [apply items_append_subseteq|].
      apply Forall_app. split; [done|]. apply Forall_singleton.
      unfold transition_action; simpl. by apply Hla. }
    destruct Hfr as (Ht2 & Hm2 & Hs2 & Hmem2 & Hmem2').
    rewrite <- Hmem2'.
    destruct (replay_if_enough_outcome a2) as [[a3 Hlearn]|(Hlearn & Hbig)];
      [lia|by rewrite Hs2| |right; by rewrite Hlearn].
    left. rewrite Hlearn. cbn [bind].
    apply replay_if_enough_inv in Hlearn
      as ((Ht3 & Hm3 & Hs3 & Hmem3 & Hv3 & Hep3) & _).
    set (a5 := if obs_done o then _ else _).
    pose proof (dqn_step_end_inv a3 o _ i a5 eq_refl)
      as (Hmem5 & Ht5 & Hm5 & Hs5 & _).
    destruct (dqn_postprocess_action_Ok a5 i) as [c ->];
      [rewrite Hm5, Hm3, Hm2; lia|rewrite Ht5, Ht3, Ht2; done|].
    simpl. eauto. }
  destruct Hex as [[[completed a'] Hstep]|?]; [left|by right].
  exists completed, a'. split; [done|].
  apply dqn_step_inv in Hstep
    as (Hmem' & Ht' & Hm' & Hs' & _ & _ & (i & Hi & Hla') & _).
  unfold well_formed. rewrite Hs', Hm', Ht', Hmem', Hla'.
  repeat split; try done.
  - unfold stored. destruct (last_state (vars a)) as [ls|],
      (last_action (vars a)) as [la|] eqn:Ela; try done.
    eapply Forall_subseteq; [apply items_append_subseteq|].
    apply Forall_app. split; [done|]. apply Forall_singleton.
    unfold transition_action; simpl. by apply Hla.
  - intros la. destruct (obs_done o); [done|]. intros [= <-]. done.
Qed.

Lemma dqn_step_Ok a o :
  well_formed a ->
  len (stored a o) <= BATCH_SIZE \/ len (stored a o) <= setsize BATCH_SIZE ->
  exists completed a', step a o = Ok (completed, a') /\ well_formed a'.
Proof.
  intros Hwf Hs.
  destruct (dqn_step_outcome a o Hwf) as [?|(_ & ? & ?)]; [done|lia].
Qed.

Lemma dqn_step_memory_bound a o completed a' :
  step a o = Ok (completed, a') -> memory_bound a' <= memory_bound a + 1.
Proof.
  intros H. pose proof (dqn_stored_bound a o) as Hst.
  apply dqn_step_inv in H as (Hm & _ & _ & _ & _ & Hls & _).
  unfold memory_bound at 1. rewrite Hm, Hls. destruct (obs_done o); lia.
Qed.



Lemma dqn_init_inv task built g a :
  init task built g = Ok a ->
  episode_invariant [] a /\ epsilon a = 3.0%Q /\
  memory a = deque_new MEMORY_SIZE /\
  index (action_space_high task) FORCE_Z = Ok (action_high a) /\
  action_size a = length (reverse (arange (action_high a) 15.0 (-4.0))) /\
  (0 < action_size a -> well_formed a).
Proof.
  unfold init. intros H.
  apply bind_Ok_inv in H as (d & Hd & H).
  apply bind_Ok_inv in H as (r & Hr & H).
  apply bind_Ok_inv in H as (lo & Hlo & H).
  apply bind_Ok_inv in H as (hi & Hhi & H). injection H as <-.
  split; [split; [by apply Forall_nil|by intros s]|].
  do 4 (split; [done|]).
  intros Hn. split; [done|]. split; [done|]. split.
  - apply index_Ok, lookup_lt_Some in Hhi. done.
  - split; [by apply Forall_nil|by intros la].
Qed.

(** A run returns while the memory stays within the size that
    [random.sample] copies. *)
Lemma dqn_run_Ok obs a :
  well_formed a -> memory_bound a + length obs <= S (setsize BATCH_SIZE) ->
  exists actions a', run a obs = Ok (actions, a').
Proof.
  revert a. induction obs as [|o obs IH]; intros a Hwf Hb; simpl; [eauto|].
  pose proof (dqn_stored_bound a o) as Hst. simpl in Hb.
  destruct (dqn_step_Ok a o Hwf) as (c & a1 & Hstep & Hwf1); [right; lia|].
  rewrite Hstep. simpl. apply dqn_step_memory_bound in Hstep.
  destruct (IH a1 Hwf1) as (acts & a2 & ->); [lia|]. simpl. eauto.
Qed.

Lemma replays_epsilon k a a' :
  replays a k = Ok a' -> epsilon a' = Nat.iter k decay (epsilon a).
Proof.
  revert a. induction k as [|k IH]; intros a; simpl.
  - by intros [= <-].
  - intros H. apply bind_Ok_inv in H as (a1 & H1 & H).
    apply replay_inv in H1 as (_ & He & _). apply IH in H. rewrite H, He.
    clear. induction k as [|k IH]; simpl; [done|]. by rewrite IH.
Qed.

Lemma replays_Ok k a :
  0 < action_size a ->
  Forall (fun t => transition_action t < action_size a) (items (memory a)) ->
  BATCH_SIZE <= len (memory a) -> len (memory a) <= setsize BATCH_SIZE ->
  exists a', replays a k = Ok a'.
Proof.
  revert a. induction k as [|k IH]; intros a Hn Hm Hl Hs'; simpl; [eauto|].
  destruct (replay_Ok a BATCH_SIZE Hn Hm Hl Hs') as [a1 H1].
  rewrite H1. simpl.
  apply replay_inv in H1 as ((_ & _ & Hs & Hmem & _) & _).
  apply IH; rewrite ?Hs, ?Hmem; done.
Qed.

(** [add_all] appends to the memory and leaves the rest of the agent. *)
Lemma add_all_inv ts a :
  memory (add_all a ts) = foldl append (memory a) ts /\
  action_size (add_all a ts) = action_size a /\
  epsilon (add_all a ts) = epsilon a /\
  action_map (add_all a ts) = action_map a /\
  task (add_all a ts) = task a /\ vars (add_all a ts) = vars a.
Proof.
  revert a. induction ts as [|[[[[s i] r] ns] d] ts IH]; intros a; [done|].
  unfold add_all in *. simpl.
  destruct (IH (add_memory a s i r ns d)) as (-> & -> & -> & -> & -> & ->).
  done.
Qed.





End Agent_facts.

End DQN_facts.

(** ** The example agents *)

Lemma example_dqn_agent :
  exists a : @DQN.Agent Example.dqn_network,
    DQN.init Example.task Example.dqn_built Example.generator = Ok a /\
    DQN.epsilon a = 3.0%Q /\ DQN.action_size a = 3 /\
    DQN.memory a = deque_new DQN.MEMORY_SIZE /\ DQN.well_formed a.
Proof.
  destruct (DQN.init Example.task Example.dqn_built Example.generator)
    as [a|e|] eqn:Hinit; [|vm_compute in Hinit; discriminate..].
  destruct (DQN_facts.dqn_init_inv _ _ _ _ Hinit)
    as (_ & He & Hmem & Hhi & Hsize & Hwf).
  assert (H25 : index (action_space_high Example.task) DQN.FORCE_Z = Ok 25%Q)
    by reflexivity.
  rewrite H25 in Hhi. injection Hhi as Hhi. rewrite <- Hhi in Hsize.
  assert (Hn : DQN.action_size a = 3) by (rewrite Hsize; reflexivity).
  exists a. do 4 (split; [done|]). apply Hwf. lia.
Qed.

Lemma example_dqn_add_all (a : @DQN.Agent Example.dqn_network)
    (ts : list DQN.transition) :
  DQN.memory a = deque_new DQN.MEMORY_SIZE ->
  length ts - DQN.MEMORY_SIZE = 0 ->
  items (DQN.memory (DQN.add_all a ts)) = ts.
Proof.
  intros Hmem Hlen. destruct (DQN_facts.add_all_inv ts a) as (-> & _).
  rewrite Hmem, items_foldl_append by (unfold len; simpl; lia).
  simpl. by rewrite Hlen.
Qed.

Lemma example_ddpg_agent :
  DDPG.init Example.task Example.ddpg_built Example.generator
    = Ok Example.ddpg_agent /\
  DDPG.well_formed Example.ddpg_agent.
Proof.
  assert (H : DDPG.init Example.task Example.ddpg_built Example.generator
              = Ok Example.ddpg_agent) by reflexivity.
  split; [exact H|].
  apply (DDPG_facts.ddpg_init_well_formed _ _ _ _ H). vm_compute. lia.
Qed.
(** * The properties of the specification, C1 to C10 *)

(** C1. For every batch, [learn] trains the local critic against the targets
    [q_targets], and the target of each transition is
    [reward + gamma * target_Q * (1 - done)], where [target_Q] is the target
    critic's prediction on the next state and on the action the target actor
    predicts there.  In the DQN update the target of a terminal transition
    is its reward, whatever the discount. *)
Theorem td_targets :
  (forall (N : DDPG.Networks) (a : DDPG.Agent)
          (experiences : list DDPG.Experience),
     (forall i e, experiences !! i = Some e ->
        DDPG.q_targets a experiences !! i =
          Some (DDPG.reward e +
                DDPG.gamma a * DDPG.q_target_next a e *
                (1 - (if DDPG.done e then 1 else 0)))%Q) /\
     length (DDPG.q_targets a experiences) = length experiences /\
     exists action_gradients,
       DDPG.trace (DDPG.learn a experiences) =
         DDPG.trace a ++
         [DDPG.TrainOnBatch (DDPG.state <$> experiences)
            (DDPG.action <$> experiences) (DDPG.q_targets a experiences);
          DDPG.TrainFn (DDPG.state <$> experiences) action_gradients]) /\
  (forall (N : DQN.Network) (a : DQN.Agent) (reward : Q) (next_state : vec),
     DQN.target_of a reward next_state true = Ok reward).
Proof.
  split.
  - intros N a experiences. split; [|split].
    + intros i e. apply DDPG_facts.q_targets_lookup.
    + by rewrite DDPG_facts.q_targets_fmap, length_fmap.
    + eexists. unfold DDPG.learn. cbn [DDPG.trace DDPG.set_nets DDPG.log].
      by rewrite <- app_assoc.
  - reflexivity.
Qed.

(** The targets of the example batch, evaluated: a terminal transition and
    one that is not, under a discount of one half. *)
Example td_targets_example :
  DDPG.q_targets_of 0.5 [1; 2]%Q [10; 10]%Q
    [uint8_of_bool false; uint8_of_bool true]
  = [(1 + 0.5 * 10 * 1)%Q; (2 + 0.5 * 10 * 0)%Q].
Proof. reflexivity. Qed.

(** C2. The soft update sets every target parameter to
    [tau * local + (1 - tau) * target]; with [tau] zero the target
    parameters keep their values, with [tau] one they take the values of
    the local parameters. *)
Theorem soft_update_rule (N : DDPG.Networks) (a : DDPG.Agent)
    (local_model target_model : model DDPG.optimizer) :
  same_shape (get_weights local_model) (get_weights target_model) ->
  (forall k j lk tk l t,
     get_weights local_model !! k = Some lk -> lk !! j = Some l ->
     get_weights target_model !! k = Some tk -> tk !! j = Some t ->
     exists nk,
       get_weights (DDPG.soft_update a local_model target_model) !! k
         = Some nk /\
       nk !! j = Some (DDPG.tau a * l + (1 - DDPG.tau a) * t)%Q) /\
  same_shape (get_weights (DDPG.soft_update a local_model target_model))
    (get_weights target_model) /\
  slots (DDPG.soft_update a local_model target_model) = slots target_model /\
  (DDPG.tau a == 0 ->
   weights_eq (get_weights (DDPG.soft_update a local_model target_model))
     (get_weights target_model)) /\
  (DDPG.tau a == 1 ->
   weights_eq (get_weights (DDPG.soft_update a local_model target_model))
     (get_weights local_model)).
Proof.
  intros Hs. split; [|split; [|split; [done|split]]].
  - intros k j lk tk l t. apply DDPG_facts.soft_update_lookup.
  - by apply DDPG_facts.soft_update_shape.
  - intros Ht. by apply DDPG_facts.soft_update_tau_0.
  - intros Ht. by apply DDPG_facts.soft_update_tau_1.
Qed.

Lemma soft_update_rule_witness :
  same_shape (get_weights (DDPG.actor_local Example.ddpg_built))
    (get_weights (DDPG.critic_local Example.ddpg_built)) /\
  weights_eq
    (get_weights
       (DDPG.soft_update (Example.ddpg_agent_with_tau 0)
          (DDPG.actor_local Example.ddpg_built)
          (DDPG.critic_local Example.ddpg_built)))
    [[4; 5]; [6]]%Q /\
  weights_eq
    (get_weights
       (DDPG.soft_update (Example.ddpg_agent_with_tau 1)
          (DDPG.actor_local Example.ddpg_built)
          (DDPG.critic_local Example.ddpg_built)))
    [[1; 2]; [3]]%Q.
Proof.
  assert (Hs : same_shape (get_weights (DDPG.actor_local Example.ddpg_built))
                 (get_weights (DDPG.critic_local Example.ddpg_built))).
  { repeat constructor. }
  split; [exact Hs|]. split.
  - apply (soft_update_rule Example.ddpg_networks
             (Example.ddpg_agent_with_tau 0) _ _ Hs). reflexivity.
  - apply (soft_update_rule Example.ddpg_networks
             (Example.ddpg_agent_with_tau 1) _ _ Hs). reflexivity.
Defined.

(** The update the agent is built with, [tau = 0.001], on one parameter. *)
Example soft_update_example :
  get_weights
    (DDPG.soft_update Example.ddpg_agent (@Model nat [[1000]]%Q 0)
       (@Model nat [[0]]%Q 7)) = [[0.001 * 1000 + (1 - 0.001) * 0]%Q].
Proof. reflexivity. Qed.

(** C3. A replay memory of capacity [c] that received the sequence [es] of
    additions holds at most [c] items: the last [c] of [es], in the order of
    insertion.  After [c + 1] additions it is [es] without its first item:
    the oldest entry is gone.  So for the [ReplayBuffer] of the DDPG agent,
    and for the memory of the DQN agent. *)
Theorem replay_memory_fifo :
  (forall (c : nat) (es : list DDPG.Experience),
     let b := DDPG.add_all (DDPG.ReplayBuffer_init c) es in
     DDPG.ReplayBuffer_len b <= c /\
     items (DDPG.rb_memory b) = drop (length es - c) es /\
     (length es = S c ->
      items (DDPG.rb_memory b) = drop 1 es /\
      forall e0, head es = Some e0 -> NoDup es ->
                 e0 ∉ items (DDPG.rb_memory b))) /\
  (forall (N : DQN.Network) (a : DQN.Agent) (ts : list DQN.transition),
     items (DQN.memory a) = [] ->
     let c := maxlen (DQN.memory a) in
     let m := DQN.memory (DQN.add_all a ts) in
     len m <= c /\
     items m = drop (length ts - c) ts /\
     (length ts = S c ->
      items m = drop 1 ts /\
      forall t0, head ts = Some t0 -> NoDup ts -> t0 ∉ items m)).
Proof.
  assert (Hfifo : forall {A} (d : deque A) (xs : list A),
    items d = [] ->
    let m := foldl append d xs in
    len m <= maxlen d /\
    items m = drop (length xs - maxlen d) xs /\
    (length xs = S (maxlen d) ->
     items m = drop 1 xs /\
     forall x0, head xs = Some x0 -> NoDup xs -> x0 ∉ items m)).
  { intros A d xs Hd m.
    assert (Hlen : len d <= maxlen d) by (unfold len; rewrite Hd; simpl; lia).
    assert (Hitems : items m = drop (length xs - maxlen d) xs).
    { subst m. rewrite items_foldl_append by done. by rewrite Hd. }
    split; [|split; [done|]].
    - unfold len. rewrite Hitems, length_drop. lia.
    - intros Hxs. rewrite Hitems, Hxs.
      replace (S (maxlen d) - maxlen d) with 1 by lia.
      split; [done|]. intros x0 Hx0 Hnd.
      destruct xs as [|x xs]; [done|]. injection Hx0 as ->. simpl.
      rewrite drop_0. by apply NoDup_cons in Hnd as [? _]. }
  split.
  - intros c es. cbv zeta. unfold DDPG.ReplayBuffer_len.
    rewrite DDPG_facts.rb_memory_add_all. by apply (Hfifo _ (deque_new c)).
  - intros N a ts Ha. cbv zeta.
    destruct (DQN_facts.add_all_inv ts a) as (-> & _). by apply Hfifo.
Qed.

(** A memory of capacity two after three additions. *)
Example replay_memory_fifo_example :
  items
    (DDPG.rb_memory
       (DDPG.add_all (DDPG.ReplayBuffer_init 2)
          [Example.experience 1 false; Example.experience 2 false;
           Example.experience 3 true]))
  = [Example.experience 2 false; Example.experience 3 true].
Proof. reflexivity. Qed.

(** C4. A call of [sample] draws [z], as many standard-normal numbers as the
    state has components, replaces the state [x] by
    [x + theta * (mu - x) + sigma * z], componentwise, and returns the new
    state.  [reset] sets the state to [mu], so that [sample] right after
    [reset] returns [mu] moved by one step, [theta * (mu - mu) + sigma * z],
    which is [sigma * z]. *)
Theorem ou_noise_step (n : DDPG.OUNoise) (g : rng) :
  let z := (randn (length (DDPG.ou_state n)) g).1 in
  let s := (DDPG.OUNoise_sample n g).1.1 in
  let n' := (DDPG.OUNoise_sample n g).1.2 in
  length z = length (DDPG.ou_state n) /\
  DDPG.ou_state n' = s /\
  DDPG.ou_mu n' = DDPG.ou_mu n /\
  DDPG.ou_theta n' = DDPG.ou_theta n /\
  DDPG.ou_sigma n' = DDPG.ou_sigma n /\
  (forall i x m zi,
     DDPG.ou_state n !! i = Some x -> DDPG.ou_mu n !! i = Some m ->
     z !! i = Some zi ->
     exists v,
       s !! i = Some v /\
       v == x + DDPG.ou_theta n * (m - x) + DDPG.ou_sigma n * zi) /\
  DDPG.ou_state (DDPG.OUNoise_reset n) = DDPG.ou_mu n /\
  (forall i m zi,
     DDPG.ou_mu n !! i = Some m ->
     (randn (length (DDPG.ou_mu n)) g).1 !! i = Some zi ->
     exists v,
       (DDPG.OUNoise_sample (DDPG.OUNoise_reset n) g).1.1 !! i = Some v /\
       v == m + (DDPG.ou_theta n * (m - m) + DDPG.ou_sigma n * zi) /\
       v - m == DDPG.ou_sigma n * zi).
Proof.
  cbv zeta. rewrite !DDPG_facts.OUNoise_sample_eq. cbv zeta. cbn [fst snd].
  split; [apply length_randn|]. do 4 (split; [reflexivity|]).
  split; [|split; [reflexivity|]].
  - intros i x m zi Hx Hm Hz.
    eexists. split.
    + unfold vadd at 1.
      rewrite lookup_zip_with, Hx,
        (DDPG_facts.OUNoise_dx_lookup n _ i x m zi Hx Hm Hz).
      reflexivity.
    + ring.
  - intros i m zi Hm Hz.
    eexists. split; [|split].
    + unfold vadd at 1. cbn [DDPG.ou_state DDPG.OUNoise_reset].
      rewrite lookup_zip_with, Hm.
      rewrite (DDPG_facts.OUNoise_dx_lookup (DDPG.OUNoise_reset n) _ i m m zi);
        [reflexivity|exact Hm|exact Hm|exact Hz].
    + reflexivity.
    + simpl. ring.
Qed.

(** The noise of the agent, [theta = 0.15] and [sigma = 0.3], from the
    state [[1; -2; 0]] on the draws [[1; -0.5; 1]]. *)
Example ou_noise_step_example :
  let n :=
    {| DDPG.ou_size := 3; DDPG.ou_mu := [0; 0; 0]%Q; DDPG.ou_theta := 0.15;
       DDPG.ou_sigma := 0.3; DDPG.ou_state := [1; -2; 0]%Q |} in
  Forall2 Qeq (DDPG.OUNoise_sample n Example.generator).1.1
    [1.15; -1.85; 0.3]%Q.
Proof. repeat constructor. Qed.

(** C6. [sample(n)] on a buffer of at least [n] experiences does not raise,
    and what it returns is [n] experiences, those at [n] distinct positions
    of the buffer, after at least [n] draws.

    On a buffer of at most [setsize n] experiences it returns after [n]
    draws, and every arrangement of [n] distinct positions is selected by
    exactly one sequence of draws, so that uniform draws select uniformly.

    On a larger buffer the positions are the draws below the length of the
    buffer, without those that were drawn before.  It returns as soon as
    [n] distinct positions were drawn, and does not return if that never
    happens; when the next [n] draws are distinct, they are the positions.
    Renaming the positions in the draws renames the positions selected in
    the same way, so that uniform draws select uniformly.

    On a buffer of fewer than [n] experiences it raises [ValueError]. *)
Theorem replay_buffer_sample (b : DDPG.ReplayBuffer) (n : nat) :
  let es := items (DDPG.rb_memory b) in
  (n <= length es ->
   (forall g e, DDPG.ReplayBuffer_sample b n g <> Raise e) /\
   (forall g xs g',
      DDPG.ReplayBuffer_sample b n g = Ok (xs, g') ->
      length xs = n /\
      exists ps d,
        NoDup ps /\ Forall2 (fun p x => es !! p = Some x) ps xs /\
        n <= d /\ g' = after_ints d g) /\
   (length es <= setsize n ->
    (forall g, exists ps xs,
       valid_draws (length es) (draws (length es) n g) /\
       selected_positions (length es) (draws (length es) n g) = Ok ps /\
       DDPG.ReplayBuffer_sample b n g = Ok (xs, after_ints n g) /\
       length xs = n /\ NoDup ps /\
       Forall2 (fun p x => es !! p = Some x) ps xs) /\
    (forall ps,
       length ps = n -> NoDup ps -> Forall (fun p => p < length es) ps ->
       exists js,
         valid_draws (length es) js /\
         selected_positions (length es) js = Ok ps /\
         forall js',
           valid_draws (length es) js' ->
           selected_positions (length es) js' = Ok ps -> js' = js)) /\
   (setsize n < length es ->
    (forall g xs g',
       DDPG.ReplayBuffer_sample b n g = Ok (xs, g') ->
       exists d,
         n <= d /\ g' = after_ints d g /\
         length (kept [] (next_draws (length es) d g)) = n /\
         Forall2 (fun p x => es !! p = Some x)
           (kept [] (next_draws (length es) d g)) xs) /\
    (forall g d,
       n <= length (kept [] (next_draws (length es) d g)) ->
       d <= patience g ->
       exists xs g', DDPG.ReplayBuffer_sample b n g = Ok (xs, g')) /\
    (forall g,
       (forall d, length (kept [] (next_draws (length es) d g)) < n) ->
       DDPG.ReplayBuffer_sample b n g = Unfinished) /\
    (forall g,
       0 < patience g -> NoDup (next_draws (length es) n g) ->
       exists xs,
         DDPG.ReplayBuffer_sample b n g = Ok (xs, after_ints n g) /\
         Forall2 (fun p x => es !! p = Some x)
           (next_draws (length es) n g) xs) /\
    (forall (f : nat -> nat) js,
       Inj (=) (=) f -> kept [] (f <$> js) = f <$> kept [] js))) /\
  (length es < n ->
   forall g, DDPG.ReplayBuffer_sample b n g = Raise ValueError).
Proof.
  cbv zeta. unfold DDPG.ReplayBuffer_sample.
  set (es := items (DDPG.rb_memory b)).
  split; [|intros Hn g; by apply random_sample_too_few].
  intros Hn. split; [intros g e; by apply random_sample_not_Raise|].
  split; [|split].
  - intros g xs g' H.
    apply random_sample_Ok_inv in H as (_ & Hlen & ps & d & H).
    split; [done|]. by exists ps, d.
  - intros Hsmall. split.
    + intros g.
      destruct (random_sample_positions es n g Hn Hsmall)
        as (ps & xs & Hps & Hs & Hlen & Hnd & HR).
      exists ps, xs. split; [by apply valid_draws_draws|done].
    + intros ps _ Hnd Hlt. by apply selected_positions_uniform.
  - intros Hlarge.
    assert (Hpos : 0 < length es) by (pose proof (setsize_pos n); lia).
    split; [|split; [|split; [|split]]].
    + intros g xs g'. rewrite random_sample_large by done.
      apply sample_set_inv.
    + intros g d Hd Hp. rewrite random_sample_large by done.
      by apply (sample_set_Ok es (length es) n [] g d).
    + intros g Hd. rewrite random_sample_large by done.
      by apply sample_set_Unfinished.
    + intros g Hp Hnd. rewrite random_sample_large by done.
      apply sample_set_distinct; [done..|].
      apply Forall_forall. intros j _. apply not_elem_of_nil.
    + intros f js Hf. by apply (kept_fmap_inj f []).
Qed.

(** Three of five experiences, and six of five. *)
Example replay_buffer_sample_example :
  let e := fun x => Example.experience x false in
  let b :=
    DDPG.add_all (DDPG.ReplayBuffer_init 5) (e <$> [10; 20; 30; 40; 50]%Z) in
  DDPG.ReplayBuffer_sample b 3 Example.generator =
    Ok (e <$> [40; 30; 50]%Z, after_ints 3 Example.generator) /\
  DDPG.ReplayBuffer_sample b 6 Example.generator = Raise ValueError.
Proof. split; reflexivity. Qed.

(** Three of thirty experiences, more than [setsize 3 = 21]: on the draws
    3, 10 and 17 of the example generator; on the draws 5, 5 and 9, of
    which the second is drawn again; and on draws that are all 5, where the
    second experience is never found. *)
Example replay_buffer_sample_large_example :
  let e := fun x => Example.experience x false in
  let b :=
    DDPG.add_all (DDPG.ReplayBuffer_init 30)
      (e <$> (Z.of_nat <$> seq 0 30)) in
  let g (draw : nat -> nat) :=
    {| ints := draw; ints_pos := 0; uniforms := fun _ => 0%Q;
       uniforms_pos := 0; normals := fun _ => 0%Q; normals_pos := 0;
       patience := 100 |} in
  setsize 3 = 21 /\ setsize 64 = 277 /\
  DDPG.ReplayBuffer_sample b 3 Example.generator =
    Ok (e <$> [3; 10; 17]%Z, after_ints 3 Example.generator) /\
  DDPG.ReplayBuffer_sample b 2 (g (fun i => if decide (i < 2) then 5 else 9))
    = Ok (e <$> [5; 9]%Z,
          after_ints 3 (g (fun i => if decide (i < 2) then 5 else 9))) /\
  DDPG.ReplayBuffer_sample b 2 (g (fun _ => 5)) = Unfinished.
Proof. repeat split. Qed.

(** C5, as the code has it.  Every replay multiplies the exploration rate by
    [EPSILON_DECAY] when it is above [EPSILON_MIN] and leaves it alone
    otherwise.  Over a sequence of replays the rate never grows and never
    falls below [EPSILON_MIN * EPSILON_DECAY]: the last decay may take it
    below [EPSILON_MIN], and there it stays. *)
Theorem epsilon_decay (N : DQN.Network) (a a' : DQN.Agent) (k : nat) :
  DQN.replays a k = Ok a' ->
  DQN.epsilon a' = Nat.iter k DQN.decay (DQN.epsilon a) /\
  (forall e, (DQN.EPSILON_MIN < e)%Q ->
             DQN.decay e = (e * DQN.EPSILON_DECAY)%Q) /\
  (forall e, (e <= DQN.EPSILON_MIN)%Q -> DQN.decay e = e) /\
  (DQN.epsilon a' <= DQN.epsilon a)%Q /\
  (DQN.EPSILON_MIN * DQN.EPSILON_DECAY <= DQN.epsilon a ->
   DQN.EPSILON_MIN * DQN.EPSILON_DECAY <= DQN.epsilon a')%Q.
Proof.
  intros H. apply DQN_facts.replays_epsilon in H. rewrite H.
  split; [done|]. split; [apply DQN_facts.decay_above|].
  split; [apply DQN_facts.decay_below|].
  split; [apply DQN_facts.iter_decay_le|apply DQN_facts.iter_decay_lower].
Qed.

(** The agent as [__init__] builds it on the example task, holding 65
    transitions: the replays of the properties below run on it. *)
Lemma example_agent_replays (k : nat) :
  exists a a',
    DQN.init Example.task Example.dqn_built Example.generator = Ok a /\
    DQN.epsilon a = 3.0%Q /\
    DQN.replays
      (DQN.add_all a (replicate 65 (Example.dqn_transition 1 0 false))) k
      = Ok a' /\
    DQN.epsilon a' = Nat.iter k DQN.decay 3.0%Q.
Proof.
  destruct example_dqn_agent as (a & Hinit & He & Hn & Hmem & _).
  set (ts := replicate 65 (Example.dqn_transition 1 0 false)).
  destruct (DQN_facts.add_all_inv ts a) as (_ & Hs & He' & _).
  pose proof (example_dqn_add_all a ts Hmem eq_refl) as Hitems.
  destruct (DQN_facts.replays_Ok k (DQN.add_all a ts)) as [a' Ha'].
  - rewrite Hs. lia.
  - rewrite Hitems, Hs. subst ts. apply Forall_replicate.
    unfold DQN.transition_action; simpl. lia.
  - unfold len. rewrite Hitems. subst ts. rewrite length_replicate.
    unfold DQN.BATCH_SIZE. lia.
  - unfold len. rewrite Hitems. subst ts. rewrite length_replicate.
    vm_compute. lia.
  - exists a, a'. split; [done|]. split; [exact He|]. split; [exact Ha'|].
    apply DQN_facts.replays_epsilon in Ha'. by rewrite Ha', He', He.
Qed.

Lemma epsilon_decay_witness :
  exists a a' : @DQN.Agent Example.dqn_network,
    DQN.replays a 2 = Ok a' /\
    DQN.epsilon a = 3.0%Q /\ (DQN.epsilon a' == 3.0 * 0.996 * 0.996)%Q.
Proof.
  destruct (example_agent_replays 2) as (a0 & a' & Hinit & He0 & Hrep & _).
  eexists _, a'. split; [exact Hrep|].
  destruct (DQN_facts.add_all_inv
              (replicate 65 (Example.dqn_transition 1 0 false)) a0)
    as (_ & _ & He & _).
  split; [by rewrite He|].
  destruct (epsilon_decay _ _ _ _ Hrep) as (-> & _). rewrite He, He0.
  vm_compute. reflexivity.
Defined.

(** C5, as the claim has it, fails: from the rate 3.0 the agent is built
    with, 1424 replays leave the rate below [EPSILON_MIN]. *)
Lemma epsilon_below_floor :
  exists a a',
    DQN.init Example.task Example.dqn_built Example.generator = Ok a /\
    DQN.replays
      (DQN.add_all a (replicate 65 (Example.dqn_transition 1 0 false))) 1424
      = Ok a' /\
    (DQN.epsilon a' < DQN.EPSILON_MIN)%Q.
Proof.
  destruct (example_agent_replays 1424) as (a & a' & Hinit & _ & Hrep & He).
  exists a, a'. split; [exact Hinit|]. split; [exact Hrep|].
  rewrite He. vm_compute. reflexivity.
Qed.



(** Steps on memories of 65 and of 64 transitions, evaluated: only the
    first trains; the DQN agent's rate decays with it.  And a step of the
    DDPG agent on an observation of two components. *)
Example step_learns_example :
  let o := {| obs_state := [0; 0; 10; 0; 0; 0; 1]%Q; obs_reward := (-10)%Q;
              obs_done := false |} in
  ('(_, a') <-
     DDPG.step
       (DDPG.set_memory Example.ddpg_agent
          (DDPG.add_all (DDPG.memory Example.ddpg_agent)
             (replicate 65 (Example.experience 1 false)))) o ;;
   Ok (existsb DDPG.is_training (DDPG.trace a'),
       length (items (DDPG.rb_memory (DDPG.memory a'))),
       slots (DDPG.critic_local (DDPG.nets a'))))
  = Ok (true, 65, 1) /\
  ('(_, a') <-
     DDPG.step
       (DDPG.set_memory Example.ddpg_agent
          (DDPG.add_all (DDPG.memory Example.ddpg_agent)
             (replicate 64 (Example.experience 1 false)))) o ;;
   Ok (existsb DDPG.is_training (DDPG.trace a'),
       length (items (DDPG.rb_memory (DDPG.memory a'))),
       slots (DDPG.critic_local (DDPG.nets a'))))
  = Ok (false, 64, 0) /\
  (a <- DQN.init Example.task Example.dqn_built Example.generator ;;
   '(_, a') <-
     DQN.step
       (DQN.add_all a (replicate 65 (Example.dqn_transition 1 0 false))) o ;;
   Ok (existsb DQN.is_training (DQN.trace a'),
       length (items (DQN.memory a')),
       Qeq_bool (DQN.epsilon a') (3.0 * 0.996), slots (DQN.network a')))
  = Ok (true, 65, true, 64) /\
  (a <- DQN.init Example.task Example.dqn_built Example.generator ;;
   '(_, a') <-
     DQN.step
       (DQN.add_all a (replicate 64 (Example.dqn_transition 1 0 false))) o ;;
   Ok (existsb DQN.is_training (DQN.trace a'),
       length (items (DQN.memory a')),
       Qeq_bool (DQN.epsilon a') 3.0, slots (DQN.network a')))
  = Ok (false, 64, true, 0) /\
  ('(c, _) <-
     DDPG.step Example.ddpg_agent
       {| obs_state := [0; 10]%Q; obs_reward := (-10)%Q;
          obs_done := false |} ;;
   Ok c)
  = Raise ValueError.
Proof. vm_compute. repeat split. Qed.

(** C8. [replay] fits the network once for each transition of the
    mini-batch, in order.  The target vector of a transition is the
    prediction, on its state, of the network as the earlier fits left it,
    with one entry changed: the entry of the action taken holds the scalar
    target, and every other entry is the prediction. *)
Theorem replay_target_vectors (N : DQN.Network) (a a' : DQN.Agent)
    (n : nat) :
  DQN.replay a n = Ok a' ->
  exists mini_batch g evs,
    random_sample (items (DQN.memory a)) n (DQN.random a)
      = Ok (mini_batch, g) /\
    DQN.trace a' = DQN.trace a ++ evs /\
    length evs = length mini_batch /\
    forall i state action reward next_state done,
      mini_batch !! i = Some (state, action, reward, next_state, done) ->
      let a_i :=
        DQN.set_network a (DQN.apply_fits (DQN.network a) (take i evs)) in
      exists target target_f,
        DQN.target_of a_i reward next_state done = Ok target /\
        evs !! i = Some (DQN.Fit state target_f) /\
        length target_f = length (DQN.predict a_i state) /\
        target_f !! action = Some target /\
        forall j, j <> action ->
                  target_f !! j = DQN.predict a_i state !! j.
Proof.
  intros H. apply DQN_facts.replay_inv in H
    as (_ & _ & mb & g & evs & Hs & Htr & Hlen & _ & Hfit).
  exists mb, g, evs. split; [done|]. split; [done|]. split.
  { apply random_sample_inv in Hs as (_ & Hmb & _). lia. }
  intros i s act r ns d Hi. cbv zeta.
  destruct (Hfit i _ Hi) as (e & He & y & Hy & Hact & ->).
  exists y, (<[act := y]> (DQN.predict
    (DQN.set_network a (DQN.apply_fits (DQN.network a) (take i evs))) s)).
  split; [done|]. split; [done|]. split; [by rewrite length_insert|].
  split; [by apply list_lookup_insert_eq|].
  intros j Hj. by apply list_lookup_insert_ne.
Qed.

Lemma replay_target_vectors_witness :
  exists a a' : @DQN.Agent Example.dqn_network,
    let ts :=
      [Example.dqn_transition 1 0 false; Example.dqn_transition 2 1 true;
       Example.dqn_transition 3 2 false] in
    DQN.init Example.task Example.dqn_built Example.generator = Ok a /\
    DQN.replay (DQN.add_all a ts) 2 = Ok a' /\
    exists evs,
      DQN.trace a' = DQN.trace (DQN.add_all a ts) ++ evs /\ length evs = 2.
Proof.
  destruct example_dqn_agent as (a & Hinit & _ & Hn & Hmem & _).
  set (ts := [Example.dqn_transition 1 0 false;
              Example.dqn_transition 2 1 true;
              Example.dqn_transition 3 2 false]).
  destruct (DQN_facts.add_all_inv ts a) as (_ & Hs & _).
  pose proof (example_dqn_add_all a ts Hmem eq_refl) as Hitems.
  destruct (DQN_facts.replay_Ok (DQN.add_all a ts) 2) as [a' Ha'].
  - rewrite Hs. lia.
  - rewrite Hitems, Hs, Hn. subst ts. repeat constructor.
  - unfold len. rewrite Hitems. subst ts. simpl. lia.
  - unfold len. rewrite Hitems. subst ts. vm_compute. lia.
  - exists a, a'. cbv zeta. fold ts. split; [exact Hinit|].
    split; [exact Ha'|].
    destruct (replay_target_vectors _ _ _ _ Ha')
      as (mb & g & evs & Hsample & Htr & Hlen & _).
    exists evs. split; [exact Htr|].
    apply random_sample_inv in Hsample as (_ & Hmb & _). lia.
Defined.

(** The two fits of the example, evaluated: the transition of action 0 and
    reward 1, then, on the network the first fit left, the transition of
    action 2 and reward 3. *)
Example replay_target_vectors_example :
  (a <- DQN.init Example.task Example.dqn_built Example.generator ;;
   a' <- DQN.replay
           (DQN.add_all a
              [Example.dqn_transition 1 0 false;
               Example.dqn_transition 2 1 true;
               Example.dqn_transition 3 2 false]) 2 ;;
   Ok (DQN.trace a'))
  = Ok [DQN.PrintSavingStats;
        DQN.Fit [1; 0; 0]%Q [1 + 0.9 * (0 + 2); 0 + 1; 0 + 2]%Q;
        DQN.Fit [3; 0; 0]%Q
          [1 + 0.9 * (0 + 2) + 0; 1 + 0.9 * (0 + 2) + 1;
           3 + 0.9 * (1 + 0.9 * (0 + 2) + 2)]%Q].
Proof. vm_compute. reflexivity. Qed.

(** C9. The DDPG agent is built with [gamma = 0.0] and no step changes it:
    whatever the agent has seen, the targets [learn] computes for a batch
    are the rewards of the batch, whatever the done flags and the
    predictions of the target networks. *)
Theorem ddpg_targets_are_rewards (N : DDPG.Networks) (task : Task)
    (built : DDPG.networks) (g : rng) (obs : list observation)
    (actions : list vec) (a0 a : DDPG.Agent) :
  DDPG.init task built g = Ok a0 ->
  DDPG.run a0 obs = Ok (actions, a) ->
  DDPG.gamma a0 = 0.0%Q /\
  DDPG.gamma a = 0.0%Q /\
  forall experiences : list DDPG.Experience,
    Forall2 Qeq (DDPG.q_targets a experiences) (DDPG.reward <$> experiences).
Proof.
  intros Hinit H.
  assert (Hg0 : DDPG.gamma a0 = 0.0%Q).
  { by apply DDPG_facts.ddpg_init_inv in Hinit as (sr & ad & _ & _ & ->). }
  apply DDPG_facts.ddpg_run_gamma in H as [Hg _]. rewrite Hg0 in Hg.
  split; [done|]. split; [done|].
  intros es. apply DDPG_facts.q_targets_gamma_0. by rewrite Hg.
Qed.

Lemma ddpg_targets_are_rewards_witness :
  exists actions a,
    DDPG.init Example.task Example.ddpg_built Example.generator
      = Ok Example.ddpg_agent /\
    DDPG.run Example.ddpg_agent Example.observations = Ok (actions, a) /\
    Forall2 Qeq
      (DDPG.q_targets a
         [Example.experience 1 false; Example.experience 2 true])
      [1; 2]%Q.
Proof.
  destruct example_ddpg_agent as [Hinit Hwf].
  destruct (DDPG_facts.ddpg_run_Ok Example.observations _ Hwf)
    as (actions & a & Hrun).
  { repeat constructor; simpl; lia. }
  { vm_compute. lia. }
  exists actions, a. split; [exact Hinit|]. split; [exact Hrun|].
  exact (proj2 (proj2 (ddpg_targets_are_rewards Example.ddpg_networks
                  Example.task Example.ddpg_built Example.generator
                  Example.observations actions _ a Hinit Hrun)) _).
Defined.


(** The example run, evaluated: of its four observations the third closes
    the first episode, and the memory pairs the first with the second and
    the second with the third, and nothing with the fourth.  So for the
    DDPG agent, and so for the DQN agent. *)
Example episode_boundaries_example :
  (a0 <- DDPG.init Example.task Example.ddpg_built Example.generator ;;
   '(_, a) <- DDPG.run a0 Example.observations ;;
   Ok ((fun e => (DDPG.state e, DDPG.next_state e, DDPG.done e)) <$>
         items (DDPG.rb_memory (DDPG.memory a)),
       last_state (DDPG.vars a)))
  = Ok ([([0; 0; 10]%Q, [0; 0; 11]%Q, false);
         ([0; 0; 11]%Q, [0; 0; 12]%Q, true)],
        Some [0; 0; 1]%Q) /\
  (a0 <- DQN.init Example.task Example.dqn_built Example.generator ;;
   '(_, a) <- DQN.run a0 Example.observations ;;
   Ok ((fun t : DQN.transition => (t.1.1.1.1, t.1.2, t.2)) <$>
         items (DQN.memory a),
       last_state (DQN.vars a)))
  = Ok ([([0; 0; 10]%Q, [0; 0; 11]%Q, false);
         ([0; 0; 11]%Q, [0; 0; 12]%Q, true)],
        Some [0; 0; 1]%Q).
Proof. vm_compute. split; reflexivity. Qed.
(** * Further properties of the code *)

(** ** Episodes and transitions of a run *)

Lemma transitions_of_snoc (pre : vec -> vec) (seen : list observation)
    (o : observation) :
  transitions_of pre (seen ++ [o]) =
    transitions_of pre seen ++
    match last seen with
    | Some o1 =>
        if obs_done o1 then []
        else [(pre (obs_state o1), obs_reward o, pre (obs_state o),
               obs_done o)]
    | None => []
    end.
Proof.
  induction seen as [|o1 [|o2 rest] IH]; [done| |].
  - simpl. by rewrite !app_nil_r.
  - change (transitions_of pre ((o1 :: o2 :: rest) ++ [o]))
      with ((if obs_done o1 then []
             else [(pre (obs_state o1), obs_reward o2, pre (obs_state o2),
                    obs_done o2)])
            ++ transitions_of pre ((o2 :: rest) ++ [o])).
    rewrite IH, app_assoc. reflexivity.
Qed.

(** A deque that holds the last items of a history holds, after one more
    addition, the last items of the longer history; under any reading [f]
    of the items. *)
Lemma items_append_history {A B} (f : A -> B) (d : deque A) (x : A)
    (history : list B) :
  f <$> items d = drop (length history - maxlen d) history ->
  f <$> items (append d x) =
    drop (length (history ++ [f x]) - maxlen d) (history ++ [f x]).
Proof.
  intros Hd.
  assert (Hlen : len d <= maxlen d).
  { unfold len. rewrite <- (length_fmap f), Hd, length_drop. lia. }
  assert (Hn : length (items d) = length history - (length history - maxlen d)).
  { by rewrite <- (length_fmap f), Hd, length_drop. }
  rewrite items_append by done.
  rewrite fmap_drop, fmap_app, Hd. simpl.
  rewrite <- (drop_app_le history [f x]) by lia.
  rewrite drop_drop. f_equal. rewrite !length_app, Hn. simpl. lia.
Qed.

Lemma episode_totals_length acc obs :
  length (episode_totals acc obs).1
  = length (filter (fun o => obs_done o = true) obs).
Proof.
  revert acc. induction obs as [|o obs IH]; intros acc; [done|].
  simpl. rewrite filter_cons. destruct (obs_done o) eqn:Hd.
  - specialize (IH 0%Q). destruct (episode_totals 0 obs) as [ts r].
    case_decide; [|done]. simpl in *. by rewrite IH.
  - case_decide; [done|]. apply IH.
Qed.

(** ** The DDPG agent, further *)

Module DDPG_more.
Import DDPG.


(** The noise of the agent, and a noise of three entries with a mean of
    two. *)
Example OUNoise_shape_example :
  (n <- OUNoise_init 3 None 0.15 0.3 ;; Ok (ou_state n, ou_mu n))
    = Ok ([0; 0; 0]%Q, [0; 0; 0]%Q) /\
  (n <- OUNoise_init 3 (Some [1; 2]%Q) 0.15 0.3 ;; Ok (ou_state n))
    = Raise ValueError.
Proof. split; reflexivity. Qed.

Section Step_more.
Context {N : Networks}.

(** X3. The noise is never reset: every step, also the one that closes an
    episode, leaves the noise one [sample] further, and the action it
    returns is the local actor's prediction on the first three components
    of the observed state plus that sample, followed by zeros for the
    components the agent does not control. *)
Theorem step_noise_and_action (a a' : Agent) (o : observation)
    (completed : vec) :
  well_formed a -> step a o = Ok (completed, a') ->
  let x := (OUNoise_sample (noise a) (random a)).1.1 in
  3 <= length (obs_state o) /\
  noise a' = (OUNoise_sample (noise a) (random a)).1.2 /\
  ou_state (noise a') = x /\
  completed =
    vadd (predict_actor a (actor_local (nets a)) (take 3 (obs_state o))) x
    ++ zeros (action_space_shape (task a) - 3).
Proof.
  intros (Hshape & Hss & Hsize & Hst & Hmu) Hstep. cbv zeta.
  apply DDPG_facts.ddpg_step_phases in Hstep
    as (action & a1 & a2 & a3 & Hact & -> & Hlearn & Hpost & ->).
  pose proof (DDPG_facts.after_storing_inv a o _ _ Hact)
    as (_ & _ & _ & _ & _ & _ & _ & _ & Htask2 & _ & _ & Hn2 & _).
  pose proof (DDPG_facts.ddpg_learn_if_enough_inv _ _ Hlearn)
    as (_ & _ & _ & _ & _ & Htask3 & _ & Hn3 & _).
  pose proof (DDPG_facts.step_end_inv a3 o action) as (_ & _ & Hn5 & _).
  assert (Hobs : 3 <= length (obs_state o)).
  { destruct (decide (3 <= length (obs_state o))) as [|Hshort]; [done|].
    exfalso. apply DDPG_facts.ddpg_act_inv in Hact as (rows & Hrows & Hadd & _).
    unfold preprocess_state, reshape_rows in Hrows.
    rewrite Hss, length_take in Hrows.
    destruct (decide _) as [[_ Hmod]|]; [|discriminate].
    replace (3 `min` length (obs_state o)) with (length (obs_state o))
      in Hrows, Hmod by lia.
    rewrite Nat.mod_small in Hmod by lia.
    rewrite Hmod in Hrows. injection Hrows as <-.
    unfold add_rows in Hadd. destruct (decide _); [|discriminate].
    injection Hadd as <-. discriminate. }
  split; [exact Hobs|].
  assert (Hn' : noise (step_end a3 o action)
                = (OUNoise_sample (noise a) (random a)).1.2) by congruence.
  pose proof (DDPG_facts.OUNoise_sample_length (noise a) (random a)) as Hn.
  rewrite DDPG_facts.act_one_row in Hact;
    [|done|done|done|done|unfold preprocess_state; rewrite length_take; lia].
  destruct (OUNoise_sample (noise a) (random a)) as [[x n] g].
  destruct Hn as (Hx & Hn & _); [congruence|]. cbn [fst snd] in *.
  injection Hact as <- _.
  split; [done|]. split; [by rewrite Hn'|].
  rewrite DDPG_facts.ddpg_postprocess_action_Ok in Hpost.
  - injection Hpost as <-. by rewrite Htask3, Htask2.
  - rewrite Htask3, Htask2. exact Hshape.
  - rewrite length_vadd, DDPG_facts.length_predict_actor. lia.
Qed.

End Step_more.

Lemma step_noise_and_action_witness :
  exists completed (a' : @Agent Example.ddpg_networks),
    well_formed Example.ddpg_agent /\
    step Example.ddpg_agent
      {| obs_state := [0; 0; 10; 0; 0; 0; 1]%Q; obs_reward := (-10)%Q;
         obs_done := true |} = Ok (completed, a') /\
    Forall2 Qeq (ou_state (noise a')) [0.3; -0.15; 0.3]%Q /\
    Forall2 Qeq completed [0.3; -0.15; 10.3; 0; 0; 0]%Q.
Proof.
  destruct example_ddpg_agent as [_ Hwf].
  set (o := {| obs_state := _ |}).
  destruct (DDPG_facts.ddpg_step_Ok Example.ddpg_agent o Hwf)
    as (c & a' & Hstep & _).
  { simpl. lia. }
  { left. vm_compute. lia. }
  exists c, a'. split; [exact Hwf|]. split; [exact Hstep|].
  destruct (step_noise_and_action (N:=Example.ddpg_networks) _ _ _ _
              Hwf Hstep) as (_ & _ & Hs & ->).
  split.
  - rewrite Hs. vm_compute. repeat constructor.
  - vm_compute. repeat constructor.
Defined.

Section Accounts_more.
Context {N : Networks}.

(** The phases of [step]: the agent [a2] after the storing phase, the agent
    [a3] after the learning phase, and what the end of the step makes of
    it. *)
Lemma step_phases a o completed a' :
  step a o = Ok (completed, a') ->
  exists a2 a3,
    learn_if_enough a2 = Ok a3 /\
    (memory a2 = stored a o /\ vars a2 = vars a /\
     episode_num a2 = episode_num a /\ trace a2 = trace a /\
     nets a2 = nets a /\ batch_size a2 = batch_size a) /\
    nets a' = nets a3 /\ memory a' = memory a3 /\
    batch_size a' = batch_size a3 /\
    episode_num a' =
      (if obs_done o then episode_num a3 + 1 else episode_num a3) /\
    total_reward (vars a') =
      (if obs_done o then 0 else total_reward (vars a3) + obs_reward o)%Q /\
    trace a' =
      trace a3 ++
      (if obs_done o then
         [PrintScore (total_reward (vars a3) + obs_reward o);
          WriteStats (episode_num a3)
            (total_reward (vars a3) + obs_reward o)]
       else []).
Proof.
  intros H. apply DDPG_facts.ddpg_step_phases in H
    as (action & a1 & a2 & a3 & Hact & -> & Hlearn & _ & ->).
  apply (DDPG_facts.after_storing_inv a o) in Hact
    as (Hm2 & Hv2 & Hep2 & Htr2 & Hn2 & Hb2 & _).
  pose proof (DDPG_facts.step_end_inv a3 o action)
    as (Hm5 & Hn5 & _ & Hb5 & _ & _ & _ & _ & _ & _ & _ & _ & Hep5 & Htot5
        & Htr5).
  exists (after_storing a1 o), a3. split; [done|]. split; [done|]. done.
Qed.

Lemma stats_rows_app tr evs :
  stats_rows (tr ++ evs) = stats_rows tr ++ stats_rows evs.
Proof. unfold stats_rows. apply omap_app. Qed.

Lemma learn_if_enough_accounting a a' :
  learn_if_enough a = Ok a' ->
  vars a' = vars a /\ episode_num a' = episode_num a /\
  stats_rows (trace a') = stats_rows (trace a).
Proof.
  intros H. apply DDPG_facts.ddpg_learn_if_enough_cases in H
    as [(_ & es & g & _ & ->)|(_ & ->)]; [|done].
  do 2 (split; [done|]). unfold learn.
  cbn [trace set_nets log set_random].
  rewrite !stats_rows_app. simpl. by rewrite !app_nil_r.
Qed.

Lemma step_accounting a o completed a' :
  step a o = Ok (completed, a') ->
  if obs_done o then
    stats_rows (trace a') =
      stats_rows (trace a) ++
      [(episode_num a, (total_reward (vars a) + obs_reward o)%Q)] /\
    episode_num a' = episode_num a + 1 /\
    total_reward (vars a') = 0%Q
  else
    stats_rows (trace a') = stats_rows (trace a) /\
    episode_num a' = episode_num a /\
    total_reward (vars a') = (total_reward (vars a) + obs_reward o)%Q.
Proof.
  intros H. apply step_phases in H
    as (a2 & a3 & Hl & (_ & Hv2 & He2 & Ht2 & _) & _ & _ & _ & He & Hr & Ht).
  apply learn_if_enough_accounting in Hl as (Hv3 & He3 & Ht3).
  rewrite Ht, He, Hr, stats_rows_app, Ht3, Ht2, Hv3, Hv2, He3, He2.
  destruct (obs_done o); simpl; by rewrite ?app_nil_r.
Qed.

Lemma run_accounting obs a actions a' :
  run a obs = Ok (actions, a') ->
  let '(totals, open) := episode_totals (total_reward (vars a)) obs in
  stats_rows (trace a') =
    stats_rows (trace a) ++ zip (seq (episode_num a) (length totals)) totals /\
  episode_num a' = episode_num a + length totals /\
  total_reward (vars a') = open /\
  length actions = length obs.
Proof.
  revert a actions. induction obs as [|o obs IH]; intros a actions; simpl.
  - intros [= <- <-]. rewrite app_nil_r. repeat split; lia.
  - intros H. apply bind_Ok_inv in H as ([c a1] & Hstep & H).
    apply bind_Ok_inv in H as ([acts a2] & Hrun & H). injection H as <- <-.
    apply step_accounting in Hstep. apply IH in Hrun.
    destruct (obs_done o).
    + destruct Hstep as (Ht & He & Hr). rewrite Hr in Hrun.
      destruct (episode_totals 0 obs) as [ts r].
      destruct Hrun as (Ht' & He' & Hr' & Hlen).
      rewrite Ht', Ht, He', He. simpl. rewrite <- app_assoc. simpl.
      replace (episode_num a + 1) with (S (episode_num a)) by lia.
      repeat split; try done; lia.
    + destruct Hstep as (Ht & He & Hr). rewrite Hr in Hrun.
      destruct (episode_totals _ obs) as [ts r].
      destruct Hrun as (Ht' & He' & Hr' & Hlen).
      rewrite Ht', Ht, He', He. simpl. repeat split; try done; lia.
Qed.

(** X4. The agent's accounts.  After a run on [obs] the stats file holds
    one row for each episode [obs] closed, numbered from 1, with the sum of
    all rewards of that episode; the episode number is one more than the
    number of closed episodes, and [total_reward] is the sum of the rewards
    of the episode under way.  One action is returned for each
    observation. *)
Theorem episode_accounts (task : Task) (built : networks) (g : rng)
    (obs : list observation) (actions : list vec) (a0 a : Agent) :
  init task built g = Ok a0 ->
  run a0 obs = Ok (actions, a) ->
  let totals := (episode_totals 0 obs).1 in
  stats_rows (trace a) = zip (seq 1 (length totals)) totals /\
  length totals = length (filter (fun o => obs_done o = true) obs) /\
  episode_num a = 1 + length totals /\
  total_reward (vars a) = (episode_totals 0 obs).2 /\
  length actions = length obs.
Proof.
  intros Hinit H. apply run_accounting in H. cbv zeta.
  assert (H0 : total_reward (vars a0) = 0%Q /\ episode_num a0 = 1 /\
               trace a0 = [PrintSavingStats]).
  { by apply DDPG_facts.ddpg_init_inv in Hinit as (sr & ad & _ & _ & ->). }
  destruct H0 as (Hr0 & He0 & Ht0). rewrite Hr0, He0, Ht0 in H.
  pose proof (episode_totals_length 0 obs) as Hlen.
  destruct (episode_totals 0 obs) as [ts r].
  destruct H as (Ht & He & Hr & Hl). simpl in *.
  rewrite Ht, He. repeat split; try done.
Qed.

End Accounts_more.

Lemma episode_accounts_witness :
  exists actions (a : @Agent Example.ddpg_networks),
    init Example.task Example.ddpg_built Example.generator
      = Ok Example.ddpg_agent /\
    run Example.ddpg_agent Example.observations = Ok (actions, a) /\
    stats_rows (trace a) = [(1, (0 + -10 + -9 + -8)%Q)] /\
    episode_num a = 2 /\ total_reward (vars a) = (0 + -20)%Q.
Proof.
  destruct example_ddpg_agent as [Hinit Hwf].
  destruct (DDPG_facts.ddpg_run_Ok Example.observations _ Hwf)
    as (actions & a & Hrun).
  { repeat constructor; simpl; lia. }
  { vm_compute. lia. }
  exists actions, a. split; [exact Hinit|]. split; [exact Hrun|].
  destruct (episode_accounts (N:=Example.ddpg_networks) _ _ _ _ _ _ _
              Hinit Hrun)
    as (Ht & _ & He & Hr & _).
  rewrite Ht, He, Hr. repeat split.
Defined.

Section Memory_more.
Context {N : Networks}.

Lemma step_memory_invariant seen a o completed a' :
  step a o = Ok (completed, a') ->
  memory_invariant seen a ->
  memory_invariant (seen ++ [o]) a' /\
  maxlen (rb_memory (memory a')) = maxlen (rb_memory (memory a)).
Proof.
  intros Hstep (Hmem & Hls & Hla).
  apply DDPG_facts.ddpg_step_inv in Hstep
    as (Hm & _ & _ & _ & _ & _ & Hls' & _ & Hla' & _).
  assert (Hmax : maxlen (rb_memory (memory a'))
                 = maxlen (rb_memory (memory a))).
  { rewrite Hm. unfold stored.
    destruct (last_state (vars a)), (last_action (vars a)); done. }
  split; [|done]. unfold memory_invariant. rewrite Hmax.
  split; [|split].
  - rewrite transitions_of_snoc, Hm. unfold stored.
    destruct (last_state (vars a)) as [ls|] eqn:Els.
    + destruct (Hla (mk_is_Some _ _ eq_refl)) as [la Ela]. rewrite Ela.
      destruct (last seen) as [o1|]; [|done].
      destruct (obs_done o1); [done|]. injection Hls as ->.
      unfold ReplayBuffer_add. cbn [rb_memory].
      by apply (items_append_history experience_reading).
    + destruct (last seen) as [o1|]; [|by rewrite app_nil_r].
      destruct (obs_done o1); [by rewrite app_nil_r|done].
  - by rewrite last_snoc.
  - rewrite Hls'. destruct (obs_done o); [by intros [? ?]|].
    intros _. by apply Hla'.
Qed.

Lemma run_memory_invariant obs seen a actions a' :
  run a obs = Ok (actions, a') ->
  memory_invariant seen a ->
  memory_invariant (seen ++ obs) a' /\
  maxlen (rb_memory (memory a')) = maxlen (rb_memory (memory a)).
Proof.
  revert seen a actions.
  induction obs as [|o obs IH]; intros seen a actions; simpl.
  - intros [= <- <-]. by rewrite app_nil_r.
  - intros H Hinv. apply bind_Ok_inv in H as ([c a1] & Hstep & H).
    apply bind_Ok_inv in H as ([acts a2] & Hrun & H). injection H as <- <-.
    destruct (step_memory_invariant _ _ _ _ _ Hstep Hinv) as [Hinv1 Hmax1].
    destruct (IH _ _ _ Hrun Hinv1) as [Hinv2 Hmax2].
    rewrite cons_middle, app_assoc. split; [done|congruence].
Qed.

(** X5. The memory is complete.  After a run on [obs] the replay buffer
    holds, in order, the transitions of [obs]: for each observation that
    does not close an episode, the first three components of its state, the
    reward, the first three components of the state and the done flag of
    the next observation; all of them while there are at most
    [buffer_size], and the last [buffer_size] of them beyond. *)
Theorem memory_holds_transitions (task : Task) (built : networks) (g : rng)
    (obs : list observation) (actions : list vec) (a0 a : Agent) :
  init task built g = Ok a0 ->
  run a0 obs = Ok (actions, a) ->
  let history := transitions_of (take 3) obs in
  buffer_size a = 100000 /\
  (fun e => (state e, reward e, next_state e, done e))
    <$> items (rb_memory (memory a))
  = drop (length history - 100000) history.
Proof.
  intros Hinit H. cbv zeta.
  assert (H0 : memory_invariant [] a0 /\
               maxlen (rb_memory (memory a0)) = 100000 /\
               buffer_size a0 = 100000).
  { apply DDPG_facts.ddpg_init_inv in Hinit as (sr & ad & _ & _ & ->).
    split; [|done]. split; [done|]. split; [done|]. simpl. by intros [? ?]. }
  destruct H0 as (Hinv & Hmax0 & Hb0).
  assert (Hb : buffer_size a = 100000).
  { rewrite <- Hb0. clear -H. revert a0 actions H.
    induction obs as [|o obs IH]; intros a0 actions; simpl.
    - by intros [= <- <-].
    - intros H. apply bind_Ok_inv in H as ([c a1] & Hstep & H).
      apply bind_Ok_inv in H as ([acts a2] & Hrun & H). injection H as <- <-.
      rewrite (IH _ _ Hrun).
      apply DDPG_facts.ddpg_step_phases in Hstep
        as (action & b1 & b2 & b3 & Hact & -> & Hlearn & _ & ->).
      apply DDPG_facts.ddpg_act_inv in Hact as (rows & _ & _ & ->).
      apply DDPG_facts.ddpg_learn_if_enough_cases in Hlearn
        as [(_ & es & g' & _ & ->)|(_ & ->)];
        unfold step_end, after_storing;
        destruct (obs_done o);
        cbn [vars set_random set_noise last_state last_action];
        by destruct (last_state (vars a0)), (last_action (vars a0)). }
  split; [exact Hb|].
  destruct (run_memory_invariant obs [] _ _ _ H Hinv) as [(Hmem & _) Hmax].
  rewrite Hmax, Hmax0 in Hmem. exact Hmem.
Qed.

Lemma run_warm_up obs a actions a' :
  run a obs = Ok (actions, a') ->
  memory_bound a + length obs <= S (batch_size a) ->
  nets a' = nets a /\
  existsb is_training (trace a') = existsb is_training (trace a).
Proof.
  revert a actions. induction obs as [|o obs IH]; intros a actions; simpl.
  - by intros [= <- <-].
  - intros H Hb. apply bind_Ok_inv in H as ([c a1] & Hstep & H).
    apply bind_Ok_inv in H as ([acts a2] & Hrun & H). injection H as <- <-.
    pose proof (DDPG_facts.ddpg_stored_bound a o) as Hst.
    pose proof (DDPG_facts.ddpg_step_inv _ _ _ _ Hstep)
      as (Hm & _ & _ & Hbs & _ & _ & Hls & _).
    apply step_phases in Hstep
      as (b2 & b3 & Hl & (Hm2 & _ & _ & Ht2 & Hn2 & Hb2) & Hn & _ & _ & _
          & _ & Ht).
    apply DDPG_facts.ddpg_learn_if_enough_cases in Hl
      as [(Hlt & _)|(_ & ->)].
    { rewrite Hm2, Hb2 in Hlt. lia. }
    destruct (IH a1 acts Hrun) as [Hn' Ht'].
    { rewrite Hbs. unfold memory_bound. rewrite Hm, Hls.
      destruct (obs_done o); lia. }
    split; [congruence|].
    rewrite Ht', Ht, Ht2, existsb_app.
    destruct (obs_done o); simpl; by rewrite orb_false_r.
Qed.

(** X6. The warm-up.  An agent run on at most 65 observations from its
    construction has not learnt: its four networks are the ones it was
    built with (the targets with the weights of the locals), and no training
    call was made.  The first step stores nothing, so that the memory
    exceeds the batch size of 64 at the 66th step at the earliest. *)
Theorem no_learning_before_66_steps (task : Task) (built : networks)
    (g : rng) (obs : list observation) (actions : list vec) (a0 a : Agent) :
  init task built g = Ok a0 ->
  run a0 obs = Ok (actions, a) ->
  length obs <= 65 ->
  nets a = nets a0 /\
  nets a =
    {| actor_local := actor_local built;
       actor_target :=
         set_weights (actor_target built) (get_weights (actor_local built));
       critic_local := critic_local built;
       critic_target :=
         set_weights (critic_target built)
           (get_weights (critic_local built)) |} /\
  existsb is_training (trace a) = false.
Proof.
  intros Hinit H Hlen.
  assert (H0 : memory_bound a0 = 0 /\ batch_size a0 = 64 /\
               existsb is_training (trace a0) = false /\
               nets a0 =
                 {| actor_local := actor_local built;
                    actor_target :=
                      set_weights (actor_target built)
                        (get_weights (actor_local built));
                    critic_local := critic_local built;
                    critic_target :=
                      set_weights (critic_target built)
                        (get_weights (critic_local built)) |}).
  { by apply DDPG_facts.ddpg_init_inv in Hinit as (sr & ad & _ & _ & ->). }
  destruct H0 as (Hmb & Hbs & Htr & Hn0).
  apply run_warm_up in H as [Hn Ht]; [|rewrite Hmb, Hbs; simpl; lia].
  split; [done|]. split; [congruence|congruence].
Qed.

End Memory_more.

Lemma memory_holds_transitions_witness :
  exists actions (a : @Agent Example.ddpg_networks),
    init Example.task Example.ddpg_built Example.generator
      = Ok Example.ddpg_agent /\
    run Example.ddpg_agent Example.observations = Ok (actions, a) /\
    (fun e => (state e, reward e, next_state e, done e))
      <$> items (rb_memory (memory a))
    = [([0; 0; 10]%Q, (-9)%Q, [0; 0; 11]%Q, false);
       ([0; 0; 11]%Q, (-8)%Q, [0; 0; 12]%Q, true)].
Proof.
  destruct example_ddpg_agent as [Hinit Hwf].
  destruct (DDPG_facts.ddpg_run_Ok Example.observations _ Hwf)
    as (actions & a & Hrun).
  { repeat constructor; simpl; lia. }
  { vm_compute. lia. }
  exists actions, a. split; [exact Hinit|]. split; [exact Hrun|].
  rewrite (proj2 (memory_holds_transitions (N:=Example.ddpg_networks)
                    _ _ _ _ _ _ _ Hinit Hrun)).
  reflexivity.
Defined.

Lemma no_learning_before_66_steps_witness :
  exists actions (a : @Agent Example.ddpg_networks),
    init Example.task Example.ddpg_built Example.generator
      = Ok Example.ddpg_agent /\
    run Example.ddpg_agent Example.observations = Ok (actions, a) /\
    length Example.observations <= 65 /\
    nets a = nets Example.ddpg_agent.
Proof.
  destruct example_ddpg_agent as [Hinit Hwf].
  destruct (DDPG_facts.ddpg_run_Ok Example.observations _ Hwf)
    as (actions & a & Hrun).
  { repeat constructor; simpl; lia. }
  { vm_compute. lia. }
  assert (Hlen : length Example.observations <= 65) by (simpl; lia).
  exists actions, a. split; [exact Hinit|]. split; [exact Hrun|].
  split; [exact Hlen|].
  exact (proj1 (no_learning_before_66_steps (N:=Example.ddpg_networks)
                  _ _ _ _ _ _ _ Hinit Hrun Hlen)).
Defined.

End DDPG_more.
(** ** The DQN agent, further *)

Lemma arange_lookup (start stop step : Q) (j : nat) (x : Q) :
  arange start stop step !! j = Some x ->
  x = (start + inject_Z (Z.of_nat j) * step)%Q /\
  (inject_Z (Z.of_nat j) < (stop - start) / step)%Q.
Proof.
  unfold arange. rewrite list_lookup_fmap.
  set (n := Z.to_nat (Qceiling ((stop - start) / step))).
  destruct (seq 0 n !! j) as [i|] eqn:Hi; [|discriminate].
  apply lookup_seq in Hi as [-> Hj]. simpl. intros [= <-]. split; [done|].
  pose proof (Qceiling_lt ((stop - start) / step)) as Hc.
  eapply Qle_lt_trans; [|exact Hc].
  rewrite <- Zle_Qle. subst n. lia.
Qed.

Lemma length_arange_pos (start stop step : Q) :
  0 < length (arange start stop step) <-> (0 < (stop - start) / step)%Q.
Proof.
  unfold arange. rewrite length_fmap, length_seq.
  pose proof (Qceiling_lt ((stop - start) / step)) as Hlt.
  pose proof (Qle_ceiling ((stop - start) / step)) as Hle.
  set (c := Qceiling ((stop - start) / step)) in *.
  split.
  - intros H. assert (1 <= c)%Z by lia.
    eapply Qle_lt_trans; [|exact Hlt]. change 0%Q with (inject_Z 0).
    rewrite <- Zle_Qle. lia.
  - intros H. assert (0 < c)%Z; [|lia].
    rewrite Zlt_Qlt. eapply Qlt_le_trans; [exact H|exact Hle].
Qed.

Lemma length_arange_upper (start stop step : Q) :
  ((stop - start) / step
   <= inject_Z (Z.of_nat (length (arange start stop step))))%Q.
Proof.
  unfold arange. rewrite length_fmap, length_seq.
  pose proof (Qle_ceiling ((stop - start) / step)) as Hle.
  set (c := Qceiling ((stop - start) / step)) in *.
  eapply Qle_trans; [exact Hle|]. rewrite <- Zle_Qle. lia.
Qed.

Lemma argmax_from_spec (v : vec) (i best : nat) (m : Q) :
  let r := argmax_from v i best m in
  (r = best /\ Forall (fun y => y <= m)%Q v) \/
  (exists y, i <= r /\ v !! (r - i) = Some y /\ (m <= y)%Q /\
             Forall (fun z => z <= y)%Q v).
Proof.
  cbv zeta. revert i best m.
  induction v as [|y v IH]; intros i best m; simpl.
  - left. by split.
  - destruct (Qle_bool y m) eqn:Hle.
    + apply Qle_bool_iff in Hle.
      destruct (IH (S i) best m) as [[-> Hall]|(y' & Hr & Hy' & Hm & Hall)].
      * left. split; [done|]. by constructor.
      * right. exists y'. split; [lia|]. split.
        { replace (argmax_from v (S i) best m - i)
            with (S (argmax_from v (S i) best m - S i)) by lia. done. }
        split; [done|]. constructor; [lra|done].
    + assert (m < y)%Q.
      { apply Qnot_le_lt. intros Hc. apply Qle_bool_iff in Hc. congruence. }
      destruct (IH (S i) i y) as [[-> Hall]|(y' & Hr & Hy' & Hm & Hall)].
      * right. exists y. rewrite Nat.sub_diag. split; [lia|].
        split; [done|]. split; [lra|]. constructor; [lra|done].
      * right. exists y'. split; [lia|]. split.
        { replace (argmax_from v (S i) i y - i)
            with (S (argmax_from v (S i) i y - S i)) by lia. done. }
        split; [lra|]. constructor; [lra|done].
Qed.

Lemma argmax_max (v : vec) (i : nat) :
  argmax v = Ok i ->
  exists m, v !! i = Some m /\ Forall (fun y => y <= m)%Q v.
Proof.
  destruct v as [|x v]; simpl; [discriminate|]. intros [= <-].
  destruct (argmax_from_spec v 1 0 x) as [[-> Hall]|(y & Hr & Hy & Hm & Hall)].
  - exists x. split; [done|]. constructor; [lra|done].
  - exists y. split.
    + replace (argmax_from v 1 0 x) with (S (argmax_from v 1 0 x - 1)) by lia.
      done.
    + constructor; [done|done].
Qed.

Lemma div_250_succ (e : nat) :
  S e / 250 = e / 250 + (if decide (S e mod 250 = 0) then 1 else 0).
Proof.
  pose proof (Nat.div_mod_eq e 250) as He.
  pose proof (Nat.mod_upper_bound e 250) as Hr.
  pose proof (Nat.div_mod_eq (S e) 250) as He'.
  pose proof (Nat.mod_upper_bound (S e) 250) as Hr'.
  case_decide; lia.
Qed.

Module DQN_more.
Import DQN.

Section Act_more.
Context {N : Network}.

(** X8. [__init__] needs action bounds of one length with a third
    component: it builds the agent exactly on the tasks that have them.  It
    raises [ValueError] when the two bounds have different lengths and
    neither has a single component, for then they cannot be subtracted, and
    [IndexError] on every other task, for then one of the bounds has no
    third component. *)
Theorem init_needs_force_z (task : Task) (built : model optimizer)
    (g : rng) :
  let lo := length (action_space_low task) in
  let hi := length (action_space_high task) in
  ((exists a, init task built g = Ok a) <-> hi = lo /\ FORCE_Z < hi) /\
  (init task built g = Raise ValueError <->
   hi <> lo /\ hi <> 1 /\ lo <> 1) /\
  (init task built g = Raise IndexError <->
   (hi = lo \/ hi = 1 \/ lo = 1) /\ (hi <= FORCE_Z \/ lo <= FORCE_Z)) /\
  init task built g <> Unfinished.
Proof.
  cbv zeta. unfold FORCE_Z.
  assert (Hcases :
    ((exists a, init task built g = Ok a) /\
     length (action_space_high task) = length (action_space_low task) /\
     2 < length (action_space_high task)) \/
    (init task built g = Raise ValueError /\
     length (action_space_high task) <> length (action_space_low task) /\
     length (action_space_high task) <> 1 /\
     length (action_space_low task) <> 1) \/
    (init task built g = Raise IndexError /\
     (length (action_space_high task) = length (action_space_low task) \/
      length (action_space_high task) = 1 \/
      length (action_space_low task) = 1) /\
     (length (action_space_high task) <= 2 \/
      length (action_space_low task) <= 2))).
  { unfold init, FORCE_Z.
    pose proof (broadcast_outcome Qminus (action_space_high task)
                  (action_space_low task)) as Hout.
    pose proof (broadcast_ValueError_iff Qminus (action_space_high task)
                  (action_space_low task)) as Hve.
    pose proof (broadcast_Ok_iff Qminus (action_space_high task)
                  (action_space_low task)) as Hok.
    destruct (broadcast Qminus (action_space_high task)
                (action_space_low task)) as [z|e|] eqn:Hb.
    - pose proof (length_broadcast _ _ _ _ Hb) as Hz.
      assert (Hlen : length (action_space_high task)
                     = length (action_space_low task) \/
                     length (action_space_high task) = 1 \/
                     length (action_space_low task) = 1)
        by (apply Hok; by exists z).
      unfold index. cbn [bind].
      destruct (z !! 2) as [r|] eqn:Er; cbn [bind].
      + apply lookup_lt_Some in Er.
        destruct (action_space_low task !! 2) as [l|] eqn:El; cbn [bind].
        * apply lookup_lt_Some in El.
          destruct (action_space_high task !! 2) as [h|] eqn:Eh; cbn [bind].
          -- apply lookup_lt_Some in Eh. left.
             split; [by eexists|]. lia.
          -- apply lookup_ge_None in Eh. right. right.
             split; [done|]. split; [done|]. lia.
        * apply lookup_ge_None in El. right. right.
          split; [done|]. split; [done|]. lia.
      + apply lookup_ge_None in Er. right. right.
        split; [done|]. split; [done|].
        destruct (decide (length (action_space_high task) = 1)); lia.
    - destruct Hout as [[z Hz]|Hr]; [discriminate|]. injection Hr as ->.
      right. left. split; [done|]. by apply Hve.
    - destruct Hout as [[z Hz]|Hr]; discriminate. }
  destruct Hcases as [([a Ha] & H1 & H2)|[(Hv & H1 & H2 & H3)|(Hi & H1 & H2)]].
  - rewrite Ha. split; [split; [done|by exists a]|].
    split; [split; [discriminate|lia]|].
    split; [split; [discriminate|lia]|discriminate].
  - rewrite Hv. split; [split; [by intros [? ?]|lia]|].
    split; [done|]. split; [split; [discriminate|lia]|discriminate].
  - rewrite Hi. split; [split; [by intros [? ?]|lia]|].
    split; [split; [discriminate|lia]|]. split; [done|discriminate].
Qed.

(** X9. The action map of the agent: the forces
    [action_high], [action_high - 4], ... above 15, all of them, in
    ascending order, so that the last action is [action_high] and the first
    is within 4 of 15; there is an action if and only if [action_high] is
    above 15. *)
Theorem action_map_of_init (task : Task) (built : model optimizer) (g : rng)
    (a : Agent) :
  init task built g = Ok a ->
  action_space_high task !! FORCE_Z = Some (action_high a) /\
  action_size a = length (action_map a) /\
  (0 < action_size a <-> (15 < action_high a)%Q) /\
  (action_high a - 4 * inject_Z (Z.of_nat (action_size a)) <= 15)%Q /\
  forall j x,
    action_map a !! j = Some x ->
    (15 < x)%Q /\ (x <= action_high a)%Q /\
    (x == action_high a
          - 4 * inject_Z (Z.of_nat (action_size a - 1 - j)))%Q.
Proof.
  unfold init. intros H.
  apply bind_Ok_inv in H as (d & Hd & H).
  apply bind_Ok_inv in H as (r & Hr & H).
  apply bind_Ok_inv in H as (lo & Hlo & H).
  apply bind_Ok_inv in H as (hi & Hhi & H). injection H as <-.
  cbn [action_high action_size action_map log set_episode_num
       reset_episode_vars set_vars].
  assert (Heq : ((15.0 - hi) / -4.0 == (hi - 15) * (1 # 4))%Q) by field.
  split; [by apply index_Ok|]. split; [done|]. split; [|split].
  - rewrite length_reverse, length_arange_pos. split; intros Hpos.
    + rewrite Heq in Hpos. lra.
    + rewrite Heq. lra.
  - rewrite length_reverse.
    pose proof (length_arange_upper hi 15.0 (-4.0)) as Hup.
    rewrite Heq in Hup. lra.
  - intros j x Hx.
    assert (Hj : j < length (arange hi 15.0 (-4.0))).
    { apply lookup_lt_Some in Hx. by rewrite length_reverse in Hx. }
    rewrite reverse_lookup in Hx by done.
    apply arange_lookup in Hx as [-> Hlt].
    rewrite length_reverse.
    set (k := length (arange hi 15.0 (-4.0)) - S j) in *.
    replace (length (arange hi 15.0 (-4.0)) - 1 - j) with k by lia.
    rewrite Heq in Hlt.
    assert (inject_Z (Z.of_nat k) * 4 < hi - 15)%Q by lra.
    assert (0 <= inject_Z (Z.of_nat k))%Q.
    { change 0%Q with (inject_Z 0). rewrite <- Zle_Qle. lia. }
    split; [lra|]. split; [lra|ring].
Qed.

(** X10. Without an action there is no step: when the action map is empty
    (an [action_high] of 15 or less), [step] raises [ValueError], whatever
    the exploration rate. *)
Theorem step_without_actions (a : Agent) (o : observation) :
  action_size a = 0 -> step a o = Raise ValueError.
Proof.
  intros Hn. unfold step, act.
  destruct (rand (random a)) as [u g].
  destruct (Qle_bool u (epsilon a)).
  - unfold randrange. rewrite Hn. reflexivity.
  - unfold predict. rewrite Hn. reflexivity.
Qed.

(** X11. [act] is epsilon-greedy.  It returns an index of the action map
    and consumes one uniform draw [u]: when [u] exceeds the exploration
    rate, the prediction of the network at the chosen index is the maximum
    of its predictions; otherwise the index is the next draw of [random]
    reduced below the number of actions, whatever the network predicts. *)
Theorem act_epsilon_greedy (a a' : Agent) (state : vec) (i : nat) :
  act a state = Ok (i, a') ->
  let u := (rand (random a)).1 in
  i < action_size a /\
  (~ (u <= epsilon a)%Q ->
   exists q, predict a state !! i = Some q /\
             Forall (fun y => y <= q)%Q (predict a state)) /\
  ((u <= epsilon a)%Q ->
   i = (randbelow (action_size a) (rand (random a)).2).1).
Proof.
  intros H. cbv zeta.
  pose proof (DQN_facts.act_inv _ _ _ _ H) as (Hi & _).
  split; [done|]. unfold act in H.
  destruct (rand (random a)) as [u g]. cbn [fst snd].
  destruct (Qle_bool u (epsilon a)) eqn:Hu.
  - apply Qle_bool_iff in Hu. split; [done|]. intros _.
    unfold randrange in H. case_decide; [discriminate|].
    simpl in H. by injection H as <- _.
  - assert (Hnu : ~ (u <= epsilon a)%Q).
    { intros Hc. apply Qle_bool_iff in Hc. congruence. }
    split; [|done]. intros _.
    apply bind_Ok_inv in H as (j & Hj & H). injection H as <- _.
    by apply argmax_max.
Qed.

End Act_more.

Lemma action_map_of_init_witness :
  exists a : @Agent Example.dqn_network,
    init Example.task Example.dqn_built Example.generator = Ok a /\
    action_size a = length (action_map a) /\
    (0 < action_size a <-> (15 < action_high a)%Q).
Proof.
  destruct example_dqn_agent as (a & Hinit & _).
  exists a. split; [exact Hinit|].
  destruct (action_map_of_init (N:=Example.dqn_network) _ _ _ _ Hinit)
    as (_ & Hlen & Hpos & _).
  split; [exact Hlen|exact Hpos].
Defined.

Lemma step_without_actions_witness :
  exists a : @Agent Example.dqn_network,
    init
      {| action_space_low := replicate 6 (-10)%Q;
         action_space_high := replicate 6 10%Q;
         observation_space_low := []; observation_space_high := [] |}
      Example.dqn_built Example.generator = Ok a /\
    action_size a = 0 /\
    step a {| obs_state := [0; 0; 10]%Q; obs_reward := 0%Q;
              obs_done := false |} = Raise ValueError.
Proof.
  eexists. split; [reflexivity|]. split; [reflexivity|].
  apply (step_without_actions (N:=Example.dqn_network)). reflexivity.
Defined.

Lemma act_epsilon_greedy_witness :
  exists (a a' : @Agent Example.dqn_network) i,
    init Example.task Example.dqn_built Example.generator = Ok a /\
    act a [0; 0; 10]%Q = Ok (i, a') /\ i < 3.
Proof.
  destruct example_dqn_agent as (a & Hinit & _ & Hn & _ & Hwf).
  destruct (DQN_facts.act_Ok a [0; 0; 10]%Q) as (i & a' & Hact); [lia|].
  exists a, a', i. split; [exact Hinit|]. split; [exact Hact|].
  rewrite <- Hn.
  exact (proj1 (act_epsilon_greedy (N:=Example.dqn_network) _ _ _ _ Hact)).
Defined.

(** The agent on bounds of three and four components, on bounds of two
    components, and the action map on the example task: the forces 17, 21
    and 25. *)
Example init_needs_force_z_example :
  let task (lo hi : nat) :=
    {| action_space_low := replicate lo (-25)%Q;
       action_space_high := replicate hi 25%Q;
       observation_space_low := []; observation_space_high := [] |} in
  init (task 3 4) Example.dqn_built Example.generator = Raise ValueError /\
  init (task 2 2) Example.dqn_built Example.generator = Raise IndexError /\
  init (task 6 1) Example.dqn_built Example.generator = Raise IndexError /\
  (a <- init Example.task Example.dqn_built Example.generator ;;
   Ok (Qred <$> action_map a))
  = Ok [17; 21; 25]%Q.
Proof. cbv zeta. repeat (split; [reflexivity|]). reflexivity. Qed.

Section Run_more.
Context {N : Network}.

Lemma replay_if_enough_cases a a' :
  replay_if_enough a = Ok a' ->
  same_setup a a' /\
  exists evs,
    trace a' = trace a ++ evs /\ forallb is_training evs = true /\
    ((BATCH_SIZE < len (memory a) /\ length evs = BATCH_SIZE /\
      epsilon a' = decay (epsilon a)) \/
     (len (memory a) <= BATCH_SIZE /\ evs = [] /\
      epsilon a' = epsilon a /\ network a' = network a)).
Proof.
  unfold replay_if_enough. case_decide as Hlt.
  - intros H. apply DQN_facts.replay_inv in H
      as (Hs & He & mb & g & evs & _ & Htr & Hlen & Htrain & _).
    split; [done|]. exists evs. split; [done|]. split; [done|]. by left.
  - intros [= <-]. split; [apply DQN_facts.same_setup_refl|].
    exists []. rewrite app_nil_r. split; [done|]. split; [done|].
    right. repeat split; [lia].
Qed.

Lemma dqn_step_end (a3 : Agent) (o : observation) state (i : nat) a5 :
  a5 = (let a4 :=
    set_vars a3
      {| last_state := Some state; last_action := Some i;
         total_reward := total_reward (vars a3) + obs_reward o;
         count := count (vars a3) |} in
    if obs_done o then
      let b1 := log a4 (PrintScore (total_reward (vars a4)) (epsilon a4)) in
      let b2 :=
        log b1 (WriteStats (episode_num b1) (total_reward (vars b1))
                  (epsilon b1)) in
      let b3 := set_episode_num b2 (episode_num b2 + 1) in
      let b4 :=
        if decide (episode_num b3 mod 250 = 0) then log b3 SaveWeights
        else b3 in
      reset_episode_vars b4
    else a4) ->
  task a5 = task a3 /\ action_map a5 = action_map a3 /\
  network a5 = network a3 /\ memory a5 = memory a3 /\
  epsilon a5 = epsilon a3 /\
  last_action (vars a5) = (if obs_done o then None else Some i) /\
  episode_num a5 =
    (if obs_done o then episode_num a3 + 1 else episode_num a3) /\
  total_reward (vars a5) =
    (if obs_done o then 0 else total_reward (vars a3) + obs_reward o)%Q /\
  trace a5 =
    trace a3 ++
    (if obs_done o then
       [PrintScore (total_reward (vars a3) + obs_reward o) (epsilon a3);
        WriteStats (episode_num a3)
          (total_reward (vars a3) + obs_reward o) (epsilon a3)] ++
       (if decide ((episode_num a3 + 1) mod 250 = 0) then [SaveWeights]
        else [])
     else []).
Proof.
  intros ->. cbv zeta. unfold reset_episode_vars.
  destruct (obs_done o);
    cbn [episode_num set_episode_num log set_vars vars total_reward epsilon];
    [destruct (decide _)|];
    cbn [episode_num set_episode_num log set_vars vars total_reward epsilon
         task action_map network memory trace last_action];
    repeat split.
  - by rewrite <- !app_assoc.
  - by rewrite <- !app_assoc.
  - by rewrite app_nil_r.
Qed.

(** The phases of [step]: the index [i] that [act] chose, the agent [a2]
    after the storing phase, the agent [a3] after the learning phase, and
    what the end of the step makes of it. *)
Lemma dqn_step_phases a o completed a' :
  step a o = Ok (completed, a') ->
  exists i a2 a3,
    replay_if_enough a2 = Ok a3 /\
    (i < action_size a /\ memory a2 = stored a o /\ vars a2 = vars a /\
     episode_num a2 = episode_num a /\ trace a2 = trace a /\
     network a2 = network a /\ epsilon a2 = epsilon a /\
     task a2 = task a /\ action_map a2 = action_map a) /\
    postprocess_action a3 i = Ok completed /\
    network a' = network a3 /\ memory a' = memory a3 /\
    epsilon a' = epsilon a3 /\
    last_action (vars a') = (if obs_done o then None else Some i) /\
    episode_num a' =
      (if obs_done o then episode_num a3 + 1 else episode_num a3) /\
    total_reward (vars a') =
      (if obs_done o then 0 else total_reward (vars a3) + obs_reward o)%Q /\
    trace a' =
      trace a3 ++
      (if obs_done o then
         [PrintScore (total_reward (vars a3) + obs_reward o) (epsilon a3);
          WriteStats (episode_num a3)
            (total_reward (vars a3) + obs_reward o) (epsilon a3)] ++
         (if decide ((episode_num a3 + 1) mod 250 = 0) then [SaveWeights]
          else [])
       else []).
Proof.
  unfold step, stored. intros H.
  apply bind_Ok_inv in H as ([i a1] & Hact & H).
  apply DQN_facts.act_inv in Hact
    as (Hi & (Ht1 & Hm1 & Hs1 & Hmem1 & Hv1 & Hep1) & He1 & Hn1 & Htr1).
  rewrite Hv1 in H.
  set (a2 := match last_state (vars a) with Some _ => _ | None => _ end) in H.
  apply bind_Ok_inv in H as (a3 & Hlearn & H).
  apply bind_Ok_with in H as [Hpost Hend].
  rewrite Hend in Hpost. symmetry in Hend.
  apply dqn_step_end in Hend
    as (Ht & Hm & Hn & Hmem & He & Hla & Hep & Hr & Htr).
  exists i, a2, a3. split; [done|]. split.
  { split; [done|]. subst a2.
    destruct (last_state (vars a)), (last_action (vars a));
      unfold add_memory; simpl; rewrite ?Hmem1; by repeat split. }
  split; [|done].
  revert Hpost. unfold postprocess_action. by rewrite Ht, Hm.
Qed.

(** The index [act] chose in a step, and what the step makes of it. *)
Lemma dqn_step_act a o completed a' :
  step a o = Ok (completed, a') ->
  exists i b1,
    act a (take 3 (obs_state o)) = Ok (i, b1) /\
    postprocess_action a i = Ok completed /\
    last_action (vars a') = (if obs_done o then None else Some i).
Proof.
  unfold step. intros H.
  apply bind_Ok_inv in H as ([i b1] & Hact & H).
  exists i, b1. split; [exact Hact|].
  apply DQN_facts.act_inv in Hact
    as (Hi & (Ht1 & Hm1 & Hs1 & Hmem1 & Hv1 & Hep1) & _).
  set (a2 := match last_state (vars b1) with Some _ => _ | None => _ end)
    in H.
  assert (H2 : task a2 = task a /\ action_map a2 = action_map a).
  { subst a2. destruct (last_state (vars b1)), (last_action (vars b1));
      by split. }
  destruct H2 as [Ht2 Hm2].
  apply bind_Ok_inv in H as (a3 & Hlearn & H).
  apply bind_Ok_with in H as [Hpost Hend].
  rewrite Hend in Hpost. symmetry in Hend.
  apply dqn_step_end in Hend as (Ht & Hm & _ & _ & _ & Hla & _).
  apply replay_if_enough_cases in Hlearn as ((Ht3 & Hm3 & _) & _).
  split; [|done].
  revert Hpost. unfold postprocess_action.
  by rewrite Ht, Hm, Ht3, Hm3, Ht2, Hm2.
Qed.

(** X12. What [step] returns: the zero vector of the shape of the action
    space with, at [FORCE_Z], the entry of the action map at the index that
    [act] chose on the first three components of the observed state; until
    the episode ends the agent remembers that index as its last action. *)
Theorem step_returns_mapped_force (a a' : Agent) (o : observation)
    (completed : vec) :
  step a o = Ok (completed, a') ->
  exists i b1 x,
    act a (take 3 (obs_state o)) = Ok (i, b1) /\
    i < action_size a /\ action_map a !! i = Some x /\
    completed = <[FORCE_Z := x]> (zeros (action_space_shape (task a))) /\
    completed !! FORCE_Z = Some x /\
    (forall j, j <> FORCE_Z -> j < action_space_shape (task a) ->
               completed !! j = Some 0%Q) /\
    last_action (vars a') = (if obs_done o then None else Some i).
Proof.
  intros H. apply dqn_step_act in H as (i & b1 & Hact & Hpost & Hla).
  pose proof (DQN_facts.act_inv _ _ _ _ Hact) as (Hi & _).
  unfold postprocess_action in Hpost.
  apply bind_Ok_inv in Hpost as (x & Hx & Hset).
  apply index_Ok in Hx. apply setitem_inv in Hset as [Hlt ->].
  exists i, b1, x. do 4 (split; [done|]). split; [|split; [|done]].
  - by apply list_lookup_insert_eq.
  - intros j Hj Hjl. rewrite list_lookup_insert_ne by done.
    unfold zeros. by apply lookup_replicate_2.
Qed.

Lemma dqn_stats_rows_app tr evs :
  stats_rows (tr ++ evs) = stats_rows tr ++ stats_rows evs.
Proof. unfold stats_rows. apply omap_app. Qed.

Lemma saves_app tr evs : saves (tr ++ evs) = saves tr ++ saves evs.
Proof. unfold saves. apply filter_app. Qed.

Lemma fits_app tr evs : fits (tr ++ evs) = fits tr ++ fits evs.
Proof. unfold fits. apply filter_app. Qed.

Lemma training_events evs :
  forallb is_training evs = true ->
  stats_rows evs = [] /\ saves evs = [] /\ fits evs = evs.
Proof.
  induction evs as [|e evs IH]; [done|]. intros H.
  apply andb_prop in H as [He Hevs]. destruct (IH Hevs) as (Hs & Hv & Hf).
  destruct e; try discriminate.
  split; [exact Hs|]. unfold saves, fits in *. rewrite !filter_cons.
  cbn [is_save is_training]. split.
  - case_decide; [discriminate|done].
  - case_decide; [by rewrite Hf|done].
Qed.

Lemma dqn_step_accounting a o completed a' :
  step a o = Ok (completed, a') ->
  if obs_done o then
    stats_rows (trace a') =
      stats_rows (trace a) ++
      [(episode_num a, (total_reward (vars a) + obs_reward o)%Q)] /\
    episode_num a' = episode_num a + 1 /\
    total_reward (vars a') = 0%Q /\
    saves (trace a') =
      saves (trace a) ++
      (if decide ((episode_num a + 1) mod 250 = 0) then [SaveWeights]
       else [])
  else
    stats_rows (trace a') = stats_rows (trace a) /\
    episode_num a' = episode_num a /\
    total_reward (vars a') = (total_reward (vars a) + obs_reward o)%Q /\
    saves (trace a') = saves (trace a).
Proof.
  intros H. apply dqn_step_phases in H
    as (i & a2 & a3 & Hl & (_ & _ & Hv2 & He2 & Ht2 & _) & _ & _ & _ & _ & _
        & He & Hr & Ht).
  apply replay_if_enough_cases in Hl
    as ((_ & _ & _ & _ & Hv3 & He3) & evs & Ht3 & Hall & _).
  apply training_events in Hall as (Hs & Hv & _).
  rewrite Ht, He, Hr, dqn_stats_rows_app, saves_app, Ht3, dqn_stats_rows_app,
    saves_app, Hs, Hv, Ht2, Hv3, Hv2, He3, He2, !app_nil_r.
  destruct (obs_done o); [|by rewrite !app_nil_r].
  unfold saves.
  destruct (decide ((episode_num a + 1) mod 250 = 0)); by repeat split.
Qed.

Lemma dqn_run_accounting obs a actions a' :
  run a obs = Ok (actions, a') ->
  let '(totals, open) := episode_totals (total_reward (vars a)) obs in
  stats_rows (trace a') =
    stats_rows (trace a) ++ zip (seq (episode_num a) (length totals)) totals /\
  episode_num a' = episode_num a + length totals /\
  total_reward (vars a') = open /\
  length (saves (trace a')) + episode_num a / 250 =
    length (saves (trace a)) + episode_num a' / 250 /\
  length actions = length obs.
Proof.
  revert a actions. induction obs as [|o obs IH]; intros a actions;
    cbn [run episode_totals].
  - intros [= <- <-]. cbn [length seq zip zip_with]. rewrite app_nil_r.
    repeat split; lia.
  - intros H. apply bind_Ok_inv in H as ([c a1] & Hstep & H).
    apply bind_Ok_inv in H as ([acts a2] & Hrun & H). injection H as <- <-.
    apply dqn_step_accounting in Hstep. apply IH in Hrun.
    destruct (obs_done o).
    + destruct Hstep as (Ht & He & Hr & Hs). rewrite Hr in Hrun.
      destruct (episode_totals 0 obs) as [ts r].
      destruct Hrun as (Ht' & He' & Hr' & Hs' & Hlen).
      replace (episode_num a + 1) with (S (episode_num a)) in * by lia.
      rewrite He in *. cbn [length]. split.
      { rewrite Ht', Ht, <- app_assoc. reflexivity. }
      split; [lia|]. split; [done|]. split; [|lia].
      rewrite Hs, length_app in Hs'.
      pose proof (div_250_succ (episode_num a)) as Hd.
      destruct (decide (S (episode_num a) mod 250 = 0));
        cbn [length] in Hs'; lia.
    + destruct Hstep as (Ht & He & Hr & Hs). rewrite Hr in Hrun.
      destruct (episode_totals _ obs) as [ts r].
      destruct Hrun as (Ht' & He' & Hr' & Hs' & Hlen).
      rewrite He, Hs in *. cbn [length]. split; [by rewrite Ht', Ht|].
      repeat split; try done; lia.
Qed.

(** X13. The accounts of the DQN agent.  After a run on [obs] the stats
    file holds one row for each episode [obs] closed, numbered from 1, with
    the sum of the rewards of that episode; the episode number is one more
    than the number of closed episodes.  The weights were saved once for
    every multiple of 250 the episode number has reached: the first time
    at the end of episode 249, then every 250 episodes. *)
Theorem dqn_episode_accounts (task : Task) (built : model optimizer)
    (g : rng) (obs : list observation) (a0 a : Agent) (actions : list vec) :
  init task built g = Ok a0 ->
  run a0 obs = Ok (actions, a) ->
  let totals := (episode_totals 0 obs).1 in
  stats_rows (trace a) = zip (seq 1 (length totals)) totals /\
  length totals = length (filter (fun o => obs_done o = true) obs) /\
  episode_num a = 1 + length totals /\
  total_reward (vars a) = (episode_totals 0 obs).2 /\
  length (saves (trace a)) = (1 + length totals) / 250 /\
  length actions = length obs.
Proof.
  intros Hinit H. apply dqn_run_accounting in H. cbv zeta.
  pose proof (episode_totals_length 0 obs) as Hlen.
  unfold init in Hinit.
  apply bind_Ok_inv in Hinit as (df & _ & Hinit).
  apply bind_Ok_inv in Hinit as (r & _ & Hinit).
  apply bind_Ok_inv in Hinit as (lo & _ & Hinit).
  apply bind_Ok_inv in Hinit as (hi & _ & Hinit). injection Hinit as <-.
  cbn [vars total_reward trace episode_num log set_episode_num
       reset_episode_vars set_vars] in H.
  destruct (episode_totals 0 obs) as [ts r'].
  destruct H as (Ht & He & Hr & Hs & Hl). simpl in *.
  rewrite Ht, He. change (1 / 250) with 0 in Hs.
  rewrite He in Hs. simpl in Hs. repeat split; try done. lia.
Qed.

Lemma dqn_step_memory_invariant seen a o completed a' :
  step a o = Ok (completed, a') ->
  memory_invariant seen a ->
  memory_invariant (seen ++ [o]) a' /\ maxlen (memory a') = maxlen (memory a).
Proof.
  intros Hstep (Hmem & Hls & Hla).
  apply DQN_facts.dqn_step_inv in Hstep
    as (Hm & _ & _ & _ & _ & Hls' & (i & _ & Hla') & _).
  assert (Hmax : maxlen (memory a') = maxlen (memory a)).
  { rewrite Hm. unfold stored.
    destruct (last_state (vars a)), (last_action (vars a)); done. }
  split; [|done]. unfold memory_invariant. rewrite Hmax.
  split; [|split].
  - rewrite transitions_of_snoc, Hm. unfold stored.
    destruct (last_state (vars a)) as [ls|] eqn:Els.
    + destruct (Hla (mk_is_Some _ _ eq_refl)) as [la Ela]. rewrite Ela.
      destruct (last seen) as [o1|]; [|done].
      destruct (obs_done o1); [done|]. injection Hls as ->.
      by apply (items_append_history transition_reading).
    + destruct (last seen) as [o1|]; [|by rewrite app_nil_r].
      destruct (obs_done o1); [by rewrite app_nil_r|done].
  - by rewrite last_snoc.
  - rewrite Hls', Hla'. by destruct (obs_done o).
Qed.

Lemma dqn_run_memory_invariant obs seen a actions a' :
  run a obs = Ok (actions, a') ->
  memory_invariant seen a ->
  memory_invariant (seen ++ obs) a' /\ maxlen (memory a') = maxlen (memory a).
Proof.
  revert seen a actions.
  induction obs as [|o obs IH]; intros seen a actions; simpl.
  - intros [= <- <-]. by rewrite app_nil_r.
  - intros H Hinv. apply bind_Ok_inv in H as ([c a1] & Hstep & H).
    apply bind_Ok_inv in H as ([acts a2] & Hrun & H). injection H as <- <-.
    destruct (dqn_step_memory_invariant _ _ _ _ _ Hstep Hinv)
      as [Hinv1 Hmax1].
    destruct (IH _ _ _ Hrun Hinv1) as [Hinv2 Hmax2].
    rewrite cons_middle, app_assoc. split; [done|congruence].
Qed.

(** X14. The memory of the DQN agent is complete.  After a run on [obs] it
    holds, in order, the transitions of [obs]: for each observation that
    does not close an episode, its first three state components, the
    reward, the first three state components and the done flag of the next
    observation; all of them while there are at most 10000, and the last
    10000 of them beyond. *)
Theorem dqn_memory_holds_transitions (task : Task) (built : model optimizer)
    (g : rng) (obs : list observation) (a0 a : Agent) (actions : list vec) :
  init task built g = Ok a0 ->
  run a0 obs = Ok (actions, a) ->
  let history := transitions_of (take 3) obs in
  (fun t : transition => let '(s, _, r, ns, d) := t in (s, r, ns, d))
    <$> items (memory a)
  = drop (length history - 10000) history.
Proof.
  intros Hinit H. cbv zeta.
  assert (Hinv : memory_invariant [] a0 /\ maxlen (memory a0) = 10000).
  { unfold init in Hinit.
    apply bind_Ok_inv in Hinit as (df & _ & Hinit).
    apply bind_Ok_inv in Hinit as (r & _ & Hinit).
    apply bind_Ok_inv in Hinit as (lo & _ & Hinit).
    apply bind_Ok_inv in Hinit as (hi & _ & Hinit). injection Hinit as <-.
    split; [|reflexivity]. split; [done|]. split; [done|].
    simpl. by intros [? ?]. }
  destruct Hinv as [Hinv Hmax0].
  destruct (dqn_run_memory_invariant obs [] _ _ _ H Hinv)
    as [(Hmem & _) Hmax].
  rewrite Hmax, Hmax0 in Hmem. change ([] ++ obs) with obs in Hmem.
  etrans; [|exact Hmem].
  apply list_fmap_ext. by intros _ [[[[s i] r] ns] d] _.
Qed.

(** What a run has made of the exploration rate and of the network: the
    mini-batches replayed so far. *)
Lemma dqn_step_replays a o completed a' :
  step a o = Ok (completed, a') ->
  memory_bound a' <= memory_bound a + 1 /\
  ((BATCH_SIZE < len (stored a o) /\
    epsilon a' = decay (epsilon a) /\
    length (fits (trace a')) = length (fits (trace a)) + BATCH_SIZE) \/
   (len (stored a o) <= BATCH_SIZE /\
    epsilon a' = epsilon a /\ network a' = network a /\
    fits (trace a') = fits (trace a))).
Proof.
  intros H. pose proof (DQN_facts.dqn_stored_bound a o) as Hst.
  pose proof (DQN_facts.dqn_step_inv _ _ _ _ H)
    as (Hm & _ & _ & _ & _ & Hls & _).
  apply dqn_step_phases in H
    as (i & a2 & a3 & Hl & (_ & Hm2 & _ & _ & Ht2 & Hn2 & He2 & _) & _ & Hn
        & _ & He & _ & _ & _ & Ht).
  split.
  { unfold memory_bound at 1. rewrite Hm, Hls. destruct (obs_done o); lia. }
  assert (Hend : fits (trace a') = fits (trace a3)).
  { rewrite Ht, fits_app. unfold fits at 2.
    destruct (obs_done o); [|by rewrite app_nil_r].
    destruct (decide ((episode_num a3 + 1) mod 250 = 0));
      by rewrite app_nil_r. }
  apply replay_if_enough_cases in Hl
    as (_ & evs & Ht3 & Hall & [(Hlt & Hlen & He3)|(Hle & -> & He3 & Hn3)]).
  - left. rewrite Hm2 in Hlt. split; [done|]. split; [congruence|].
    apply training_events in Hall as (_ & _ & Hf).
    by rewrite Hend, Ht3, fits_app, Hf, length_app, Ht2, Hlen.
  - right. rewrite Hm2 in Hle. split; [done|]. split; [congruence|].
    split; [congruence|]. by rewrite Hend, Ht3, app_nil_r, Ht2.
Qed.

Lemma dqn_run_warm_up obs a actions a' :
  run a obs = Ok (actions, a') ->
  memory_bound a + length obs <= S BATCH_SIZE ->
  network a' = network a /\ epsilon a' = epsilon a /\
  fits (trace a') = fits (trace a).
Proof.
  revert a actions. induction obs as [|o obs IH]; intros a actions;
    cbn [run length].
  - by intros [= <- <-].
  - intros H Hb. apply bind_Ok_inv in H as ([c a1] & Hstep & H).
    apply bind_Ok_inv in H as ([acts a2] & Hrun & H). injection H as <- <-.
    pose proof (DQN_facts.dqn_stored_bound a o) as Hst.
    apply dqn_step_replays in Hstep
      as (Hmb & [(Hlt & _)|(_ & He & Hn & Hf)]); [lia|].
    destruct (IH a1 acts Hrun) as (Hn' & He' & Hf'); [lia|].
    split; [congruence|]. split; congruence.
Qed.

(** X15. The warm-up of the DQN agent.  An agent run on at most 65
    observations from its construction has not replayed: its network is
    the one it was built with, its exploration rate is still 3.0, and
    [model.fit] was not called.  The first step stores nothing, so that
    the memory exceeds the batch size of 64 at the 66th step at the
    earliest. *)
Theorem no_replay_before_66_steps (task : Task) (built : model optimizer)
    (g : rng) (obs : list observation) (a0 a : Agent) (actions : list vec) :
  init task built g = Ok a0 ->
  run a0 obs = Ok (actions, a) ->
  length obs <= 65 ->
  network a = built /\ epsilon a = 3.0%Q /\ fits (trace a) = [].
Proof.
  intros Hinit H Hlen. apply dqn_run_warm_up in H.
  - unfold init in Hinit.
    apply bind_Ok_inv in Hinit as (df & _ & Hinit).
    apply bind_Ok_inv in Hinit as (r & _ & Hinit).
    apply bind_Ok_inv in Hinit as (lo & _ & Hinit).
    apply bind_Ok_inv in Hinit as (hi & _ & Hinit). injection Hinit as <-.
    exact H.
  - unfold init in Hinit.
    apply bind_Ok_inv in Hinit as (df & _ & Hinit).
    apply bind_Ok_inv in Hinit as (r & _ & Hinit).
    apply bind_Ok_inv in Hinit as (lo & _ & Hinit).
    apply bind_Ok_inv in Hinit as (hi & _ & Hinit). injection Hinit as <-.
    change (memory_bound _) with 0. unfold BATCH_SIZE. lia.
Qed.

Lemma memory_invariant_len seen a :
  memory_invariant seen a -> BATCH_SIZE < maxlen (memory a) ->
  BATCH_SIZE < len (memory a) <->
  BATCH_SIZE < length (transitions_of preprocess_state seen).
Proof.
  intros (Hmem & _) Hmax. unfold len.
  rewrite <- (length_fmap transition_reading), Hmem, length_drop. lia.
Qed.

Lemma dqn_run_replays obs seen a actions a' :
  run a obs = Ok (actions, a') ->
  memory_invariant seen a -> BATCH_SIZE < maxlen (memory a) ->
  let k :=
    length
      (filter
         (fun j => BATCH_SIZE <
                   length (transitions_of preprocess_state
                             (take j (seen ++ obs))))
         (seq (S (length seen)) (length obs))) in
  epsilon a' = Nat.iter k decay (epsilon a) /\
  length (fits (trace a')) = length (fits (trace a)) + k * BATCH_SIZE /\
  (k = 0 -> network a' = network a).
Proof.
  revert seen a actions. induction obs as [|o obs IH]; intros seen a actions;
    cbn [run length seq].
  - intros [= <- <-] _ _. cbn. repeat split; lia.
  - intros H Hinv Hmax. apply bind_Ok_inv in H as ([c a1] & Hstep & H).
    apply bind_Ok_inv in H as ([acts a2] & Hrun & H). injection H as <- <-.
    destruct (dqn_step_memory_invariant _ _ _ _ _ Hstep Hinv)
      as [Hinv1 Hmax1].
    pose proof (DQN_facts.dqn_step_inv _ _ _ _ Hstep) as (Hm & _).
    assert (Hiff := memory_invariant_len _ _ Hinv1).
    rewrite Hmax1, Hm in Hiff. specialize (Hiff Hmax).
    apply dqn_step_replays in Hstep as (_ & Hcases).
    specialize (IH (seen ++ [o]) a1 acts Hrun Hinv1).
    rewrite Hmax1 in IH. specialize (IH Hmax). cbv zeta in IH.
    rewrite <- app_assoc, length_app, Nat.add_1_r in IH.
    cbn [app length] in IH. cbv zeta.
    rewrite filter_cons.
    replace (take (S (length seen)) (seen ++ o :: obs)) with (seen ++ [o]).
    2:{ rewrite (cons_middle o seen obs), app_assoc.
        rewrite take_app_length'; [done|].
        rewrite length_app. simpl. lia. }
    set (js := filter _ (seq (S (S (length seen))) (length obs))) in *.
    destruct IH as (He & Hf & Hn).
    destruct Hcases as [(Hlt & He1 & Hf1)|(Hle & He1 & Hn1 & Hf1)].
    + rewrite decide_True by by apply Hiff. cbn [length].
      rewrite Nat.iter_succ_r. split; [congruence|]. split; [|done].
      rewrite Hf, Hf1. lia.
    + rewrite decide_False by (rewrite <- Hiff; lia).
      split; [congruence|]. split; [congruence|].
      intros Hk. rewrite Hn by done. done.
Qed.

(** X16. When the DQN agent replays.  Run from its construction, the agent
    replays at exactly those steps up to which the observations hold more
    than 64 transitions.  With [k] such steps among [obs], [model.fit] was
    called [64 * k] times and the exploration rate is 3.0 decayed [k]
    times. *)
Theorem replays_of_a_run (task : Task) (built : model optimizer)
    (g : rng) (obs : list observation) (a0 a : Agent) (actions : list vec) :
  init task built g = Ok a0 ->
  run a0 obs = Ok (actions, a) ->
  let k :=
    length
      (filter
         (fun j => 64 < length (transitions_of (take 3) (take j obs)))
         (seq 1 (length obs))) in
  epsilon a = Nat.iter k decay 3.0%Q /\
  length (fits (trace a)) = 64 * k.
Proof.
  intros Hinit H.
  assert (Hinv : memory_invariant [] a0 /\ BATCH_SIZE < maxlen (memory a0) /\
                 epsilon a0 = 3.0%Q /\ fits (trace a0) = []).
  { unfold init in Hinit.
    apply bind_Ok_inv in Hinit as (df & _ & Hinit).
    apply bind_Ok_inv in Hinit as (r & _ & Hinit).
    apply bind_Ok_inv in Hinit as (lo & _ & Hinit).
    apply bind_Ok_inv in Hinit as (hi & _ & Hinit). injection Hinit as <-.
    split; [|split; [|by split]].
    - split; [done|]. split; [done|]. simpl. by intros [? ?].
    - apply Nat.ltb_lt. vm_compute. reflexivity. }
  destruct Hinv as (Hinv & Hmax & He0 & Hf0).
  destruct (dqn_run_replays obs [] _ _ _ H Hinv Hmax) as (He & Hf & _).
  rewrite He0 in He. rewrite Hf0 in Hf. intros k. split; [exact He|].
  assert (Hf' : length (fits (trace a)) = 0 + k * 64) by exact Hf.
  clearbody k. lia.
Qed.

End Run_more.

(** The example agent runs on every sequence of at most 200 observations. *)
Lemma example_dqn_run (a0 : @Agent Example.dqn_network)
    (obs : list observation) :
  init Example.task Example.dqn_built Example.generator = Ok a0 ->
  length obs <= 200 ->
  well_formed a0 /\ memory_bound a0 <= 1 /\
  exists actions a, run a0 obs = Ok (actions, a).
Proof.
  intros Hinit Hlen.
  destruct example_dqn_agent as (a & Ha & _ & _ & Hmem & Hwf).
  rewrite Ha in Hinit. injection Hinit as <-.
  assert (Hb : memory_bound a <= 1).
  { unfold memory_bound. rewrite Hmem.
    destruct (last_state (vars a)); simpl; lia. }
  split; [done|]. split; [done|].
  apply DQN_facts.dqn_run_Ok; [done|].
  assert (Hs : setsize BATCH_SIZE = 277) by reflexivity.
  rewrite Hs. lia.
Qed.

Lemma step_returns_mapped_force_witness :
  exists (a a' : @Agent Example.dqn_network) completed i x,
    init Example.task Example.dqn_built Example.generator = Ok a /\
    step a {| obs_state := [0; 0; 10; 0; 0; 0; 1]%Q; obs_reward := (-10)%Q;
              obs_done := false |} = Ok (completed, a') /\
    action_map a !! i = Some x /\ completed !! FORCE_Z = Some x /\
    last_action (vars a') = Some i.
Proof.
  destruct example_dqn_agent as (a & Hinit & _ & _ & _ & Hwf).
  set (o := {| obs_state := [0; 0; 10; 0; 0; 0; 1]%Q;
               obs_reward := (-10)%Q; obs_done := false |}).
  destruct (example_dqn_run a [] Hinit) as (_ & Hb & _); [simpl; lia|].
  destruct (DQN_facts.dqn_step_Ok a o Hwf) as (c & a' & Hstep & _).
  { left. pose proof (DQN_facts.dqn_stored_bound a o) as Hst.
    unfold BATCH_SIZE. lia. }
  destruct (step_returns_mapped_force (N:=Example.dqn_network) _ _ _ _ Hstep)
    as (i & b1 & x & _ & _ & Hx & _ & Hc & _ & Hla).
  exists a, a', c, i, x. split; [exact Hinit|]. split; [exact Hstep|].
  split; [exact Hx|]. split; [exact Hc|exact Hla].
Defined.

Lemma dqn_episode_accounts_witness :
  exists (a0 a : @Agent Example.dqn_network) actions,
    init Example.task Example.dqn_built Example.generator = Ok a0 /\
    run a0 Example.observations = Ok (actions, a) /\
    stats_rows (trace a) = [(1, (0 + -10 + -9 + -8)%Q)] /\
    episode_num a = 2 /\ total_reward (vars a) = (0 + -20)%Q /\
    saves (trace a) = [].
Proof.
  destruct example_dqn_agent as (a0 & Hinit & _ & _ & _ & Hwf).
  destruct (example_dqn_run a0 Example.observations Hinit)
    as (_ & _ & actions & a & Hrun); [simpl; lia|].
  exists a0, a, actions. split; [exact Hinit|]. split; [exact Hrun|].
  destruct (dqn_episode_accounts (N:=Example.dqn_network)
              _ _ _ _ _ _ _ Hinit Hrun) as (Ht & _ & He & Hr & Hs & _).
  rewrite Ht, He, Hr. do 3 (split; [reflexivity|]).
  apply length_zero_iff_nil. rewrite Hs. reflexivity.
Defined.

Lemma dqn_memory_holds_transitions_witness :
  exists (a0 a : @Agent Example.dqn_network) actions,
    init Example.task Example.dqn_built Example.generator = Ok a0 /\
    run a0 Example.observations = Ok (actions, a) /\
    (fun t : transition => let '(s, _, r, ns, d) := t in (s, r, ns, d))
      <$> items (memory a)
    = [([0; 0; 10]%Q, (-9)%Q, [0; 0; 11]%Q, false);
       ([0; 0; 11]%Q, (-8)%Q, [0; 0; 12]%Q, true)].
Proof.
  destruct example_dqn_agent as (a0 & Hinit & _ & _ & _ & Hwf).
  destruct (example_dqn_run a0 Example.observations Hinit)
    as (_ & _ & actions & a & Hrun); [simpl; lia|].
  exists a0, a, actions. split; [exact Hinit|]. split; [exact Hrun|].
  rewrite (dqn_memory_holds_transitions (N:=Example.dqn_network)
             _ _ _ _ _ _ _ Hinit Hrun).
  reflexivity.
Defined.

Lemma no_replay_before_66_steps_witness :
  exists (a0 a : @Agent Example.dqn_network) actions,
    init Example.task Example.dqn_built Example.generator = Ok a0 /\
    run a0 Example.observations = Ok (actions, a) /\
    length Example.observations <= 65 /\
    network a = Example.dqn_built /\ epsilon a = 3.0%Q.
Proof.
  destruct example_dqn_agent as (a0 & Hinit & _ & _ & _ & Hwf).
  destruct (example_dqn_run a0 Example.observations Hinit)
    as (_ & _ & actions & a & Hrun); [simpl; lia|].
  assert (Hlen : length Example.observations <= 65) by (simpl; lia).
  exists a0, a, actions. split; [exact Hinit|]. split; [exact Hrun|].
  split; [exact Hlen|].
  destruct (no_replay_before_66_steps (N:=Example.dqn_network)
              _ _ _ _ _ _ _ Hinit Hrun Hlen) as (Hn & He & _).
  split; [exact Hn|exact He].
Defined.

Lemma replays_of_a_run_witness :
  exists (a0 a : @Agent Example.dqn_network) actions,
    init Example.task Example.dqn_built Example.generator = Ok a0 /\
    run a0
      (replicate 70 {| obs_state := [0; 0; 10; 0; 0; 0; 1]%Q;
                       obs_reward := (-10)%Q; obs_done := false |})
      = Ok (actions, a) /\
    epsilon a = Nat.iter 5 decay 3.0%Q /\ length (fits (trace a)) = 320.
Proof.
  destruct example_dqn_agent as (a0 & Hinit & _ & _ & _ & Hwf).
  set (obs := replicate 70 _).
  destruct (example_dqn_run a0 obs Hinit) as (_ & _ & actions & a & Hrun).
  { subst obs. rewrite length_replicate. lia. }
  exists a0, a, actions. split; [exact Hinit|]. split; [exact Hrun|].
  exact (replays_of_a_run (N:=Example.dqn_network)
           _ _ _ _ _ _ _ Hinit Hrun).
Defined.

End DQN_more.
